(** * A shallow embedding of the AI Stories Sharing backend

    The development follows the TypeScript sources: the entity types of
    [models/types.ts], the error classes of [models/errors.ts], the in-memory
    store of [storage/InMemoryStorage.ts] and the services built on top of it
    ([FriendService], [PostService], [FeedService], [AuthenticationService],
    [SerializationService], [MediaService]), and the authentication part of
    the HTTP layer. The model comes first, then the vocabulary of the
    properties, then the properties.

    Conventions.
    - A JavaScript [Date] is the integer it wraps (milliseconds since the
      epoch, what [getTime] returns).
    - A [Map] whose iteration order is observed by the code (the posts and the
      friend requests) is an insertion-ordered association list; the other
      maps are [gmap]s and the [Set]s are [gset]s.
    - Values drawn from the environment (the clock, [uuidv4], random salts)
      are explicit arguments of the operation that reads them.
    - A service method that writes to the store or throws is a computation in
      the monad [M]: it threads the store and either returns a value or
      throws an [Error.t]. A method that only reads is a function of the
      store.
    - The built-ins on which the code relies ([Array.prototype.sort] and
      [slice], [JSON.stringify] and [JSON.parse], [toISOString] and
      [Date.parse], string methods) are modelled in the modules [JsArray],
      [Json], [JsDate] and [JsString]. *)

From Stdlib Require Import ZArith String Ascii List Lia Permutation Sorted.
From Stdlib Require Import DecimalString.
From stdpp Require Import gmap strings list fin_maps.
Import ListNotations.

Local Open Scope string_scope.
Local Open Scope Z_scope.

Set Warnings "-clear-no-such-hyp,-register-all".

(** ** Entities ([models/types.ts]) *)

Inductive ContentType := text | image | video.
Inductive Visibility := friends_only | public.
Inductive FriendRequestStatus := pending | accepted | declined.

#[global] Instance ContentType_eq_dec : EqDecision ContentType.
Proof. solve_decision. Defined.
#[global] Instance Visibility_eq_dec : EqDecision Visibility.
Proof. solve_decision. Defined.
#[global] Instance FriendRequestStatus_eq_dec : EqDecision FriendRequestStatus.
Proof. solve_decision. Defined.

(** Milliseconds since the epoch. A time value beyond 8.64e15 ms from the
    epoch stands for an invalid date. *)
Definition Date := Z.

Module User.
Record t := mk
  { id : string; email : string; username : string;
    passwordHash : string; createdAt : Date }.
End User.

Module Session.
Record t := mk
  { id : string; userId : string; token : string; expiresAt : Date }.
End Session.

(** [PostContent], with the two fields that [PostContentWithFile] adds: the
    objects that reach [createPost] and the store carry them at run time. *)
Module PostContent.
Record t := mk
  { type : ContentType;
    text : option string;
    mediaUrl : option string;
    mimeType : option string;
    fileSize : option Z }.
End PostContent.

Module Post.
Record t := mk
  { id : string; authorId : string; content : PostContent.t;
    visibility : Visibility; createdAt : Date; updatedAt : Date;
    isEdited : bool }.
End Post.

Module PostUpdate.
Record t := mk
  { content : option PostContent.t; visibility : option Visibility }.
End PostUpdate.

Module FriendRequest.
Record t := mk
  { id : string; fromUserId : string; toUserId : string;
    status : FriendRequestStatus; createdAt : Date }.
Definition with_status (s : FriendRequestStatus) (r : t) : t :=
  mk (id r) (fromUserId r) (toUserId r) s (createdAt r).
End FriendRequest.

Module Friendship.
Record t := mk { userId : string; friendId : string; createdAt : Date }.
End Friendship.

Module Pagination.
Record t := mk { limit : Z; offset : Z }.
End Pagination.

Module FeedResult.
Record t := mk { posts : list Post.t; hasMore : bool; total : Z }.
End FeedResult.

(** ** Errors ([models/errors.ts])

    One constructor per class that the services throw. [PlainError] is the
    built-in [Error] of the language, which is not an [AppError];
    [NativeError] is an error that the runtime itself throws ([RangeError],
    [SyntaxError], [TypeError]), whose message is the engine's and is left
    out. *)

Module Error.
Inductive t :=
| NativeError (name : string)
| PlainError (message : string)
| DuplicateEmailError
| DuplicateUsernameError
| InvalidCredentialsError
| SessionExpiredError
| InvalidSessionError
| UnauthorizedError
| ForbiddenError (message : string)
| EmptyContentError
| InvalidFormatError (message : string)
| FileTooLargeError (maxSize : string)
| PostNotFoundError
| AccessDeniedError
| SelfFriendRequestError
| DuplicateFriendRequestError
| FriendRequestNotFoundError
| NotFriendsError
| UserNotFoundError.

(** The [name] property set by each constructor. *)
Definition name (e : t) : string :=
  match e with
  | NativeError name => name
  | PlainError _ => "Error"
  | DuplicateEmailError => "DuplicateEmailError"
  | DuplicateUsernameError => "DuplicateUsernameError"
  | InvalidCredentialsError => "InvalidCredentialsError"
  | SessionExpiredError => "SessionExpiredError"
  | InvalidSessionError => "InvalidSessionError"
  | UnauthorizedError => "UnauthorizedError"
  | ForbiddenError _ => "ForbiddenError"
  | EmptyContentError => "EmptyContentError"
  | InvalidFormatError _ => "InvalidFormatError"
  | FileTooLargeError _ => "FileTooLargeError"
  | PostNotFoundError => "PostNotFoundError"
  | AccessDeniedError => "AccessDeniedError"
  | SelfFriendRequestError => "SelfFriendRequestError"
  | DuplicateFriendRequestError => "DuplicateFriendRequestError"
  | FriendRequestNotFoundError => "FriendRequestNotFoundError"
  | NotFriendsError => "NotFriendsError"
  | UserNotFoundError => "UserNotFoundError"
  end.

(** The [code] property of an [AppError]; the built-in [Error] has none. *)
Definition code (e : t) : option string :=
  match e with
  | NativeError _ | PlainError _ => None
  | DuplicateEmailError => Some "DUPLICATE_EMAIL"
  | DuplicateUsernameError => Some "DUPLICATE_USERNAME"
  | InvalidCredentialsError => Some "INVALID_CREDENTIALS"
  | SessionExpiredError => Some "SESSION_EXPIRED"
  | InvalidSessionError => Some "INVALID_SESSION"
  | UnauthorizedError => Some "UNAUTHORIZED"
  | ForbiddenError _ => Some "FORBIDDEN"
  | EmptyContentError => Some "EMPTY_CONTENT"
  | InvalidFormatError _ => Some "INVALID_FORMAT"
  | FileTooLargeError _ => Some "FILE_TOO_LARGE"
  | PostNotFoundError => Some "POST_NOT_FOUND"
  | AccessDeniedError => Some "ACCESS_DENIED"
  | SelfFriendRequestError => Some "SELF_FRIEND_REQUEST"
  | DuplicateFriendRequestError => Some "DUPLICATE_REQUEST"
  | FriendRequestNotFoundError => Some "REQUEST_NOT_FOUND"
  | NotFriendsError => Some "NOT_FRIENDS"
  | UserNotFoundError => Some "USER_NOT_FOUND"
  end.

Definition statusCode (e : t) : option Z :=
  match e with
  | NativeError _ | PlainError _ => None
  | DuplicateEmailError | DuplicateUsernameError
  | DuplicateFriendRequestError => Some 409
  | InvalidCredentialsError | SessionExpiredError | InvalidSessionError
  | UnauthorizedError => Some 401
  | ForbiddenError _ | AccessDeniedError => Some 403
  | EmptyContentError | InvalidFormatError _ | SelfFriendRequestError
  | NotFriendsError => Some 400
  | FileTooLargeError _ => Some 413
  | PostNotFoundError | FriendRequestNotFoundError
  | UserNotFoundError => Some 404
  end.

Definition message (e : t) : string :=
  match e with
  | NativeError _ => ""
  | PlainError m | ForbiddenError m | InvalidFormatError m => m
  | DuplicateEmailError => "Email already registered"
  | DuplicateUsernameError => "Username already taken"
  | InvalidCredentialsError => "Invalid email or password"
  | SessionExpiredError => "Session has expired"
  | InvalidSessionError => "Invalid session token"
  | UnauthorizedError => "Authentication required"
  | EmptyContentError => "Content cannot be empty"
  | FileTooLargeError maxSize => "File exceeds maximum size of " +:+ maxSize
  | PostNotFoundError => "Post not found"
  | AccessDeniedError => "You do not have access to this post"
  | SelfFriendRequestError => "Cannot send friend request to yourself"
  | DuplicateFriendRequestError => "Friend request already exists"
  | FriendRequestNotFoundError => "Friend request not found"
  | NotFriendsError => "Users are not friends"
  | UserNotFoundError => "User not found"
  end.

(** Whether the error is an instance of [AppError]. *)
Definition isAppError (e : t) : bool :=
  match e with NativeError _ | PlainError _ => false | _ => true end.
End Error.

(** ** Insertion-ordered maps

    A JavaScript [Map] iterates in insertion order, and [set] on a present
    key keeps the key's position. *)

Module JsMap.
Section Ops.
Context {V : Type}.

Fixpoint get (k : string) (m : list (string * V)) : option V :=
  match m with
  | [] => None
  | (k', v) :: m' => if String.eqb k k' then Some v else get k m'
  end.

Fixpoint set (k : string) (v : V) (m : list (string * V))
  : list (string * V) :=
  match m with
  | [] => [(k, v)]
  | (k', v') :: m' =>
      if String.eqb k k' then (k, v) :: m' else (k', v') :: set k v m'
  end.

Fixpoint delete (k : string) (m : list (string * V)) : list (string * V) :=
  match m with
  | [] => []
  | (k', v') :: m' => if String.eqb k k' then m' else (k', v') :: delete k m'
  end.

Definition values (m : list (string * V)) : list V := map snd m.

(** The value under [k], replaced in place by its image under [f]. *)
Definition alter (f : V -> V) (k : string) (m : list (string * V))
  : list (string * V) :=
  map (fun kv => if String.eqb k (fst kv) then (fst kv, f (snd kv)) else kv) m.

End Ops.
End JsMap.

(** ** Strings as the code uses them

    A string is a sequence of code units below 256. *)

Module JsString.

(** [!!s]: the empty string is the only falsy string. *)
Definition truthy (s : string) : bool :=
  match s with EmptyString => false | String _ _ => true end.

(** Truthiness of an optional property ([undefined] is falsy). *)
Definition truthy_opt (o : option string) : bool :=
  match o with Some s => truthy s | None => false end.

Definition lower_ascii (c : ascii) : ascii :=
  let n := N_of_ascii c in
  if ((65 <=? n) && (n <=? 90))%N then ascii_of_N (n + 32)
  else if ((192 <=? n) && (n <=? 222) && negb (n =? 215))%N
       then ascii_of_N (n + 32)
  else c.

Fixpoint toLowerCase (s : string) : string :=
  match s with
  | EmptyString => EmptyString
  | String c s' => String (lower_ascii c) (toLowerCase s')
  end.

(** White space and line terminators among the code units below 256. *)
Definition is_space (c : ascii) : bool :=
  let n := N_of_ascii c in
  (((9 <=? n) && (n <=? 13)) || (n =? 32) || (n =? 160))%N.

Fixpoint trimStart (s : string) : string :=
  match s with
  | EmptyString => EmptyString
  | String c s' => if is_space c then trimStart s' else s
  end.

Fixpoint trimEnd (s : string) : string :=
  match s with
  | EmptyString => EmptyString
  | String c s' =>
      match trimEnd s' with
      | EmptyString => if is_space c then EmptyString else String c EmptyString
      | t => String c t
      end
  end.

Definition trim (s : string) : string := trimEnd (trimStart s).

(** [hay.includes(needle)] *)
Fixpoint includes (needle hay : string) : bool :=
  if String.prefix needle hay then true
  else match hay with
       | EmptyString => false
       | String _ hay' => includes needle hay'
       end.

(** [parts.join(sep)] *)
Fixpoint join (sep : string) (parts : list string) : string :=
  match parts with
  | [] => EmptyString
  | [p] => p
  | p :: ps => p +:+ sep +:+ join sep ps
  end.

(** [arr.includes(s)] on an array of strings. *)
Definition array_includes (arr : list string) (s : string) : bool :=
  existsb (String.eqb s) arr.

(** [s.split(sep)] for a separator of one code unit: the pieces between the
    separators, of which there is always at least one. *)
Fixpoint split (sep : ascii) (s : string) : list string :=
  match s with
  | EmptyString => [EmptyString]
  | String c s' =>
      if Ascii.eqb c sep then EmptyString :: split sep s'
      else match split sep s' with
           | piece :: pieces => String c piece :: pieces
           | [] => [String c EmptyString]
           end
  end.

(** [s.startsWith(prefix)] *)
Definition startsWith (prefix s : string) : bool := String.prefix prefix s.

(** [s.substring(n)], for [n] a non-negative integer. *)
Fixpoint substring (n : nat) (s : string) : string :=
  match n, s with
  | O, _ => s
  | S n', String _ s' => substring n' s'
  | S _, EmptyString => EmptyString
  end.

End JsString.

(** ** Constants ([models/constants.ts]) *)

Definition SUPPORTED_IMAGE_FORMATS : list string :=
  ["image/jpeg"; "image/png"; "image/gif"].
Definition SUPPORTED_VIDEO_FORMATS : list string :=
  ["video/mp4"; "video/webm"].
Definition MAX_IMAGE_SIZE : Z := 10 * 1024 * 1024.
Definition MAX_VIDEO_SIZE : Z := 100 * 1024 * 1024.
Definition DEFAULT_VISIBILITY : Visibility := friends_only.

(** ** The store ([storage/InMemoryStorage.ts])

    The media files are left out: no operation below touches them. *)

Module InMemoryStorage.

Record t := mk
  { users : gmap string User.t;
    usersByEmail : gmap string string;
    usersByUsername : gmap string string;
    posts : list (string * Post.t);
    postsByAuthor : gmap string (gset string);
    sessions : gmap string Session.t;
    sessionsByToken : gmap string string;
    sessionsByUser : gmap string (gset string);
    friendRequests : list (string * FriendRequest.t);
    friendships : gmap string Friendship.t;
    friendsByUser : gmap string (gset string) }.

Definition empty : t := mk ∅ ∅ ∅ [] ∅ ∅ ∅ ∅ [] ∅ ∅.

(** *** Users *)

Definition createUser (user : User.t) (st : t) : t :=
  mk (<[User.id user := user]> (users st))
     (<[JsString.toLowerCase (User.email user) := User.id user]>
        (usersByEmail st))
     (<[JsString.toLowerCase (User.username user) := User.id user]>
        (usersByUsername st))
     (posts st) (postsByAuthor st)
     (sessions st) (sessionsByToken st) (sessionsByUser st)
     (friendRequests st) (friendships st) (friendsByUser st).

Definition getUserById (id : string) (st : t) : option User.t :=
  users st !! id.

Definition getUserByEmail (email : string) (st : t) : option User.t :=
  match usersByEmail st !! JsString.toLowerCase email with
  | Some userId => if JsString.truthy userId then users st !! userId else None
  | None => None
  end.

Definition getUserByUsername (username : string) (st : t) : option User.t :=
  match usersByUsername st !! JsString.toLowerCase username with
  | Some userId => if JsString.truthy userId then users st !! userId else None
  | None => None
  end.

(** *** Posts *)

Definition createPost (post : Post.t) (st : t) : t :=
  mk (users st) (usersByEmail st) (usersByUsername st)
     (JsMap.set (Post.id post) post (posts st))
     (<[Post.authorId post :=
          default ∅ (postsByAuthor st !! Post.authorId post)
          ∪ {[Post.id post]}]> (postsByAuthor st))
     (sessions st) (sessionsByToken st) (sessionsByUser st)
     (friendRequests st) (friendships st) (friendsByUser st).

Definition getPostById (id : string) (st : t) : option Post.t :=
  JsMap.get id (posts st).

Definition getAllPosts (st : t) : list Post.t := JsMap.values (posts st).

Definition updatePost (post : Post.t) (st : t) : t :=
  mk (users st) (usersByEmail st) (usersByUsername st)
     (JsMap.set (Post.id post) post (posts st)) (postsByAuthor st)
     (sessions st) (sessionsByToken st) (sessionsByUser st)
     (friendRequests st) (friendships st) (friendsByUser st).

Definition deletePost (id : string) (st : t) : bool * t :=
  match JsMap.get id (posts st) with
  | None => (false, st)
  | Some post =>
      (true,
       mk (users st) (usersByEmail st) (usersByUsername st)
          (JsMap.delete id (posts st))
          (base.alter (fun s : gset string => s ∖ {[id]}) (Post.authorId post)
             (postsByAuthor st))
          (sessions st) (sessionsByToken st) (sessionsByUser st)
          (friendRequests st) (friendships st) (friendsByUser st))
  end.

(** *** Sessions *)

Definition createSession (session : Session.t) (st : t) : t :=
  mk (users st) (usersByEmail st) (usersByUsername st)
     (posts st) (postsByAuthor st)
     (<[Session.id session := session]> (sessions st))
     (<[Session.token session := Session.id session]> (sessionsByToken st))
     (<[Session.userId session :=
          default ∅ (sessionsByUser st !! Session.userId session)
          ∪ {[Session.id session]}]> (sessionsByUser st))
     (friendRequests st) (friendships st) (friendsByUser st).

Definition getSessionById (id : string) (st : t) : option Session.t :=
  sessions st !! id.

Definition getSessionByToken (token : string) (st : t) : option Session.t :=
  match sessionsByToken st !! token with
  | Some sessionId =>
      if JsString.truthy sessionId then sessions st !! sessionId else None
  | None => None
  end.

Definition deleteSession (id : string) (st : t) : bool * t :=
  match sessions st !! id with
  | None => (false, st)
  | Some session =>
      (true,
       mk (users st) (usersByEmail st) (usersByUsername st)
          (posts st) (postsByAuthor st)
          (delete id (sessions st))
          (delete (Session.token session) (sessionsByToken st))
          (base.alter (fun s : gset string => s ∖ {[id]})
             (Session.userId session) (sessionsByUser st))
          (friendRequests st) (friendships st) (friendsByUser st))
  end.

(** *** Friend requests *)

Definition with_friendRequests (frs : list (string * FriendRequest.t))
  (st : t) : t :=
  mk (users st) (usersByEmail st) (usersByUsername st)
     (posts st) (postsByAuthor st)
     (sessions st) (sessionsByToken st) (sessionsByUser st)
     frs (friendships st) (friendsByUser st).

Definition createFriendRequest (request : FriendRequest.t) (st : t) : t :=
  with_friendRequests
    (JsMap.set (FriendRequest.id request) request (friendRequests st)) st.

Definition getFriendRequestById (id : string) (st : t)
  : option FriendRequest.t :=
  JsMap.get id (friendRequests st).

Definition getFriendRequestBetweenUsers (fromUserId toUserId : string)
  (st : t) : option FriendRequest.t :=
  List.find
    (fun req =>
       String.eqb (FriendRequest.fromUserId req) fromUserId
       && String.eqb (FriendRequest.toUserId req) toUserId
       && bool_decide (FriendRequest.status req = pending))
    (JsMap.values (friendRequests st)).

Definition getPendingFriendRequestsForUser (userId : string) (st : t)
  : list FriendRequest.t :=
  List.filter
    (fun req =>
       String.eqb (FriendRequest.toUserId req) userId
       && bool_decide (FriendRequest.status req = pending))
    (JsMap.values (friendRequests st)).

Definition updateFriendRequest (request : FriendRequest.t) (st : t) : t :=
  with_friendRequests
    (JsMap.set (FriendRequest.id request) request (friendRequests st)) st.

(** An assignment to a property of the request object obtained from
    [getFriendRequestById id]: the map holds that very object, so the
    assignment is visible in the store at once. *)
Definition assignFriendRequest (id : string)
  (f : FriendRequest.t -> FriendRequest.t) (st : t) : t :=
  with_friendRequests (JsMap.alter f id (friendRequests st)) st.

(** *** Friendships *)

Definition friendshipKey (userId friendId : string) : string :=
  userId +:+ ":" +:+ friendId.

Definition createFriendship (friendship : Friendship.t) (st : t) : t :=
  let userId := Friendship.userId friendship in
  let friendId := Friendship.friendId friendship in
  mk (users st) (usersByEmail st) (usersByUsername st)
     (posts st) (postsByAuthor st)
     (sessions st) (sessionsByToken st) (sessionsByUser st)
     (friendRequests st)
     (<[friendshipKey userId friendId := friendship]> (friendships st))
     (<[userId := default ∅ (friendsByUser st !! userId) ∪ {[friendId]}]>
        (friendsByUser st)).

Definition getFriendship (userId friendId : string) (st : t)
  : option Friendship.t :=
  friendships st !! friendshipKey userId friendId.

Definition areFriends (userId1 userId2 : string) (st : t) : bool :=
  match friendsByUser st !! userId1 with
  | Some friends => bool_decide (userId2 ∈ friends)
  | None => false
  end.

Definition deleteFriendship (userId friendId : string) (st : t) : bool * t :=
  let key := friendshipKey userId friendId in
  (bool_decide (is_Some (friendships st !! key)),
   mk (users st) (usersByEmail st) (usersByUsername st)
      (posts st) (postsByAuthor st)
      (sessions st) (sessionsByToken st) (sessionsByUser st)
      (friendRequests st)
      (delete key (friendships st))
      (base.alter (fun s : gset string => s ∖ {[friendId]}) userId
         (friendsByUser st))).

End InMemoryStorage.

(** ** The monad of service methods

    A method runs against the store; it returns a value or throws, and in
    both cases leaves the store as its last write made it. *)

Definition M (A : Type) : Type :=
  InMemoryStorage.t -> (Error.t + A) * InMemoryStorage.t.

#[global] Instance M_ret : MRet M := fun A a st => (inr a, st).

#[global] Instance M_bind : MBind M := fun A B f m st =>
  match m st with
  | (inl e, st') => (inl e, st')
  | (inr a, st') => f a st'
  end.

Definition throw {A : Type} (e : Error.t) : M A := fun st => (inl e, st).

(** A read of the store. *)
Definition gets {A : Type} (f : InMemoryStorage.t -> A) : M A :=
  fun st => (inr (f st), st).

(** A write to the store whose result the caller drops. *)
Definition modify (f : InMemoryStorage.t -> InMemoryStorage.t) : M unit :=
  fun st => (inr tt, f st).

(** A write to the store that also returns a value. *)
Definition call {A : Type} (f : InMemoryStorage.t -> A * InMemoryStorage.t)
  : M A :=
  fun st => let (a, st') := f st in (inr a, st').

(** [if (cond) throw e;] *)
Definition throw_if (cond : bool) (e : Error.t) : M unit :=
  if cond then throw e else mret tt.

Definition is_some {A : Type} (o : option A) : bool :=
  match o with Some _ => true | None => false end.

(** ** Friend service ([services/FriendService.ts]) *)

Module FriendService.

Definition sendFriendRequest (uuid : string) (now : Date)
  (fromUserId toUserId : string) : M FriendRequest.t :=
  throw_if (String.eqb fromUserId toUserId) Error.SelfFriendRequestError;;
  fromUser ← gets (InMemoryStorage.getUserById fromUserId);
  throw_if (negb (is_some fromUser)) Error.UserNotFoundError;;
  toUser ← gets (InMemoryStorage.getUserById toUserId);
  throw_if (negb (is_some toUser)) Error.UserNotFoundError;;
  friends ← gets (InMemoryStorage.areFriends fromUserId toUserId);
  throw_if friends Error.DuplicateFriendRequestError;;
  existingRequest ←
    gets (InMemoryStorage.getFriendRequestBetweenUsers fromUserId toUserId);
  throw_if (is_some existingRequest) Error.DuplicateFriendRequestError;;
  reverseRequest ←
    gets (InMemoryStorage.getFriendRequestBetweenUsers toUserId fromUserId);
  throw_if (is_some reverseRequest) Error.DuplicateFriendRequestError;;
  let friendRequest :=
    FriendRequest.mk uuid fromUserId toUserId pending now in
  modify (InMemoryStorage.createFriendRequest friendRequest);;
  mret friendRequest.

Definition acceptFriendRequest (now : Date) (requestId userId : string)
  : M unit :=
  found ← gets (InMemoryStorage.getFriendRequestById requestId);
  match found with
  | None => throw Error.FriendRequestNotFoundError
  | Some request =>
      throw_if (negb (String.eqb (FriendRequest.toUserId request) userId))
        (Error.ForbiddenError
           "Only the recipient can accept a friend request");;
      throw_if (negb (bool_decide (FriendRequest.status request = pending)))
        Error.FriendRequestNotFoundError;;
      modify (InMemoryStorage.assignFriendRequest requestId
                (FriendRequest.with_status accepted));;
      let request := FriendRequest.with_status accepted request in
      modify (InMemoryStorage.updateFriendRequest request);;
      let friendship1 :=
        Friendship.mk (FriendRequest.fromUserId request)
          (FriendRequest.toUserId request) now in
      let friendship2 :=
        Friendship.mk (FriendRequest.toUserId request)
          (FriendRequest.fromUserId request) now in
      modify (InMemoryStorage.createFriendship friendship1);;
      modify (InMemoryStorage.createFriendship friendship2)
  end.

Definition declineFriendRequest (requestId userId : string) : M unit :=
  found ← gets (InMemoryStorage.getFriendRequestById requestId);
  match found with
  | None => throw Error.FriendRequestNotFoundError
  | Some request =>
      throw_if (negb (String.eqb (FriendRequest.toUserId request) userId))
        (Error.ForbiddenError
           "Only the recipient can decline a friend request");;
      throw_if (negb (bool_decide (FriendRequest.status request = pending)))
        Error.FriendRequestNotFoundError;;
      modify (InMemoryStorage.assignFriendRequest requestId
                (FriendRequest.with_status declined));;
      let request := FriendRequest.with_status declined request in
      modify (InMemoryStorage.updateFriendRequest request)
  end.

Definition removeFriend (userId friendId : string) : M unit :=
  friends ← gets (InMemoryStorage.areFriends userId friendId);
  throw_if (negb friends) Error.NotFriendsError;;
  _ ← call (InMemoryStorage.deleteFriendship userId friendId);
  _ ← call (InMemoryStorage.deleteFriendship friendId userId);
  mret tt.

Definition areFriends (userId1 userId2 : string) : M bool :=
  gets (InMemoryStorage.areFriends userId1 userId2).

End FriendService.

(** ** Post service ([services/PostService.ts]) *)

Module PostService.

Module ValidationResult.
Record t := mk { valid : bool; errors : list string }.
End ValidationResult.

(** [errors.push(message)] *)
Definition push (errors : list string) (message : string) : list string :=
  app errors [message].

Definition validateImageContent (content : PostContent.t)
  (errors : list string) : list string :=
  if negb (JsString.truthy_opt (PostContent.mediaUrl content))
     && negb (JsString.truthy_opt (PostContent.mimeType content))
  then push errors "Image content cannot be empty"
  else
    let errors :=
      match PostContent.mimeType content with
      | Some mimeType =>
          if JsString.truthy mimeType
             && negb (JsString.array_includes SUPPORTED_IMAGE_FORMATS mimeType)
          then push errors
                 "Unsupported image format. Supported formats: JPEG, PNG, GIF"
          else errors
      | None => errors
      end in
    match PostContent.fileSize content with
    | Some fileSize =>
        if fileSize >? MAX_IMAGE_SIZE
        then push errors "Image file exceeds maximum size of 10MB"
        else errors
    | None => errors
    end.

Definition validateVideoContent (content : PostContent.t)
  (errors : list string) : list string :=
  if negb (JsString.truthy_opt (PostContent.mediaUrl content))
     && negb (JsString.truthy_opt (PostContent.mimeType content))
  then push errors "Video content cannot be empty"
  else
    let errors :=
      match PostContent.mimeType content with
      | Some mimeType =>
          if JsString.truthy mimeType
             && negb (JsString.array_includes SUPPORTED_VIDEO_FORMATS mimeType)
          then push errors
                 "Unsupported video format. Supported formats: MP4, WebM"
          else errors
      | None => errors
      end in
    match PostContent.fileSize content with
    | Some fileSize =>
        if fileSize >? MAX_VIDEO_SIZE
        then push errors "Video file exceeds maximum size of 100MB"
        else errors
    | None => errors
    end.

(** What reaches [validateContent] as [content] at run time: [null] or
    [undefined], an object whose [type] is one of the three content types,
    or an object whose [type] is anything else, of which the [default]
    branch of the [switch] reads nothing further. *)
Module ContentArg.
Inductive t :=
| Nullish
| Object (content : PostContent.t)
| OtherType.
End ContentArg.

Definition validateContent (content : ContentArg.t) : ValidationResult.t :=
  match content with
  | ContentArg.Nullish =>
      ValidationResult.mk false ["Content cannot be empty"]
  | ContentArg.Object content =>
      let errors :=
        match PostContent.type content with
        | text =>
            match PostContent.text content with
            | Some t =>
                if negb (JsString.truthy t)
                   || (String.length (JsString.trim t) =? 0)%nat
                then ["Text content cannot be empty"]
                else []
            | None => ["Text content cannot be empty"]
            end
        | image => validateImageContent content []
        | video => validateVideoContent content []
        end in
      ValidationResult.mk (Nat.eqb (List.length errors) 0) errors
  | ContentArg.OtherType =>
      let errors := ["Invalid content type"] in
      ValidationResult.mk (Nat.eqb (List.length errors) 0) errors
  end.

(** The error thrown for a failed validation; [createPost] and [updatePost]
    carry the same block. *)
Definition validationFailure (errors : list string) : Error.t :=
  let errorMessage := JsString.join "; " errors in
  if JsString.includes "cannot be empty" errorMessage
  then Error.EmptyContentError
  else if JsString.includes "Unsupported" errorMessage
  then Error.InvalidFormatError errorMessage
  else if JsString.includes "exceeds maximum size" errorMessage
  then Error.FileTooLargeError errorMessage
  else Error.EmptyContentError.

Definition canViewPost (post : Post.t) (viewerId : option string)
  (storageInstance : InMemoryStorage.t) : bool :=
  if bool_decide (Post.visibility post = public) then true
  else match viewerId with
       | None => false
       | Some viewerId =>
           if String.eqb (Post.authorId post) viewerId then true
           else InMemoryStorage.areFriends (Post.authorId post) viewerId
                  storageInstance
       end.

Definition getPost (postId : string) (requesterId : option string)
  : M (option Post.t) :=
  found ← gets (InMemoryStorage.getPostById postId);
  match found with
  | None => mret None
  | Some post =>
      visible ← gets (canViewPost post requesterId);
      throw_if (negb visible) Error.AccessDeniedError;;
      mret (Some post)
  end.

(** [!userId] for a [string | null | undefined]. *)
Definition authenticated (userId : option string) : option string :=
  match userId with
  | Some u => if JsString.truthy u then Some u else None
  | None => None
  end.

(** [content] is an object of the declared type [PostContentWithFile], here
    and in [updatePost]. *)
Definition createPost (postId : string) (now : Date)
  (userId : option string) (content : PostContent.t)
  (visibility : option Visibility) : M Post.t :=
  match authenticated userId with
  | None => throw Error.UnauthorizedError
  | Some userId =>
      let validationResult :=
        validateContent (ContentArg.Object content) in
      throw_if (negb (ValidationResult.valid validationResult))
        (validationFailure (ValidationResult.errors validationResult));;
      let postVisibility := default DEFAULT_VISIBILITY visibility in
      let post := Post.mk postId userId content postVisibility now now false in
      modify (InMemoryStorage.createPost post);;
      mret post
  end.

Definition updatePost (now : Date) (postId : string)
  (userId : option string) (updates : PostUpdate.t) : M Post.t :=
  match authenticated userId with
  | None => throw Error.UnauthorizedError
  | Some userId =>
      found ← gets (InMemoryStorage.getPostById postId);
      match found with
      | None => throw Error.PostNotFoundError
      | Some existingPost =>
          throw_if (negb (String.eqb (Post.authorId existingPost) userId))
            Error.AccessDeniedError;;
          match PostUpdate.content updates with
          | Some content =>
              let validationResult :=
                validateContent (ContentArg.Object content) in
              throw_if (negb (ValidationResult.valid validationResult))
                (validationFailure (ValidationResult.errors validationResult))
          | None => mret tt
          end;;
          let updatedPost :=
            Post.mk (Post.id existingPost) (Post.authorId existingPost)
              (default (Post.content existingPost) (PostUpdate.content updates))
              (default (Post.visibility existingPost)
                 (PostUpdate.visibility updates))
              (Post.createdAt existingPost)
              now
              true in
          modify (InMemoryStorage.updatePost updatedPost);;
          mret updatedPost
      end
  end.

Definition deletePost (postId : string) (userId : option string) : M unit :=
  match authenticated userId with
  | None => throw Error.UnauthorizedError
  | Some userId =>
      found ← gets (InMemoryStorage.getPostById postId);
      match found with
      | None => throw Error.PostNotFoundError
      | Some existingPost =>
          throw_if (negb (String.eqb (Post.authorId existingPost) userId))
            Error.AccessDeniedError;;
          _ ← call (InMemoryStorage.deletePost postId);
          mret tt
      end
  end.

End PostService.

(** ** Arrays

    [Array.prototype.sort] is stable: among the elements that the comparator
    ranks equal the original order is kept. With a consistent comparator that
    fixes the result, which insertion from the right computes; with a
    comparator that is not consistent the result is a permutation of the
    array in an implementation-defined order. *)

Module JsArray.
Section Ops.
Context {A : Type}.

(** [x] goes before the first element it does not rank after. *)
Fixpoint insert (cmp : A -> A -> Z) (x : A) (l : list A) : list A :=
  match l with
  | [] => [x]
  | y :: l' => if cmp x y <=? 0 then x :: l else y :: insert cmp x l'
  end.

Fixpoint sort (cmp : A -> A -> Z) (l : list A) : list A :=
  match l with
  | [] => []
  | x :: l' => insert cmp x (sort cmp l')
  end.

(** [l.slice(start, end)] for integer arguments: a negative index counts
    from the end, and both indices are clamped to the array. *)
Definition slice (l : list A) (start end_ : Z) : list A :=
  let len := Z.of_nat (List.length l) in
  let k := if start <? 0 then Z.max (len + start) 0 else Z.min start len in
  let final := if end_ <? 0 then Z.max (len + end_) 0 else Z.min end_ len in
  firstn (Z.to_nat (final - k)) (skipn (Z.to_nat k) l).

End Ops.
End JsArray.

(** ** Buffers of the [crypto] calls

    [fromHex] is [Buffer.from(s, 'hex')]: the bytes of the pairs of
    hexadecimal digits of [s], up to the first pair that is not one.
    [timingSafeEqual] throws a [RangeError] on buffers of different
    lengths. *)

Module JsBuffer.

Definition hexNibble (c : ascii) : option N :=
  let n := N_of_ascii c in
  if ((48 <=? n) && (n <=? 57))%N then Some (n - 48)%N
  else if ((97 <=? n) && (n <=? 102))%N then Some (n - 87)%N
  else if ((65 <=? n) && (n <=? 70))%N then Some (n - 55)%N
  else None.

Fixpoint fromHex (s : string) : list N :=
  match s with
  | String a (String b rest) =>
      match hexNibble a, hexNibble b with
      | Some high, Some low => (16 * high + low)%N :: fromHex rest
      | _, _ => []
      end
  | _ => []
  end.

Definition timingSafeEqual (a b : list N) : Error.t + bool :=
  if Nat.eqb (List.length a) (List.length b)
  then inr (bool_decide (a = b))
  else inl (Error.NativeError "RangeError").

End JsBuffer.

(** ** Authentication service ([services/AuthenticationService.ts])

    The key derivation of the [crypto] module is a parameter: [pbkdf2 password
    salt] stands for the hex string of
    [pbkdf2Sync(password, salt, 100000, 64, 'sha512')]. *)

Module AuthenticationService.
Section WithCrypto.
Variable pbkdf2 : string -> string -> string.

(** [salt] is the hex string of the 32 random bytes drawn by the call. *)
Definition hashPassword (salt : string) (password : string) : string :=
  let hash := pbkdf2 password salt in
  salt +:+ ":" +:+ hash.

Definition register (uuid salt : string) (now : Date)
  (email username password : string) : M User.t :=
  throw_if (negb (JsString.truthy email)
            || negb (JsString.truthy username)
            || negb (JsString.truthy password))
    (Error.PlainError "Email, username, and password are required");;
  existingByEmail ← gets (InMemoryStorage.getUserByEmail email);
  throw_if (is_some existingByEmail) Error.DuplicateEmailError;;
  existingByUsername ← gets (InMemoryStorage.getUserByUsername username);
  throw_if (is_some existingByUsername) Error.DuplicateUsernameError;;
  let passwordHash := hashPassword salt password in
  let user :=
    User.mk uuid (JsString.trim (JsString.toLowerCase email))
      (JsString.trim username) passwordHash now in
  modify (InMemoryStorage.createUser user);;
  mret user.

(** [[salt, hash] = storedHash.split(':')] takes the first two pieces; a
    missing piece is [undefined]. *)
Definition verifyPassword (password storedHash : string) : Error.t + bool :=
  match JsString.split ":" storedHash with
  | salt :: hash :: _ =>
      if negb (JsString.truthy salt) || negb (JsString.truthy hash)
      then inr false
      else
        let verifyHash := pbkdf2 password salt in
        JsBuffer.timingSafeEqual (JsBuffer.fromHex hash)
          (JsBuffer.fromHex verifyHash)
  | _ => inr false
  end.

Definition SESSION_DURATION_MS : Z := 24 * 60 * 60 * 1000.

(** [uuid] and [token] are the session id and the session token that the
    call draws, [now] is its reading of the clock. *)
Definition login (uuid token : string) (now : Date)
  (email password : string) : M Session.t :=
  found ← gets (InMemoryStorage.getUserByEmail email);
  match found with
  | None => throw Error.InvalidCredentialsError
  | Some user =>
      match verifyPassword password (User.passwordHash user) with
      | inl e => throw e
      | inr verified =>
          throw_if (negb verified) Error.InvalidCredentialsError;;
          let session :=
            Session.mk uuid (User.id user) token (now + SESSION_DURATION_MS) in
          modify (InMemoryStorage.createSession session);;
          mret session
      end
  end.

End WithCrypto.

Definition logout (sessionId : string) : M unit :=
  deleted ← call (InMemoryStorage.deleteSession sessionId);
  throw_if (negb deleted) Error.InvalidSessionError.

(** [now] is the value of [new Date()] in the expiry test. *)
Definition validateSession (now : Date) (sessionId : string)
  : M (option User.t) :=
  found ← gets (InMemoryStorage.getSessionById sessionId);
  match found with
  | None => mret None
  | Some session =>
      if now >? Session.expiresAt session
      then _ ← call (InMemoryStorage.deleteSession sessionId); mret None
      else
        user ← gets (InMemoryStorage.getUserById (Session.userId session));
        mret user
  end.

Definition validateSessionByToken (now : Date) (token : string)
  : M (option User.t) :=
  found ← gets (InMemoryStorage.getSessionByToken token);
  match found with
  | None => mret None
  | Some session =>
      if now >? Session.expiresAt session
      then
        _ ← call (InMemoryStorage.deleteSession (Session.id session));
        mret None
      else
        user ← gets (InMemoryStorage.getUserById (Session.userId session));
        mret user
  end.

End AuthenticationService.

(** ** Dates and their ISO 8601 text

    [toISOString] is [Date.prototype.toISOString] ([None] for the
    [RangeError] of an invalid date: a time value beyond 8.64e15 ms from the
    epoch). [parse] is [Date.parse] on the format that [toISOString] writes,
    [YYYY-MM-DDTHH:mm:ss.sssZ] with a four-digit year or a signed six-digit
    one; [None] stands for [NaN]. The further formats that an engine accepts
    are not modelled. The calendar arithmetic is the usual conversion between
    day numbers and dates of the proleptic Gregorian calendar, by 400-year
    eras that start on a 1st of March. *)

Module JsDate.

Definition maxTime : Z := 8640000000000000.
Definition msPerDay : Z := 86400000.

Definition isValid (t : Z) : bool := (- maxTime <=? t) && (t <=? maxTime).

(** [d.getTime()]: the time value, [None] for the [NaN] of an invalid
    date. *)
Definition getTime (t : Z) : option Z := if isValid t then Some t else None.

Definition isLeapYear (y : Z) : bool :=
  ((y mod 4 =? 0) && negb (y mod 100 =? 0)) || (y mod 400 =? 0).

Definition daysInMonth (y m : Z) : Z :=
  if m =? 2 then (if isLeapYear y then 29 else 28)
  else if (m =? 4) || (m =? 6) || (m =? 9) || (m =? 11) then 30
  else 31.

Definition daysFromCivil (y m d : Z) : Z :=
  let y := if m <=? 2 then y - 1 else y in
  let era := y / 400 in
  let yoe := y - era * 400 in
  let mp := if m >? 2 then m - 3 else m + 9 in
  let doy := (153 * mp + 2) / 5 + d - 1 in
  let doe := yoe * 365 + yoe / 4 - yoe / 100 + doy in
  era * 146097 + doe - 719468.

Definition civilFromDays (z : Z) : Z * Z * Z :=
  let z := z + 719468 in
  let era := z / 146097 in
  let doe := z - era * 146097 in
  let yoe := (doe - doe / 1460 + doe / 36524 - doe / 146096) / 365 in
  let doy := doe - (365 * yoe + yoe / 4 - yoe / 100) in
  let mp := (5 * doy + 2) / 153 in
  let d := doy - (153 * mp + 2) / 5 + 1 in
  let m := if mp <? 10 then mp + 3 else mp - 9 in
  let y := yoe + era * 400 in
  (if m <=? 2 then y + 1 else y, m, d).

Definition digit (n : Z) : ascii := ascii_of_N (48 + Z.to_N n).

Definition digitValue (c : ascii) : option Z :=
  let n := N_of_ascii c in
  if ((48 <=? n) && (n <=? 57))%N then Some (Z.of_N n - 48) else None.

(** The [k] decimal digits of [v], for [0 <= v < 10 ^ k]. *)
Fixpoint pad (k : nat) (v : Z) : string :=
  match k with
  | O => EmptyString
  | S k' =>
      String (digit (v / 10 ^ Z.of_nat k')) (pad k' (v mod 10 ^ Z.of_nat k'))
  end.

(** Reads exactly [k] decimal digits. *)
Fixpoint readDigits (k : nat) (acc : Z) (s : string) : option (Z * string) :=
  match k with
  | O => Some (acc, s)
  | S k' =>
      match s with
      | EmptyString => None
      | String c s' =>
          match digitValue c with
          | Some d => readDigits k' (10 * acc + d) s'
          | None => None
          end
      end
  end.

Definition expect (c : ascii) (s : string) : option string :=
  match s with
  | String c' s' => if Ascii.eqb c c' then Some s' else None
  | EmptyString => None
  end.

Definition toISOString (t : Z) : option string :=
  if isValid t then
    let days := t / msPerDay in
    let ms := t mod msPerDay in
    let '(y, m, d) := civilFromDays days in
    let year :=
      if (0 <=? y) && (y <=? 9999) then pad 4 y
      else if y <? 0 then String "-" (pad 6 (- y))
      else String "+" (pad 6 y) in
    Some (year +:+ "-" +:+ pad 2 m +:+ "-" +:+ pad 2 d
          +:+ "T" +:+ pad 2 (ms / 3600000)
          +:+ ":" +:+ pad 2 (ms / 60000 mod 60)
          +:+ ":" +:+ pad 2 (ms / 1000 mod 60)
          +:+ "." +:+ pad 3 (ms mod 1000) +:+ "Z")
  else None.

Definition readYear (s : string) : option (Z * string) :=
  match s with
  | String "+" s' => readDigits 6 0 s'
  | String "-" s' =>
      '(y, rest) ← readDigits 6 0 s';
      if y =? 0 then None else Some (- y, rest)
  | _ => readDigits 4 0 s
  end.

Definition parse (s : string) : option Z :=
  '(y, s) ← readYear s;
  s ← expect "-" s;
  '(m, s) ← readDigits 2 0 s;
  s ← expect "-" s;
  '(d, s) ← readDigits 2 0 s;
  s ← expect "T" s;
  '(h, s) ← readDigits 2 0 s;
  s ← expect ":" s;
  '(mi, s) ← readDigits 2 0 s;
  s ← expect ":" s;
  '(sec, s) ← readDigits 2 0 s;
  s ← expect "." s;
  '(ms, s) ← readDigits 3 0 s;
  s ← expect "Z" s;
  if negb (String.eqb s "") then None
  else if negb ((1 <=? m) && (m <=? 12) && (1 <=? d) && (d <=? daysInMonth y m)
                && (h <=? 23) && (mi <=? 59) && (sec <=? 59)) then None
  else
    let t := daysFromCivil y m d * msPerDay
             + h * 3600000 + mi * 60000 + sec * 1000 + ms in
    if isValid t then Some t else None.

End JsDate.

(** ** Feed service ([services/FeedService.ts])

    [getFeed] neither throws nor writes: it is a function of the store.
    When a stored creation date is invalid the comparator is not a
    consistent one, and the order in which [sort] then leaves the posts is
    implementation-defined: the properties of the order are stated for
    stores whose dates are valid. *)

Module FeedService.

(** [b.createdAt.getTime() - a.createdAt.getTime()]. The difference is
    [NaN] when either date is invalid, and [sort] takes a comparator's [NaN]
    for [+0]. *)
Definition byCreatedAtDesc (a b : Post.t) : Z :=
  match JsDate.getTime (Post.createdAt b), JsDate.getTime (Post.createdAt a)
  with
  | Some tb, Some ta => tb - ta
  | _, _ => 0
  end.

Definition getFeed (userId : option string) (pagination : Pagination.t)
  (storageInstance : InMemoryStorage.t) : FeedResult.t :=
  let allPosts := InMemoryStorage.getAllPosts storageInstance in
  let visiblePosts :=
    List.filter
      (fun post => PostService.canViewPost post userId storageInstance)
      allPosts in
  let sortedPosts := JsArray.sort byCreatedAtDesc visiblePosts in
  let total := Z.of_nat (List.length sortedPosts) in
  let limit := Pagination.limit pagination in
  let offset := Pagination.offset pagination in
  let paginatedPosts := JsArray.slice sortedPosts offset (offset + limit) in
  let hasMore := offset + Z.of_nat (List.length paginatedPosts) <? total in
  FeedResult.mk paginatedPosts hasMore total.

End FeedService.

(** ** JSON text

    [stringify] is [JSON.stringify] on values built from [null], booleans,
    strings, arrays and objects, and [parse] is [JSON.parse] on the compact
    text that [stringify] writes. Number literals and white space between
    tokens are not modelled: [parse] answers on them as on malformed text. *)

Module Json.

Inductive t :=
| Null
| Bool (b : bool)
| Str (s : string)
| Arr (items : list t)
| Obj (fields : list (string * t)).

Definition quoteChar : ascii := "034".
Definition backslash : ascii := "\".

Definition hexDigit (n : N) : ascii :=
  if (n <? 10)%N then ascii_of_N (48 + n) else ascii_of_N (87 + n).

Definition hexValue (c : ascii) : option N :=
  let n := N_of_ascii c in
  if ((48 <=? n) && (n <=? 57))%N then Some (n - 48)%N
  else if ((97 <=? n) && (n <=? 102))%N then Some (n - 87)%N
  else if ((65 <=? n) && (n <=? 70))%N then Some (n - 55)%N
  else None.

(** The escape sequence of a code unit inside a string literal. *)
Definition escapeChar (c : ascii) : string :=
  let n := N_of_ascii c in
  if (n =? 34)%N then String backslash (String quoteChar "")
  else if (n =? 92)%N then String backslash (String backslash "")
  else if (n =? 8)%N then String backslash "b"
  else if (n =? 12)%N then String backslash "f"
  else if (n =? 10)%N then String backslash "n"
  else if (n =? 13)%N then String backslash "r"
  else if (n =? 9)%N then String backslash "t"
  else if (n <? 32)%N then
    String backslash
      (String "u" (String "0" (String "0"
         (String (hexDigit (n / 16)) (String (hexDigit (n mod 16)) "")))))
  else String c "".

Fixpoint escape (s : string) : string :=
  match s with
  | EmptyString => EmptyString
  | String c s' => escapeChar c +:+ escape s'
  end.

Definition quote (s : string) : string :=
  String quoteChar (escape s +:+ String quoteChar "").

Section Join.
Context {A : Type} (f : A -> string).

(** The texts of the elements, separated by commas. *)
Fixpoint joinMap (l : list A) : string :=
  match l with
  | [] => EmptyString
  | x :: l' =>
      match l' with
      | [] => f x
      | _ :: _ => f x +:+ "," +:+ joinMap l'
      end
  end.

End Join.

Fixpoint stringify (v : t) : string :=
  match v with
  | Null => "null"
  | Bool true => "true"
  | Bool false => "false"
  | Str s => quote s
  | Arr items => "[" +:+ joinMap stringify items +:+ "]"
  | Obj fields =>
      "{" +:+ joinMap (fun kv => quote (fst kv) +:+ ":" +:+ stringify (snd kv))
                fields +:+ "}"
  end.

(** [literal lit s] strips the prefix [lit] from [s]. *)
Fixpoint literal (lit s : string) : option string :=
  match lit with
  | EmptyString => Some s
  | String c lit' =>
      match s with
      | String c' s' => if Ascii.eqb c c' then literal lit' s' else None
      | EmptyString => None
      end
  end.

Definition unescape (c : ascii) : option ascii :=
  if Ascii.eqb c quoteChar then Some quoteChar
  else if Ascii.eqb c backslash then Some backslash
  else if Ascii.eqb c "/" then Some "/"%char
  else if Ascii.eqb c "b" then Some "008"%char
  else if Ascii.eqb c "f" then Some "012"%char
  else if Ascii.eqb c "n" then Some "010"%char
  else if Ascii.eqb c "r" then Some "013"%char
  else if Ascii.eqb c "t" then Some "009"%char
  else None.

Definition hex4 (a b c d : ascii) : option N :=
  a ← hexValue a; b ← hexValue b; c ← hexValue c; d ← hexValue d;
  Some (((a * 16 + b) * 16 + c) * 16 + d)%N.

(** The rest of a string literal, after its opening quote. *)
Fixpoint parseString (s : string) : option (string * string) :=
  match s with
  | EmptyString => None
  | String c s' =>
      if Ascii.eqb c quoteChar then Some (EmptyString, s')
      else if Ascii.eqb c backslash then
        match s' with
        | EmptyString => None
        | String e s'' =>
            if Ascii.eqb e "u" then
              match s'' with
              | String h1 (String h2 (String h3 (String h4 rest))) =>
                  code ← hex4 h1 h2 h3 h4;
                  if (code <? 256)%N then
                    '(str, rest') ← parseString rest;
                    Some (String (ascii_of_N code) str, rest')
                  else None
              | _ => None
              end
            else
              ch ← unescape e;
              '(str, rest') ← parseString s'';
              Some (String ch str, rest')
        end
      else if (N_of_ascii c <? 32)%N then None
      else
        '(str, rest') ← parseString s';
        Some (String c str, rest')
  end.

Fixpoint parseValue (fuel : nat) (s : string) : option (t * string) :=
  match fuel with
  | O => None
  | S fuel =>
      match s with
      | EmptyString => None
      | String c rest =>
          if Ascii.eqb c "n" then
            rest ← literal "ull" rest; Some (Null, rest)
          else if Ascii.eqb c "t" then
            rest ← literal "rue" rest; Some (Bool true, rest)
          else if Ascii.eqb c "f" then
            rest ← literal "alse" rest; Some (Bool false, rest)
          else if Ascii.eqb c quoteChar then
            '(str, rest) ← parseString rest; Some (Str str, rest)
          else if Ascii.eqb c "[" then
            match literal "]" rest with
            | Some rest => Some (Arr [], rest)
            | None =>
                '(items, rest) ← parseElements fuel rest;
                Some (Arr items, rest)
            end
          else if Ascii.eqb c "{" then
            match literal "}" rest with
            | Some rest => Some (Obj [], rest)
            | None =>
                '(fields, rest) ← parseFields fuel rest;
                Some (Obj fields, rest)
            end
          else None
      end
  end
with parseElements (fuel : nat) (s : string) : option (list t * string) :=
  match fuel with
  | O => None
  | S fuel =>
      '(v, rest) ← parseValue fuel s;
      match rest with
      | EmptyString => None
      | String c rest =>
          if Ascii.eqb c "," then
            '(vs, rest) ← parseElements fuel rest; Some (v :: vs, rest)
          else if Ascii.eqb c "]" then Some ([v], rest)
          else None
      end
  end
with parseFields (fuel : nat) (s : string)
  : option (list (string * t) * string) :=
  match fuel with
  | O => None
  | S fuel =>
      s ← literal (String quoteChar "") s;
      '(k, s) ← parseString s;
      s ← literal ":" s;
      '(v, rest) ← parseValue fuel s;
      match rest with
      | EmptyString => None
      | String c rest =>
          if Ascii.eqb c "," then
            '(fs, rest) ← parseFields fuel rest; Some ((k, v) :: fs, rest)
          else if Ascii.eqb c "}" then Some ([(k, v)], rest)
          else None
      end
  end.

(** [None] stands for the [SyntaxError] of [JSON.parse]. *)
Definition parse (s : string) : option t :=
  match parseValue (String.length s) s with
  | Some (v, EmptyString) => Some v
  | _ => None
  end.

End Json.

(** ** Serialization service ([services/SerializationService.ts]) *)

Module Outcome.
(** What a call does: it returns a value of the declared type, it throws, or
    it returns an object that the declared type does not describe. *)
Inductive t (A : Type) :=
| Returns (a : A)
| Throws (e : Error.t)
| Untyped.
Arguments Returns {A} a.
Arguments Throws {A} e.
Arguments Untyped {A}.
End Outcome.

Module SerializationService.
Import Outcome.

Definition contentTypeName (type : ContentType) : string :=
  match type with text => "text" | image => "image" | video => "video" end.

Definition visibilityName (visibility : Visibility) : string :=
  match visibility with
  | friends_only => "friends_only"
  | public => "public"
  end.

(** [...(x !== undefined && { key: x })] *)
Definition spreadIfDefined (key : string) (x : option string)
  : list (string * Json.t) :=
  match x with
  | Some s => [(key, Json.Str s)]
  | None => []
  end.

(** The object [serialized] of [serializePost], given the two ISO strings. *)
Definition serialized (post : Post.t) (createdAt updatedAt : string) : Json.t :=
  Json.Obj
    [ ("id", Json.Str (Post.id post));
      ("authorId", Json.Str (Post.authorId post));
      ("content",
       Json.Obj
         (("type",
           Json.Str (contentTypeName (PostContent.type (Post.content post))))
          :: spreadIfDefined "text" (PostContent.text (Post.content post))
          ++ spreadIfDefined "mediaUrl"
               (PostContent.mediaUrl (Post.content post))));
      ("visibility", Json.Str (visibilityName (Post.visibility post)));
      ("createdAt", Json.Str createdAt);
      ("updatedAt", Json.Str updatedAt);
      ("isEdited", Json.Bool (Post.isEdited post)) ].

(** [toISOString] throws a [RangeError] on an invalid date. *)
Definition serializePost (post : Post.t) : Error.t + string :=
  match JsDate.toISOString (Post.createdAt post),
        JsDate.toISOString (Post.updatedAt post) with
  | Some createdAt, Some updatedAt =>
      inr (Json.stringify (serialized post createdAt updatedAt))
  | _, _ => inl (Error.NativeError "RangeError")
  end.

(** [v[key]] for a value that is not [null]: the last field of that name in
    an object, [undefined] otherwise (none of the keys read below is a
    built-in property of an array or a string). *)
Definition prop (v : Json.t) (key : string) : option Json.t :=
  match v with
  | Json.Obj fields =>
      fold_left
        (fun found kv =>
           if String.eqb key (fst kv) then Some (snd kv) else found)
        fields None
  | _ => None
  end.

(** The value of [x] when [!x || typeof x !== 'string'] is false. *)
Definition nonEmptyString (x : option Json.t) : option string :=
  match x with
  | Some (Json.Str s) => if JsString.truthy s then Some s else None
  | _ => None
  end.

(** The value of [x] when [!x || typeof x !== 'object'] is false. *)
Definition object (x : option Json.t) : option Json.t :=
  match x with
  | Some (Json.Arr items) => Some (Json.Arr items)
  | Some (Json.Obj fields) => Some (Json.Obj fields)
  | _ => None
  end.

Definition isValidContentType (type : option Json.t) : option ContentType :=
  match type with
  | Some (Json.Str s) =>
      if String.eqb s "text" then Some text
      else if String.eqb s "image" then Some image
      else if String.eqb s "video" then Some video
      else None
  | _ => None
  end.

Definition isValidVisibility (visibility : option Json.t)
  : option Visibility :=
  match visibility with
  | Some (Json.Str s) =>
      if String.eqb s "friends_only" then Some friends_only
      else if String.eqb s "public" then Some public
      else None
  | _ => None
  end.

Definition boolean (x : option Json.t) : option bool :=
  match x with
  | Some (Json.Bool b) => Some b
  | _ => None
  end.

Definition invalidPost (what : string) : Outcome.t Post.t :=
  Throws (Error.PlainError ("Invalid post: " +:+ what)).

(** An optional string property copied by [...(x !== undefined && {...})]:
    absent, a string, or a value of another type. *)
Definition copied (x : option Json.t) : option (option string) :=
  match x with
  | None => Some None
  | Some (Json.Str s) => Some (Some s)
  | Some _ => None
  end.

(** [Json.parse] and [JsDate.parse] stand for [JSON.parse] and [new Date],
    which read more texts than they do: the outcome computed here is the
    code's on compact JSON text without number literals whose dates, where
    they are parsed, are in the format that [toISOString] writes. *)
Definition deserializePost (json : string) : Outcome.t Post.t :=
  match Json.parse json with
  | None => Throws (Error.NativeError "SyntaxError")
  | Some Json.Null => Throws (Error.NativeError "TypeError")
  | Some parsed =>
  match nonEmptyString (prop parsed "id") with
  | None => invalidPost "missing or invalid id"
  | Some id =>
  match nonEmptyString (prop parsed "authorId") with
  | None => invalidPost "missing or invalid authorId"
  | Some authorId =>
  match object (prop parsed "content") with
  | None => invalidPost "missing or invalid content"
  | Some content =>
  match isValidContentType (prop content "type") with
  | None => invalidPost "invalid content type"
  | Some type =>
  match isValidVisibility (prop parsed "visibility") with
  | None => invalidPost "invalid visibility"
  | Some visibility =>
  match nonEmptyString (prop parsed "createdAt") with
  | None => invalidPost "missing or invalid createdAt"
  | Some createdAtText =>
  match nonEmptyString (prop parsed "updatedAt") with
  | None => invalidPost "missing or invalid updatedAt"
  | Some updatedAtText =>
  match boolean (prop parsed "isEdited") with
  | None => invalidPost "missing or invalid isEdited"
  | Some isEdited =>
  match JsDate.parse createdAtText with
  | None => invalidPost "createdAt is not a valid date"
  | Some createdAt =>
  match JsDate.parse updatedAtText with
  | None => invalidPost "updatedAt is not a valid date"
  | Some updatedAt =>
  match copied (prop content "text"), copied (prop content "mediaUrl") with
  | Some textValue, Some mediaUrlValue =>
      Returns
        (Post.mk id authorId
           (PostContent.mk type textValue mediaUrlValue None None)
           visibility createdAt updatedAt isEdited)
  | _, _ => Untyped
  end end end end end end end end end end end end.

(** [serializePosts]: the objects are built in order, so the first invalid
    date throws. *)
Fixpoint serializedAll (posts : list Post.t) : option (list Json.t) :=
  match posts with
  | [] => Some []
  | post :: posts' =>
      match JsDate.toISOString (Post.createdAt post),
            JsDate.toISOString (Post.updatedAt post) with
      | Some createdAt, Some updatedAt =>
          match serializedAll posts' with
          | Some items => Some (serialized post createdAt updatedAt :: items)
          | None => None
          end
      | _, _ => None
      end
  end.

Definition serializePosts (posts : list Post.t) : Error.t + string :=
  match serializedAll posts with
  | Some items => inr (Json.stringify (Json.Arr items))
  | None => inl (Error.NativeError "RangeError")
  end.

(** The decimal text of an array index. *)
Definition indexText (index : nat) : string :=
  NilZero.string_of_uint (Nat.to_uint index).

Section WithEngine.
(** The message that the engine gives to a native error of a given name,
    read by the [catch] clause of [deserializePosts]. *)
Variable nativeMessage : string -> string.

Definition caughtMessage (e : Error.t) : string :=
  match e with
  | Error.NativeError name => nativeMessage name
  | _ => Error.message e
  end.

(** The callback of [parsed.map], applied from [index] on. *)
Fixpoint deserializeItems (index : nat) (items : list Json.t)
  : Outcome.t (list Post.t) :=
  match items with
  | [] => Returns []
  | item :: items' =>
      match deserializePost (Json.stringify item) with
      | Throws e =>
          Throws
            (Error.PlainError
               ("Invalid post at index " +:+ indexText index +:+ ": "
                +:+ caughtMessage e))
      | Untyped =>
          match deserializeItems (S index) items' with
          | Throws e => Throws e
          | _ => Untyped
          end
      | Returns post =>
          match deserializeItems (S index) items' with
          | Returns posts => Returns (post :: posts)
          | Throws e => Throws e
          | Untyped => Untyped
          end
      end
  end.

Definition deserializePosts (json : string) : Outcome.t (list Post.t) :=
  match Json.parse json with
  | None => Throws (Error.NativeError "SyntaxError")
  | Some (Json.Arr items) => deserializeItems 0 items
  | Some _ => Throws (Error.PlainError "Invalid posts: expected an array")
  end.

End WithEngine.

End SerializationService.

(** ** Media service ([services/MediaService.ts])

    A [Buffer] is a mutable array of bytes: the model keeps a heap of
    buffers, addressed by their rank of allocation, so that the copies that
    the service makes can be told from the buffers of its callers. The
    service's own map is a module-level variable; it is threaded here
    together with the heap. *)

Module MediaService.

Definition SUPPORTED_IMAGE_MIME_TYPES : list string :=
  ["image/jpeg"; "image/png"; "image/gif"].
Definition SUPPORTED_VIDEO_MIME_TYPES : list string :=
  ["video/mp4"; "video/webm"].
Definition SUPPORTED_MIME_TYPES : list string :=
  app SUPPORTED_IMAGE_MIME_TYPES SUPPORTED_VIDEO_MIME_TYPES.

Module MediaEntry.
Record t := mk
  { id : string; data : nat; mimeType : string; size : Z; createdAt : Date }.
End MediaEntry.

(** The heap of buffers and the map [mediaStorage]. *)
Record t := mk
  { heap : list (list N);
    mediaStorage : list (string * MediaEntry.t) }.

Definition empty : t := mk [] [].

(** The bytes of the buffer at an address. *)
Definition bytes (buffer : nat) (st : t) : list N :=
  default [] (heap st !! buffer).

(** [buffer[i] = ...] and the like: the buffer at the address gets new
    contents. *)
Definition write (buffer : nat) (contents : list N) (st : t) : t :=
  mk (<[buffer := contents]> (heap st)) (mediaStorage st).

(** [Buffer.from(buffer)]: a new buffer with the same bytes. *)
Definition copy (buffer : nat) (st : t) : nat * t :=
  (List.length (heap st),
   mk (app (heap st) [bytes buffer st]) (mediaStorage st)).

Definition isSupportedMimeType (mimeType : string) : bool :=
  JsString.array_includes SUPPORTED_MIME_TYPES mimeType.

Definition isImageMimeType (mimeType : string) : bool :=
  JsString.array_includes SUPPORTED_IMAGE_MIME_TYPES mimeType.

Definition isVideoMimeType (mimeType : string) : bool :=
  JsString.array_includes SUPPORTED_VIDEO_MIME_TYPES mimeType.

(** [data] is the address of the caller's buffer; [uuid] and [now] are drawn
    by the call. *)
Definition uploadMedia (uuid : string) (now : Date) (data : nat)
  (mimeType : string) (st : t) : (Error.t + string) * t :=
  if negb (isSupportedMimeType mimeType) then
    (inl (Error.PlainError
            ("Unsupported MIME type: " +:+ mimeType +:+ ". Supported types: "
             +:+ JsString.join ", " SUPPORTED_MIME_TYPES)), st)
  else if Nat.eqb (List.length (bytes data st)) 0 then
    (inl (Error.PlainError "Media data cannot be empty"), st)
  else
    let mediaId := uuid in
    let (stored, st') := copy data st in
    let mediaEntry :=
      MediaEntry.mk mediaId stored mimeType
        (Z.of_nat (List.length (bytes data st))) now in
    (inr mediaId,
     mk (heap st') (JsMap.set mediaId mediaEntry (mediaStorage st'))).

(** The address of a fresh copy of the stored buffer, or [null]. *)
Definition getMedia (mediaId : string) (st : t) : option nat * t :=
  match JsMap.get mediaId (mediaStorage st) with
  | None => (None, st)
  | Some entry =>
      let (returned, st') := copy (MediaEntry.data entry) st in
      (Some returned, st')
  end.

Definition getMediaEntry (mediaId : string) (st : t)
  : option MediaEntry.t * t :=
  match JsMap.get mediaId (mediaStorage st) with
  | None => (None, st)
  | Some entry =>
      let (returned, st') := copy (MediaEntry.data entry) st in
      (Some (MediaEntry.mk (MediaEntry.id entry) returned
               (MediaEntry.mimeType entry) (MediaEntry.size entry)
               (MediaEntry.createdAt entry)), st')
  end.

Definition deleteMedia (mediaId : string) (st : t) : bool * t :=
  (is_some (JsMap.get mediaId (mediaStorage st)),
   mk (heap st) (JsMap.delete mediaId (mediaStorage st))).

Definition mediaExists (mediaId : string) (st : t) : bool :=
  is_some (JsMap.get mediaId (mediaStorage st)).

Definition clearMediaStorage (st : t) : t := mk (heap st) [].

Definition getMediaCount (st : t) : Z :=
  Z.of_nat (List.length (mediaStorage st)).

End MediaService.

(** ** The HTTP layer ([api/routes.ts]): authentication and logout

    A response is its status and the members of its JSON body, which here
    are all strings. [asyncHandler] passes what the handler throws to
    [errorHandler]. *)

Module ApiRouter.

Module Response.
Record t := mk { status : Z; body : list (string * string) }.
End Response.

Definition errorHandler (err : Error.t) : Response.t :=
  match Error.statusCode err, Error.code err with
  | Some statusCode, Some code =>
      Response.mk statusCode
        [("error", code); ("message", Error.message err)]
  | _, _ =>
      Response.mk 500
        [("error", "INTERNAL_ERROR");
         ("message", "An unexpected error occurred")]
  end.

Definition asyncHandler (handler : M Response.t) (st : InMemoryStorage.t)
  : Response.t * InMemoryStorage.t :=
  match handler st with
  | (inl err, st') => (errorHandler err, st')
  | (inr response, st') => (response, st')
  end.

(** The token of an [Authorization] header of the form [Bearer <token>]:
    [authHeader && authHeader.startsWith('Bearer ')], then
    [authHeader.substring(7)]. *)
Definition bearerToken (authorization : option string) : option string :=
  match authorization with
  | Some authHeader =>
      if JsString.truthy authHeader
         && JsString.startsWith "Bearer " authHeader
      then Some (JsString.substring 7 authHeader)
      else None
  | None => None
  end.

(** The middleware returns what it attaches to the request: the user and
    the session token. *)
Definition requireAuth (now : Date) (authorization : option string)
  : M (User.t * string) :=
  match bearerToken authorization with
  | None => throw Error.UnauthorizedError
  | Some token =>
      user ← AuthenticationService.validateSessionByToken now token;
      match user with
      | None => throw Error.UnauthorizedError
      | Some user => mret (user, token)
      end
  end.

Definition optionalAuth (now : Date) (authorization : option string)
  : M (option (User.t * string)) :=
  match bearerToken authorization with
  | None => mret None
  | Some token =>
      user ← AuthenticationService.validateSessionByToken now token;
      match user with
      | None => mret None
      | Some user => mret (Some (user, token))
      end
  end.

(** [POST /auth/logout] *)
Definition logoutHandler (authorization : option string) : M Response.t :=
  match bearerToken authorization with
  | None =>
      mret (Response.mk 401
              [("error", "UNAUTHORIZED");
               ("message", "Authorization token required")])
  | Some token =>
      found ← gets (InMemoryStorage.getSessionByToken token);
      match found with
      | None => throw Error.InvalidSessionError
      | Some session =>
          AuthenticationService.logout (Session.id session);;
          mret (Response.mk 200 [("message", "Logged out successfully")])
      end
  end.

End ApiRouter.

(** * Vocabulary of the properties, and sample stores

    The relations and predicates in which the properties below are stated,
    and the concrete stores and posts on which they are exercised. *)

(** ** Friendship *)

(** The relation that [areFriends] decides. *)
Definition friends (st : InMemoryStorage.t) (a b : string) : Prop :=
  ∃ s : gset string,
    InMemoryStorage.friendsByUser st !! a = Some s ∧ b ∈ s.

(** The friendship index is symmetric. *)
Definition symmetric (st : InMemoryStorage.t) : Prop :=
  ∀ a b : string, friends st a b → friends st b a.

(** A call of one of the four friendship operations, with its arguments and
    the values it draws from the environment. *)
Inductive FriendOp :=
| SendFriendRequest (uuid : string) (now : Date) (fromUserId toUserId : string)
| AcceptFriendRequest (now : Date) (requestId userId : string)
| DeclineFriendRequest (requestId userId : string)
| RemoveFriend (userId friendId : string).

(** The store that a call leaves behind, whether it returns or throws. *)
Definition after (op : FriendOp) (st : InMemoryStorage.t) : InMemoryStorage.t :=
  match op with
  | SendFriendRequest uuid now fromUserId toUserId =>
      (FriendService.sendFriendRequest uuid now fromUserId toUserId st).2
  | AcceptFriendRequest now requestId userId =>
      (FriendService.acceptFriendRequest now requestId userId st).2
  | DeclineFriendRequest requestId userId =>
      (FriendService.declineFriendRequest requestId userId st).2
  | RemoveFriend userId friendId =>
      (FriendService.removeFriend userId friendId st).2
  end.

(** A store without friendships: a fresh store, or one on which only users,
    posts, sessions and friend requests have been created so far. *)
Definition no_friendships (st : InMemoryStorage.t) : Prop :=
  InMemoryStorage.friendships st = ∅
  ∧ InMemoryStorage.friendsByUser st = ∅.

(** The stores reached by friendship operations. *)
Inductive reachable : InMemoryStorage.t -> Prop :=
| reachable_start (st : InMemoryStorage.t) : no_friendships st → reachable st
| reachable_step (op : FriendOp) (st : InMemoryStorage.t) :
    reachable st → reachable (after op st).

(** Two registered users, and the store after one has sent the other a
    request that the other accepted. *)
Definition alice : User.t :=
  User.mk "alice" "alice@example.com" "alice" "s:h" 0.
Definition bob : User.t := User.mk "bob" "bob@example.com" "bob" "s:h" 0.
Definition two_users : InMemoryStorage.t :=
  InMemoryStorage.createUser bob
    (InMemoryStorage.createUser alice InMemoryStorage.empty).
Definition requested : InMemoryStorage.t :=
  after (SendFriendRequest "r1" 1 "alice" "bob") two_users.
Definition befriended : InMemoryStorage.t :=
  after (AcceptFriendRequest 2 "r1" "bob") requested.

(** ** Friend requests *)

Definition recipientOnly : string :=
  "Only the recipient can accept a friend request".

(** A pending request from [a] to [b] is in the store. *)
Definition pendingBetween (st : InMemoryStorage.t) (a b : string) : Prop :=
  ∃ r : FriendRequest.t,
    In r (JsMap.values (InMemoryStorage.friendRequests st))
    ∧ FriendRequest.fromUserId r = a
    ∧ FriendRequest.toUserId r = b
    ∧ FriendRequest.status r = pending.

(** Bob declines Alice's request; Alice may then send a new one. *)
Definition turned_down : InMemoryStorage.t :=
  after (DeclineFriendRequest "r1" "bob") requested.

(** ** The feed *)

(** Newest first. *)
Definition newerFirst (a b : Post.t) : Prop :=
  Post.createdAt b <= Post.createdAt a.

(** The posts of the store that [viewer] may see, in store order. *)
Definition visibleTo (viewer : option string) (st : InMemoryStorage.t)
  : list Post.t :=
  List.filter (fun post => PostService.canViewPost post viewer st)
    (InMemoryStorage.getAllPosts st).

(** A post whose creation date is a valid one, and a store of such posts:
    what [createPost] stores when the clock reads a valid date. *)
Definition dated (post : Post.t) : Prop :=
  JsDate.isValid (Post.createdAt post) = true.

Definition datedPosts (st : InMemoryStorage.t) : Prop :=
  Forall dated (InMemoryStorage.getAllPosts st).


(** A public text post of Alice's. *)
Definition story (id : string) (created : Date) : Post.t :=
  Post.mk id "alice" (PostContent.mk text (Some "hi") None None None)
    public created created false.

(** Three public posts created at instants 1, 2 and 3. *)
Definition three_posts : InMemoryStorage.t :=
  InMemoryStorage.createPost (story "p3" 3)
    (InMemoryStorage.createPost (story "p2" 2)
       (InMemoryStorage.createPost (story "p1" 1) InMemoryStorage.empty)).

(** ** Posts *)

Definition greeting : PostContent.t :=
  PostContent.mk text (Some "hi") None None None.

(** ** Registration and sessions *)

Definition requiredFields : string :=
  "Email, username, and password are required".

(** What it takes for an error to be of kind [ValidationError]: the class
    name, or the code that the HTTP layer reports for a missing field. *)
Definition isValidationError (e : Error.t) : Prop :=
  Error.name e = "ValidationError" ∨ Error.code e = Some "VALIDATION_ERROR".

(** A live session whose user is not in the store. *)
Definition orphan : Session.t := Session.mk "s1" "ghost" "tok" 100.
Definition orphaned : InMemoryStorage.t :=
  InMemoryStorage.createSession orphan two_users.

(** ** Dates, JSON text and serialization *)

Definition leapYear (y : Z) : Prop :=
  (y mod 4 = 0 ∧ y mod 100 ≠ 0) ∨ y mod 400 = 0.

(** The text of one field of an object. *)
Definition fieldText (kv : string * Json.t) : string :=
  Json.quote (fst kv) +:+ ":" +:+ Json.stringify (snd kv).

(** A post that [deserializePost] can accept and [toISOString] can print:
    non-empty id and author id, and valid dates. *)
Definition validPost (post : Post.t) : Prop :=
  Post.id post ≠ "" ∧ Post.authorId post ≠ ""
  ∧ JsDate.isValid (Post.createdAt post) = true
  ∧ JsDate.isValid (Post.updatedAt post) = true.

(** The post restricted to the fields that the interface [PostContent]
    declares for its content: [type], [text] and [mediaUrl]. *)
Definition declaredFields (post : Post.t) : Post.t :=
  Post.mk (Post.id post) (Post.authorId post)
    (PostContent.mk (PostContent.type (Post.content post))
       (PostContent.text (Post.content post))
       (PostContent.mediaUrl (Post.content post)) None None)
    (Post.visibility post) (Post.createdAt post) (Post.updatedAt post)
    (Post.isEdited post).

(** An image post as [createPost] stores it when the content object carries
    [mimeType] and [fileSize], created on 2024-01-01 at 10:00 UTC. *)
Definition snapshot : Post.t :=
  Post.mk "p1" "alice"
    (PostContent.mk image None (Some "https://cdn.example/a.png")
       (Some "image/png") (Some 2048))
    public 1704103200000 1704103200000 false.

(** An edited text post whose content carries the declared fields only. *)
Definition note : Post.t :=
  Post.mk "p2" "bob" (PostContent.mk text (Some "hello") None None None)
    friends_only 0 1704103200000 true.

(** ** Vocabulary of the further properties *)

(** A map in which no key occurs twice, as in every [Map]. *)
Definition uniqueKeys {V : Type} (m : list (string * V)) : Prop :=
  NoDup (map fst m).

(** Every friend request is stored under its own id, as
    [createFriendRequest] and [updateFriendRequest] store it. *)
Definition keyedById (st : InMemoryStorage.t) : Prop :=
  ∀ (key : string) (request : FriendRequest.t),
    In (key, request) (InMemoryStorage.friendRequests st) →
    FriendRequest.id request = key.

(** The id that an operation draws for the request it creates. *)
Definition drawnId (op : FriendOp) : option string :=
  match op with
  | SendFriendRequest uuid _ _ _ => Some uuid
  | _ => None
  end.

(** The store after a sequence of friendship operations. *)
Definition afterAll (ops : list FriendOp) (st : InMemoryStorage.t)
  : InMemoryStorage.t :=
  fold_left (fun st op => after op st) ops st.

(** A friends-only post of Alice's, in the store in which Alice and Bob are
    friends and in the one in which Bob has yet to accept. *)
Definition diary : Post.t :=
  Post.mk "d1" "alice" greeting friends_only 5 5 false.
Definition diary_requested : InMemoryStorage.t :=
  InMemoryStorage.createPost diary requested.
Definition diary_befriended : InMemoryStorage.t :=
  InMemoryStorage.createPost diary befriended.

(** ** The three defects that [validateContent] reports *)

(** No content: a text that is absent or blank; for an image or a video,
    neither a media URL nor a MIME type. *)
Definition lacksContent (content : PostContent.t) : bool :=
  match PostContent.type content with
  | text =>
      match PostContent.text content with
      | Some t => String.eqb (JsString.trim t) ""
      | None => true
      end
  | image | video =>
      negb (JsString.truthy_opt (PostContent.mediaUrl content))
      && negb (JsString.truthy_opt (PostContent.mimeType content))
  end.

(** A MIME type that is given and is not among the supported formats of
    the content type. *)
Definition unsupportedFormat (content : PostContent.t) : bool :=
  match PostContent.type content, PostContent.mimeType content with
  | image, Some mimeType =>
      JsString.truthy mimeType
      && negb (JsString.array_includes SUPPORTED_IMAGE_FORMATS mimeType)
  | video, Some mimeType =>
      JsString.truthy mimeType
      && negb (JsString.array_includes SUPPORTED_VIDEO_FORMATS mimeType)
  | _, _ => false
  end.

(** A file size that is given and exceeds the limit of the content type. *)
Definition tooLarge (content : PostContent.t) : bool :=
  match PostContent.type content, PostContent.fileSize content with
  | image, Some fileSize => fileSize >? MAX_IMAGE_SIZE
  | video, Some fileSize => fileSize >? MAX_VIDEO_SIZE
  | _, _ => false
  end.

(** A post of Alice's whose declared image is a bitmap of 20 MB: the format
    is unsupported and the file is too large. *)
Definition bitmap : PostContent.t :=
  PostContent.mk image None (Some "https://cdn.example/a.bmp")
    (Some "image/bmp") (Some (20 * 1024 * 1024)).

(** ** The whole feed *)

(** The feed of a viewer on one page that is long enough for every post of
    the store. *)
Definition wholeFeed (viewer : option string) (st : InMemoryStorage.t)
  : list Post.t :=
  FeedResult.posts
    (FeedService.getFeed viewer
       (Pagination.mk
          (Z.of_nat (List.length (InMemoryStorage.getAllPosts st))) 0) st).

Definition isPublic (post : Post.t) : bool :=
  bool_decide (Post.visibility post = public).

(** ** Hexadecimal text and derived keys *)

(** The text consists of hexadecimal digits: what [toString('hex')]
    writes. *)
Fixpoint isHex (s : string) : bool :=
  match s with
  | EmptyString => true
  | String c s' => is_some (JsBuffer.hexNibble c) && isHex s'
  end.

(** What [pbkdf2Sync(password, salt, 100000, 64, 'sha512').toString('hex')]
    is for every password and salt: the 128 hexadecimal digits of a key of
    64 bytes. *)
Definition derivesKeys (pbkdf2 : string -> string -> string) : Prop :=
  ∀ password salt : string,
    isHex (pbkdf2 password salt) = true
    ∧ String.length (pbkdf2 password salt) = 128%nat.

Fixpoint repeatChar (n : nat) (c : ascii) : string :=
  match n with
  | O => EmptyString
  | S n' => String c (repeatChar n' c)
  end.

(** A stand-in for the key derivation in the examples: it tells the
    password [secret] from every other one. *)
Definition sampleKdf (password salt : string) : string :=
  repeatChar 128 (if String.eqb password "secret" then "a" else "b")%char.

(** Carol, registered with the password [secret], and her session. *)
Definition carol : User.t :=
  User.mk "u3" "carol@example.com" "carol"
    (AuthenticationService.hashPassword sampleKdf "5a" "secret") 0.
Definition with_carol : InMemoryStorage.t :=
  InMemoryStorage.createUser carol two_users.
Definition carol_session : Session.t :=
  Session.mk "s3" "u3" "t3" (1000 + AuthenticationService.SESSION_DURATION_MS).
Definition carol_logged_in : InMemoryStorage.t :=
  InMemoryStorage.createSession carol_session with_carol.



(** ** Media *)

(** A heap with one buffer of four bytes, the caller's, and no media. *)
Definition one_buffer : MediaService.t :=
  MediaService.mk [[137; 80; 78; 71]%N] [].

(** * Properties *)

(** ** Running a method *)

Lemma run_ret {A : Type} (a : A) (st : InMemoryStorage.t) :
  (mret a : M A) st = (inr a, st).
Proof. reflexivity. Qed.

Lemma run_bind {A B : Type} (m : M A) (f : A -> M B) (st : InMemoryStorage.t) :
  ((m ≫= f) : M B) st =
  match m st with
  | (inl e, st') => (inl e, st')
  | (inr a, st') => f a st'
  end.
Proof. reflexivity. Qed.

Lemma run_gets {A : Type} (f : InMemoryStorage.t -> A)
  (st : InMemoryStorage.t) :
  gets f st = (inr (f st), st).
Proof. reflexivity. Qed.

Lemma run_modify (f : InMemoryStorage.t -> InMemoryStorage.t)
  (st : InMemoryStorage.t) :
  modify f st = (inr tt, f st).
Proof. reflexivity. Qed.

Lemma run_throw {A : Type} (e : Error.t) (st : InMemoryStorage.t) :
  throw (A := A) e st = (inl e, st).
Proof. reflexivity. Qed.

Lemma run_throw_if (cond : bool) (e : Error.t) (st : InMemoryStorage.t) :
  throw_if cond e st = if cond then (inl e, st) else (inr tt, st).
Proof. destruct cond; reflexivity. Qed.

Lemma run_call {A : Type} (f : InMemoryStorage.t -> A * InMemoryStorage.t)
  (st : InMemoryStorage.t) :
  call f st = (inr (f st).1, (f st).2).
Proof. unfold call. destruct (f st); reflexivity. Qed.

Create Rewrite HintDb run.
#[local] Hint Rewrite @run_ret @run_bind @run_gets run_modify @run_throw
  run_throw_if @run_call : run.

Ltac run := repeat (autorewrite with run; cbn [negb fst snd]).

(** ** Visibility *)

(** C1. [canViewPost] is true on a public post; on a friends-only post it is
    false for the anonymous viewer, true for the author, and for any other
    viewer it is [areFriends (authorId, viewerId)]. *)
Theorem canViewPost_cases (post : Post.t) (viewerId : option string)
  (st : InMemoryStorage.t) :
  PostService.canViewPost post viewerId st =
  match Post.visibility post, viewerId with
  | public, _ => true
  | friends_only, None => false
  | friends_only, Some viewer =>
      if decide (viewer = Post.authorId post) then true
      else InMemoryStorage.areFriends (Post.authorId post) viewer st
  end.
Proof.
  unfold PostService.canViewPost.
  destruct (Post.visibility post) eqn:Hvis; cbn.
  - destruct viewerId as [viewer|]; [|reflexivity].
    destruct (String.eqb_spec (Post.authorId post) viewer) as [->|Hne].
    + rewrite decide_True by reflexivity. reflexivity.
    + rewrite decide_False by congruence. reflexivity.
  - reflexivity.
Qed.

(** ** The friendship relation *)

Lemma areFriends_true (st : InMemoryStorage.t) (a b : string) :
  InMemoryStorage.areFriends a b st = true ↔ friends st a b.
Proof.
  unfold InMemoryStorage.areFriends, friends.
  destruct (InMemoryStorage.friendsByUser st !! a) as [s|].
  - rewrite bool_decide_eq_true. naive_solver.
  - naive_solver.
Qed.

Lemma friends_createFriendship (f : Friendship.t) (st : InMemoryStorage.t)
  (a b : string) :
  friends (InMemoryStorage.createFriendship f st) a b ↔
  friends st a b ∨ (a = Friendship.userId f ∧ b = Friendship.friendId f).
Proof.
  unfold friends, InMemoryStorage.createFriendship; cbn.
  destruct (decide (a = Friendship.userId f)) as [->|Hne].
  - rewrite lookup_insert_eq.
    destruct (InMemoryStorage.friendsByUser st !! Friendship.userId f) as [s|]; cbn.
    + split.
      * intros (s' & [= <-] & Hb). set_solver.
      * intros [(s' & [= <-] & Hb) | [_ ->]]; eexists; split; eauto; set_solver.
    + split.
      * intros (s' & [= <-] & Hb). set_solver.
      * intros [(s' & [=] & _) | [_ ->]]. eexists; split; eauto; set_solver.
  - rewrite lookup_insert_ne by congruence. naive_solver.
Qed.

Lemma friends_deleteFriendship (u v : string) (st : InMemoryStorage.t)
  (a b : string) :
  friends (InMemoryStorage.deleteFriendship u v st).2 a b ↔
  friends st a b ∧ ¬ (a = u ∧ b = v).
Proof.
  unfold friends, InMemoryStorage.deleteFriendship; cbn.
  rewrite lookup_alter.
  destruct (decide (u = a)) as [->|Hne].
  - destruct (InMemoryStorage.friendsByUser st !! a) as [s|]; cbn.
    + split.
      * intros (s' & [= <-] & Hb). split; [eexists; split; eauto|]; set_solver.
      * intros [(s' & [= <-] & Hb) Hn]. eexists; split; eauto. set_solver.
    + naive_solver.
  - naive_solver.
Qed.

Lemma friends_with_friendRequests (frs : list (string * FriendRequest.t))
  (st : InMemoryStorage.t) (a b : string) :
  friends (InMemoryStorage.with_friendRequests frs st) a b ↔ friends st a b.
Proof. reflexivity. Qed.

Lemma symmetric_areFriends (st : InMemoryStorage.t) :
  symmetric st ↔
  ∀ a b : string,
    InMemoryStorage.areFriends a b st = InMemoryStorage.areFriends b a st.
Proof.
  split.
  - intros Hsym a b. apply eq_true_iff_eq.
    rewrite !areFriends_true. split; apply Hsym.
  - intros Heq a b. rewrite <- !areFriends_true, (Heq a b). done.
Qed.

Lemma symmetric_start (st : InMemoryStorage.t) :
  no_friendships st → symmetric st.
Proof.
  intros [_ Hempty] a b (s & Hs & _). rewrite Hempty, lookup_empty in Hs.
  discriminate.
Qed.

Lemma symmetric_sendFriendRequest (uuid : string) (now : Date)
  (fromUserId toUserId : string) (st : InMemoryStorage.t) :
  symmetric st →
  symmetric (FriendService.sendFriendRequest uuid now fromUserId toUserId st).2.
Proof.
  intros Hsym. unfold FriendService.sendFriendRequest. run.
  repeat (match goal with |- context [if ?c then _ else _] => destruct c end;
          run; cbn [snd]; try assumption).
Qed.

Lemma symmetric_acceptFriendRequest (now : Date) (requestId userId : string)
  (st : InMemoryStorage.t) :
  symmetric st →
  symmetric (FriendService.acceptFriendRequest now requestId userId st).2.
Proof.
  intros Hsym. unfold FriendService.acceptFriendRequest. run.
  destruct (InMemoryStorage.getFriendRequestById requestId st) as [request|];
    run; [|assumption].
  repeat (match goal with |- context [if ?c then _ else _] => destruct c end;
          run; cbn [snd]; try assumption).
  intros a b. rewrite !friends_createFriendship; cbn.
  unfold InMemoryStorage.updateFriendRequest, InMemoryStorage.assignFriendRequest.
  rewrite !friends_with_friendRequests.
  intros [[H | [-> ->]] | [-> ->]]; auto.
Qed.

Lemma symmetric_declineFriendRequest (requestId userId : string)
  (st : InMemoryStorage.t) :
  symmetric st →
  symmetric (FriendService.declineFriendRequest requestId userId st).2.
Proof.
  intros Hsym. unfold FriendService.declineFriendRequest. run.
  destruct (InMemoryStorage.getFriendRequestById requestId st) as [request|];
    run; [|assumption].
  repeat (match goal with |- context [if ?c then _ else _] => destruct c end;
          run; cbn [snd]; try assumption).
Qed.

Lemma symmetric_removeFriend (userId friendId : string)
  (st : InMemoryStorage.t) :
  symmetric st →
  symmetric (FriendService.removeFriend userId friendId st).2.
Proof.
  intros Hsym. unfold FriendService.removeFriend. run.
  destruct (InMemoryStorage.areFriends userId friendId st); run; cbn [snd];
    [|assumption].
  intros a b. rewrite !friends_deleteFriendship.
  intros [[H Hn1] Hn2]. split; [split|]; [auto | tauto | tauto].
Qed.

Lemma symmetric_reachable (st : InMemoryStorage.t) :
  reachable st → symmetric st.
Proof.
  induction 1 as [st Hstart | op st _ IH].
  - by apply symmetric_start.
  - destruct op; cbn [after].
    + by apply symmetric_sendFriendRequest.
    + by apply symmetric_acceptFriendRequest.
    + by apply symmetric_declineFriendRequest.
    + by apply symmetric_removeFriend.
Qed.

(** C2. In every store reached from a store without friendships by
    [sendFriendRequest], [acceptFriendRequest], [declineFriendRequest] and
    [removeFriend] calls (returning or throwing), [areFriends (a, b)] and
    [areFriends (b, a)] agree for all user ids. *)
Theorem areFriends_symmetric (st : InMemoryStorage.t) :
  reachable st →
  ∀ a b : string,
    InMemoryStorage.areFriends a b st = InMemoryStorage.areFriends b a st.
Proof.
  intros Hreach. apply symmetric_areFriends, symmetric_reachable, Hreach.
Qed.

Lemma areFriends_symmetric_witness :
  reachable befriended
  ∧ InMemoryStorage.areFriends "alice" "bob" befriended = true
  ∧ InMemoryStorage.areFriends "alice" "bob" befriended
    = InMemoryStorage.areFriends "bob" "alice" befriended.
Proof.
  assert (Hreach : reachable befriended).
  { do 2 apply reachable_step. apply reachable_start. split; reflexivity. }
  split; [exact Hreach|]. split; [vm_compute; reflexivity|].
  exact (areFriends_symmetric befriended Hreach "alice" "bob").
Defined.

(** ** Friend requests *)

(** An already accepted request, accepted again by a user who is not its
    recipient: the call reports [Forbidden], not [FriendRequestNotFound]. *)
Lemma acceptFriendRequest_handled_by_stranger :
  InMemoryStorage.getFriendRequestById "r1" befriended
  = Some (FriendRequest.mk "r1" "alice" "bob" accepted 1)
  ∧ (FriendService.acceptFriendRequest 3 "r1" "carol" befriended).1
    = inl (Error.ForbiddenError recipientOnly)
  ∧ (FriendService.acceptFriendRequest 3 "r1" "carol" befriended).1
    ≠ inl Error.FriendRequestNotFoundError.
Proof. split; [|split]; [vm_compute; reflexivity.. | discriminate]. Qed.

(** C5 (amended). [acceptFriendRequest] on a request that exists but is no
    longer pending fails with [FriendRequestNotFound] when the acting user
    is the request's recipient and with [Forbidden] otherwise, the recipient
    test coming first; an unknown request id fails with
    [FriendRequestNotFound]; a pending request whose recipient is another
    user fails with [Forbidden]. The store is left as it was. *)
Theorem acceptFriendRequest_failures (now : Date) (requestId acting : string)
  (st : InMemoryStorage.t) (request : FriendRequest.t) :
  InMemoryStorage.getFriendRequestById requestId st = Some request →
  (FriendRequest.status request ≠ pending →
   FriendService.acceptFriendRequest now requestId acting st
   = (inl (if decide (FriendRequest.toUserId request = acting)
           then Error.FriendRequestNotFoundError
           else Error.ForbiddenError recipientOnly), st))
  ∧ (FriendRequest.toUserId request ≠ acting →
     FriendService.acceptFriendRequest now requestId acting st
     = (inl (Error.ForbiddenError recipientOnly), st))
  ∧ (∀ unknown : string,
       InMemoryStorage.getFriendRequestById unknown st = None →
       FriendService.acceptFriendRequest now unknown acting st
       = (inl Error.FriendRequestNotFoundError, st)).
Proof.
  intros Hget. unfold FriendService.acceptFriendRequest. run.
  split; [|split].
  - intros Hstatus. rewrite Hget. run.
    destruct (String.eqb_spec (FriendRequest.toUserId request) acting)
      as [Heq|Hne]; cbn [negb].
    + rewrite decide_True by assumption. run.
      rewrite bool_decide_eq_false_2 by assumption. reflexivity.
    + rewrite decide_False by assumption. reflexivity.
  - intros Hne. rewrite Hget. run.
    destruct (String.eqb_spec (FriendRequest.toUserId request) acting);
      [contradiction | reflexivity].
  - intros unknown Hnone. run. rewrite Hnone. reflexivity.
Qed.

Lemma acceptFriendRequest_failures_witness :
  FriendService.acceptFriendRequest 3 "r1" "bob" befriended
  = (inl Error.FriendRequestNotFoundError, befriended)
  ∧ FriendService.acceptFriendRequest 3 "r1" "carol" befriended
    = (inl (Error.ForbiddenError recipientOnly), befriended)
  ∧ FriendService.acceptFriendRequest 3 "r2" "bob" befriended
    = (inl Error.FriendRequestNotFoundError, befriended).
Proof.
  pose proof (acceptFriendRequest_failures 3 "r1" "bob" befriended
                (FriendRequest.mk "r1" "alice" "bob" accepted 1)
                ltac:(vm_compute; reflexivity)) as (Hbob & _ & Hunknown).
  pose proof (acceptFriendRequest_failures 3 "r1" "carol" befriended
                (FriendRequest.mk "r1" "alice" "bob" accepted 1)
                ltac:(vm_compute; reflexivity)) as (_ & Hcarol & _).
  split; [|split].
  - exact (Hbob ltac:(discriminate)).
  - exact (Hcarol ltac:(discriminate)).
  - exact (Hunknown "r2" ltac:(vm_compute; reflexivity)).
Defined.

Lemma is_some_find {A : Type} (p : A -> bool) (l : list A) :
  is_some (List.find p l) = true ↔ ∃ x : A, In x l ∧ p x = true.
Proof.
  induction l as [|y l IH]; cbn.
  - split; [discriminate | intros (x & [] & _)].
  - destruct (p y) eqn:Hy; cbn.
    + split; [eauto|reflexivity].
    + rewrite IH. split.
      * intros (x & Hin & Hx). eauto.
      * intros (x & [-> | Hin] & Hx); [congruence | eauto].
Qed.

Lemma getFriendRequestBetweenUsers_some (a b : string)
  (st : InMemoryStorage.t) :
  is_some (InMemoryStorage.getFriendRequestBetweenUsers a b st) = true
  ↔ pendingBetween st a b.
Proof.
  unfold InMemoryStorage.getFriendRequestBetweenUsers, pendingBetween.
  rewrite is_some_find. apply exist_proper. intros r.
  rewrite !andb_true_iff, !String.eqb_eq, bool_decide_eq_true. tauto.
Qed.

(** C6. For distinct existing users, [sendFriendRequest] fails with
    [DuplicateFriendRequest] exactly when the two are friends or a pending
    request between them exists in either direction; requests that were
    accepted or declined do not count, and when none of the three holds the
    call stores and returns a new pending request. *)
Theorem sendFriendRequest_duplicate (uuid : string) (now : Date)
  (fromUserId toUserId : string) (st : InMemoryStorage.t) :
  fromUserId ≠ toUserId →
  is_Some (InMemoryStorage.getUserById fromUserId st) →
  is_Some (InMemoryStorage.getUserById toUserId st) →
  let duplicate :=
    InMemoryStorage.areFriends fromUserId toUserId st = true
    ∨ pendingBetween st fromUserId toUserId
    ∨ pendingBetween st toUserId fromUserId in
  ((FriendService.sendFriendRequest uuid now fromUserId toUserId st).1
   = inl Error.DuplicateFriendRequestError ↔ duplicate)
  ∧ (¬ duplicate →
     FriendService.sendFriendRequest uuid now fromUserId toUserId st
     = (inr (FriendRequest.mk uuid fromUserId toUserId pending now),
        InMemoryStorage.createFriendRequest
          (FriendRequest.mk uuid fromUserId toUserId pending now) st)).
Proof.
  intros Hne [fromUser Hfrom] [toUser Hto] duplicate. subst duplicate.
  rewrite <- !getFriendRequestBetweenUsers_some.
  unfold FriendService.sendFriendRequest. run.
  destruct (String.eqb_spec fromUserId toUserId) as [|_]; [contradiction|].
  run. rewrite Hfrom. cbn [is_some]. run. rewrite Hto. cbn [is_some]. run.
  destruct (InMemoryStorage.areFriends fromUserId toUserId st); run.
  { split; [split; auto | intros []; auto]. }
  destruct (is_some (InMemoryStorage.getFriendRequestBetweenUsers fromUserId toUserId st));
    run.
  { split; [split; auto | intros []; auto]. }
  destruct (is_some (InMemoryStorage.getFriendRequestBetweenUsers toUserId fromUserId st));
    run.
  { split; [split; auto | intros []; auto]. }
  split; [|reflexivity].
  split; [discriminate | intros [|[|]]; discriminate].
Qed.

Lemma sendFriendRequest_duplicate_witness :
  InMemoryStorage.getFriendRequestById "r1" turned_down
  = Some (FriendRequest.mk "r1" "alice" "bob" declined 1)
  ∧ FriendService.sendFriendRequest "r2" 5 "alice" "bob" turned_down
    = (inr (FriendRequest.mk "r2" "alice" "bob" pending 5),
       InMemoryStorage.createFriendRequest
         (FriendRequest.mk "r2" "alice" "bob" pending 5) turned_down)
  ∧ (FriendService.sendFriendRequest "r3" 5 "bob" "alice" requested).1
    = inl Error.DuplicateFriendRequestError.
Proof.
  split; [vm_compute; reflexivity|]. split.
  - apply (sendFriendRequest_duplicate "r2" 5 "alice" "bob" turned_down);
      [discriminate | eexists; vm_compute; reflexivity.. |].
    rewrite <- !getFriendRequestBetweenUsers_some.
    vm_compute. intros [|[|]]; discriminate.
  - apply (sendFriendRequest_duplicate "r3" 5 "bob" "alice" requested);
      [discriminate | eexists; vm_compute; reflexivity.. |].
    right; right. exists (FriendRequest.mk "r1" "alice" "bob" pending 1).
    vm_compute. auto.
Defined.

(** ** Sorting and slicing *)

Section Sorting.
Context {A : Type} (cmp : A -> A -> Z).

Lemma insert_Permutation (x : A) (l : list A) :
  Permutation (JsArray.insert cmp x l) (x :: l).
Proof.
  induction l as [|y l IH]; cbn; [reflexivity|].
  destruct (cmp x y <=? 0); [reflexivity|].
  rewrite IH. apply perm_swap.
Qed.

Lemma sort_Permutation (l : list A) : Permutation (JsArray.sort cmp l) l.
Proof.
  induction l as [|x l IH]; cbn; [reflexivity|].
  rewrite insert_Permutation. by constructor.
Qed.

Lemma sort_length (l : list A) :
  List.length (JsArray.sort cmp l) = List.length l.
Proof. apply Permutation_length, sort_Permutation. Qed.


End Sorting.

Lemma byCreatedAtDesc_dated (a b : Post.t) :
  dated a → dated b →
  FeedService.byCreatedAtDesc a b = Post.createdAt b - Post.createdAt a.
Proof.
  unfold dated, FeedService.byCreatedAtDesc, JsDate.getTime.
  by intros -> ->.
Qed.

Lemma insert_newerFirst (x : Post.t) (l : list Post.t) :
  dated x → Forall dated l →
  StronglySorted newerFirst l →
  StronglySorted newerFirst (JsArray.insert FeedService.byCreatedAtDesc x l).
Proof.
  intros Hx Hl. induction 1 as [|y l Hsorted IH Hall]; cbn.
  - repeat constructor.
  - apply Forall_cons in Hl as [Hy Hl].
    rewrite (byCreatedAtDesc_dated x y Hx Hy).
    destruct (Z.leb_spec (Post.createdAt y - Post.createdAt x) 0) as [Hle|Hgt].
    + constructor; [by constructor|].
      constructor; [unfold newerFirst; lia|].
      eapply Forall_impl; [exact Hall|]. unfold newerFirst. intros z. lia.
    + constructor; [by apply IH|].
      eapply Permutation_Forall.
      { symmetry. apply insert_Permutation. }
      constructor; [unfold newerFirst; lia | exact Hall].
Qed.

Lemma sort_dated (l : list Post.t) :
  Forall dated l → Forall dated (JsArray.sort FeedService.byCreatedAtDesc l).
Proof.
  intros Hl. eapply Permutation_Forall; [|exact Hl].
  symmetry. apply sort_Permutation.
Qed.

Lemma sort_newerFirst (l : list Post.t) :
  Forall dated l →
  StronglySorted newerFirst (JsArray.sort FeedService.byCreatedAtDesc l).
Proof.
  induction 1 as [|x l Hx Hl IH]; cbn; [constructor|].
  apply insert_newerFirst; [exact Hx | by apply sort_dated | exact IH].
Qed.


Lemma visibleTo_dated (viewer : option string) (st : InMemoryStorage.t) :
  datedPosts st → Forall dated (visibleTo viewer st).
Proof.
  unfold datedPosts, visibleTo. intros Hdated.
  rewrite Forall_forall in *. intros post Hin%list_elem_of_In.
  apply filter_In in Hin as [Hin _]. by apply Hdated, list_elem_of_In.
Qed.

Lemma slice_nonneg {A : Type} (l : list A) (offset limit : Z) :
  0 <= offset → 0 <= limit →
  JsArray.slice l offset (offset + limit)
  = firstn (Z.to_nat limit) (skipn (Z.to_nat offset) l).
Proof.
  intros Hoffset Hlimit. unfold JsArray.slice.
  destruct (Z.ltb_spec offset 0); [lia|].
  destruct (Z.ltb_spec (offset + limit) 0); [lia|].
  destruct (Z_le_gt_dec offset (Z.of_nat (List.length l))) as [Hin|Hout].
  - rewrite (Z.min_l offset) by lia.
    destruct (Z_le_gt_dec (offset + limit) (Z.of_nat (List.length l))).
    + rewrite Z.min_l by lia. f_equal. lia.
    + rewrite Z.min_r by lia.
      rewrite !firstn_all2; [reflexivity | |]; rewrite length_skipn; lia.
  - rewrite !Z.min_r by lia. rewrite Z.sub_diag. cbn [Z.to_nat firstn].
    rewrite (skipn_all2 (n := Z.to_nat offset)) by lia.
    by rewrite firstn_nil.
Qed.

Lemma slice_empty {A : Type} (l : list A) (offset : Z) :
  JsArray.slice l offset offset = [].
Proof.
  unfold JsArray.slice. rewrite Z.sub_diag. reflexivity.
Qed.

(** ** The feed *)






(** One public post, and a page of limit 0 that starts after it: the page
    reports no further posts although a visible post exists. *)
Lemma getFeed_limit_zero_past_the_end :
  visibleTo None
    (InMemoryStorage.createPost (story "p1" 1) InMemoryStorage.empty)
  = [story "p1" 1]
  ∧ FeedService.getFeed None (Pagination.mk 0 1)
      (InMemoryStorage.createPost (story "p1" 1) InMemoryStorage.empty)
    = FeedResult.mk [] false 1.
Proof. split; vm_compute; reflexivity. Qed.

(** C4 (amended). With [limit = 0], for every viewer and offset, [getFeed]
    returns no posts, reports as [total] the number of posts visible to the
    viewer, and reports [hasMore] exactly when [offset < total]; at offset 0
    that is whenever a visible post exists. *)
Theorem getFeed_limit_zero (viewer : option string) (offset : Z)
  (st : InMemoryStorage.t) :
  let feed := FeedService.getFeed viewer (Pagination.mk 0 offset) st in
  FeedResult.posts feed = []
  ∧ FeedResult.total feed = Z.of_nat (List.length (visibleTo viewer st))
  ∧ FeedResult.hasMore feed = (offset <? FeedResult.total feed)
  ∧ (offset = 0 →
     FeedResult.hasMore feed
     = negb (Nat.eqb (List.length (visibleTo viewer st)) 0)).
Proof.
  intros feed. subst feed.
  unfold FeedService.getFeed; cbn [FeedResult.total FeedResult.posts
    FeedResult.hasMore Pagination.limit Pagination.offset].
  fold (visibleTo viewer st).
  rewrite Z.add_0_r, slice_empty, sort_length. cbn [List.length].
  rewrite Z.add_0_r. split_and!; try reflexivity.
  intros ->. destruct (visibleTo viewer st); reflexivity.
Qed.

Lemma getFeed_limit_zero_witness :
  FeedResult.hasMore
    (FeedService.getFeed (Some "viewer_123") (Pagination.mk 0 0) three_posts)
  = true.
Proof.
  pose proof (getFeed_limit_zero (Some "viewer_123") 0 three_posts) as H.
  cbv zeta in H. destruct H as (_ & _ & _ & Hmore).
  rewrite Hmore by reflexivity. vm_compute. reflexivity.
Defined.

(** ** Editing a post *)

Lemma get_set_same {V : Type} (k : string) (v : V) (m : list (string * V)) :
  JsMap.get k (JsMap.set k v m) = Some v.
Proof.
  induction m as [|[k' v'] m IH]; cbn.
  - by rewrite String.eqb_refl.
  - destruct (String.eqb k k') eqn:Hk; cbn; rewrite ?String.eqb_refl, ?Hk; auto.
Qed.

(** A post created when the clock reads 2000 and edited when it reads 1500
    (the wall clock was set back in between): the edit succeeds and moves
    [updatedAt] back. *)
Lemma updatePost_clock_behind :
  let created :=
    PostService.createPost "p1" 2000 (Some "alice") greeting None
      InMemoryStorage.empty in
  created.1 = inr (Post.mk "p1" "alice" greeting friends_only 2000 2000 false)
  ∧ (PostService.updatePost 1500 "p1" (Some "alice")
       (PostUpdate.mk None (Some public)) created.2).1
    = inr (Post.mk "p1" "alice" greeting public 2000 1500 true)
  ∧ ¬ (2000 <= 1500).
Proof. split_and!; [vm_compute; reflexivity.. | lia]. Qed.

(** C9 (amended). A successful [updatePost] on an existing post returns and
    stores a post with the id, author and creation time of the existing one,
    with [isEdited = true] whatever it was, with the content and the
    visibility of the update where it gives them and of the existing post
    where it does not, and with [updatedAt] equal to the clock reading of
    the call; so [updatedAt] does not decrease when that reading is not
    before the stored value. The caller is the author. *)
Theorem updatePost_frame (now : Date) (postId : string)
  (userId : option string) (updates : PostUpdate.t) (st st' : InMemoryStorage.t)
  (existing updated : Post.t) :
  InMemoryStorage.getPostById postId st = Some existing →
  PostService.updatePost now postId userId updates st = (inr updated, st') →
  Post.id updated = Post.id existing
  ∧ Post.authorId updated = Post.authorId existing
  ∧ Post.createdAt updated = Post.createdAt existing
  ∧ Post.isEdited updated = true
  ∧ Post.updatedAt updated = now
  ∧ (Post.updatedAt existing <= now →
     Post.updatedAt existing <= Post.updatedAt updated)
  ∧ Post.content updated
    = default (Post.content existing) (PostUpdate.content updates)
  ∧ Post.visibility updated
    = default (Post.visibility existing) (PostUpdate.visibility updates)
  ∧ userId = Some (Post.authorId existing)
  ∧ st' = InMemoryStorage.updatePost updated st
  ∧ InMemoryStorage.getPostById (Post.id existing) st' = Some updated.
Proof.
  intros Hget. unfold PostService.updatePost, PostService.authenticated.
  destruct userId as [u|]; [|discriminate].
  destruct (JsString.truthy u); [|discriminate].
  run. rewrite Hget. run.
  destruct (String.eqb_spec (Post.authorId existing) u) as [<-|];
    [|discriminate].
  run.
  destruct (PostUpdate.content updates) as [content|] eqn:Hcontent; run;
    [destruct (PostService.ValidationResult.valid
                 (PostService.validateContent
                    (PostService.ContentArg.Object content)));
       [run | discriminate] |];
    intros [= <- <-]; cbn; (split_and!; try reflexivity);
    try (intros; assumption);
    unfold InMemoryStorage.getPostById, InMemoryStorage.updatePost; cbn; apply get_set_same.
Qed.

Lemma updatePost_frame_witness :
  let st :=
    InMemoryStorage.createPost
      (Post.mk "p1" "alice" greeting friends_only 1000 2000 true)
      InMemoryStorage.empty in
  ∃ updated st',
    PostService.updatePost 3000 "p1" (Some "alice")
      (PostUpdate.mk None (Some public)) st = (inr updated, st')
    ∧ Post.createdAt updated = 1000
    ∧ Post.isEdited updated = true
    ∧ Post.updatedAt updated = 3000
    ∧ Post.content updated = greeting.
Proof.
  intros st. eexists _, _. split; [vm_compute; reflexivity|].
  pose proof (updatePost_frame 3000 "p1" (Some "alice")
                (PostUpdate.mk None (Some public)) st _ _ _
                ltac:(vm_compute; reflexivity) ltac:(vm_compute; reflexivity))
    as (_ & _ & Hcreated & Hedited & Hupdated & _ & Hcontent & _).
  split_and!; [exact Hcreated | exact Hedited | exact Hupdated | exact Hcontent].
Defined.

(** ** Registration *)

(** Registration with an empty email: the error thrown is the built-in
    [Error], which has no code and is not of kind [ValidationError]. *)
Lemma register_empty_email_plain_error :
  AuthenticationService.register (fun _ _ => "00") "u1" "5a" 0
    "" "alice" "secret" InMemoryStorage.empty
  = (inl (Error.PlainError requiredFields), InMemoryStorage.empty)
  ∧ ¬ isValidationError (Error.PlainError requiredFields)
  ∧ Error.isAppError (Error.PlainError requiredFields) = false.
Proof.
  split; [vm_compute; reflexivity|]. split; [|reflexivity].
  intros [Hname | Hcode]; discriminate.
Qed.

(** C8 (amended). When the email, the username or the password is the empty
    string, [register] throws the built-in [Error] with the message
    "Email, username, and password are required" (not an [AppError]: it has
    no code and no status), and the store is left as it was, so no user is
    stored. *)
Theorem register_empty_input (pbkdf2 : string -> string -> string)
  (uuid salt : string) (now : Date) (email username password : string)
  (st : InMemoryStorage.t) :
  email = "" ∨ username = "" ∨ password = "" →
  ∃ e : Error.t,
    AuthenticationService.register pbkdf2 uuid salt now
      email username password st = (inl e, st)
    ∧ e = Error.PlainError requiredFields
    ∧ Error.name e = "Error"
    ∧ Error.code e = None
    ∧ Error.statusCode e = None
    ∧ Error.isAppError e = false.
Proof.
  intros Hempty. exists (Error.PlainError requiredFields).
  split; [|by split_and!].
  unfold AuthenticationService.register. run.
  destruct Hempty as [-> | [-> | ->]]; cbn [JsString.truthy negb orb].
  - reflexivity.
  - rewrite orb_true_r. reflexivity.
  - rewrite orb_true_r. reflexivity.
Qed.

Lemma register_empty_input_witness :
  ∃ e : Error.t,
    AuthenticationService.register (fun _ _ => "00") "u2" "5a" 7
      "bob@example.com" "bob" "" two_users = (inl e, two_users)
    ∧ e = Error.PlainError requiredFields
    ∧ Error.name e = "Error"
    ∧ Error.code e = None
    ∧ Error.statusCode e = None
    ∧ Error.isAppError e = false.
Proof.
  apply (register_empty_input (fun _ _ => "00") "u2" "5a" 7
           "bob@example.com" "bob" "" two_users).
  right; right; reflexivity.
Defined.

(** ** Sessions *)

(** C10. When the session exists and has not expired but its user id
    resolves to no stored user, [validateSession] and
    [validateSessionByToken] return [null] and leave the store, and with it
    the session, untouched; either of them changes the store only when the
    session it found has expired. *)
Theorem validateSession_missing_user (now : Date) (session : Session.t)
  (st : InMemoryStorage.t) :
  ¬ (now > Session.expiresAt session) →
  InMemoryStorage.getUserById (Session.userId session) st = None →
  (∀ sessionId : string,
     InMemoryStorage.getSessionById sessionId st = Some session →
     AuthenticationService.validateSession now sessionId st = (inr None, st))
  ∧ (∀ token : string,
       InMemoryStorage.getSessionByToken token st = Some session →
       AuthenticationService.validateSessionByToken now token st
       = (inr None, st))
  ∧ (∀ sessionId : string,
       (AuthenticationService.validateSession now sessionId st).2 ≠ st →
       ∃ found : Session.t,
         InMemoryStorage.getSessionById sessionId st = Some found
         ∧ now > Session.expiresAt found)
  ∧ (∀ token : string,
       (AuthenticationService.validateSessionByToken now token st).2 ≠ st →
       ∃ found : Session.t,
         InMemoryStorage.getSessionByToken token st = Some found
         ∧ now > Session.expiresAt found).
Proof.
  intros Hfresh Huser.
  unfold AuthenticationService.validateSession,
    AuthenticationService.validateSessionByToken.
  split_and!.
  - intros sessionId Hget. run. rewrite Hget.
    destruct (Z.gtb_spec now (Session.expiresAt session)); [lia|].
    run. by rewrite Huser.
  - intros token Hget. run. rewrite Hget.
    destruct (Z.gtb_spec now (Session.expiresAt session)); [lia|].
    run. by rewrite Huser.
  - intros sessionId. run.
    destruct (InMemoryStorage.getSessionById sessionId st) as [found|]; [|done].
    destruct (Z.gtb_spec now (Session.expiresAt found)).
    + intros _. exists found. split; [reflexivity | lia].
    + run. done.
  - intros token. run.
    destruct (InMemoryStorage.getSessionByToken token st) as [found|]; [|done].
    destruct (Z.gtb_spec now (Session.expiresAt found)).
    + intros _. exists found. split; [reflexivity | lia].
    + run. done.
Qed.

Lemma validateSession_missing_user_witness :
  AuthenticationService.validateSession 50 "s1" orphaned = (inr None, orphaned)
  ∧ AuthenticationService.validateSessionByToken 50 "tok" orphaned
    = (inr None, orphaned)
  ∧ InMemoryStorage.getSessionById "s1" orphaned = Some orphan.
Proof.
  pose proof (validateSession_missing_user 50 orphan orphaned
                ltac:(cbn; lia) ltac:(vm_compute; reflexivity))
    as (Hid & Htoken & _).
  split_and!.
  - apply Hid. vm_compute. reflexivity.
  - apply Htoken. vm_compute. reflexivity.
  - vm_compute. reflexivity.
Defined.

(** ** Strings *)

Lemma append_cons (c : ascii) (s rest : string) :
  String c s +:+ rest = String c (s +:+ rest).
Proof. reflexivity. Qed.

Lemma append_nil (rest : string) : "" +:+ rest = rest.
Proof. reflexivity. Qed.

(** ** Dates and their ISO 8601 text *)

Lemma isLeapYear_true (y : Z) : leapYear y → JsDate.isLeapYear y = true.
Proof.
  unfold leapYear, JsDate.isLeapYear. intros [[H4 H100] | H400].
  - rewrite (proj2 (Z.eqb_eq _ _) H4), (proj2 (Z.eqb_neq _ _) H100).
    reflexivity.
  - rewrite (proj2 (Z.eqb_eq _ _) H400). apply orb_true_r.
Qed.

Lemma daysInMonth_bound (y m d : Z) :
  1 <= m <= 12 →
  d <= 28 ∨ (d <= 29 ∧ (m = 2 → leapYear y))
  ∨ (d <= 30 ∧ m ≠ 2)
  ∨ (d <= 31 ∧ m ≠ 2 ∧ m ≠ 4 ∧ m ≠ 6 ∧ m ≠ 9 ∧ m ≠ 11) →
  d <= JsDate.daysInMonth y m.
Proof.
  intros Hm Hd. unfold JsDate.daysInMonth.
  destruct (Z.eqb_spec m 2) as [->|].
  - destruct (JsDate.isLeapYear y) eqn:Hleap; [lia|].
    destruct Hd as [|[[? Hl]|[|]]]; try lia.
    rewrite (isLeapYear_true y (Hl eq_refl)) in Hleap. discriminate.
  - destruct (Z.eqb_spec m 4), (Z.eqb_spec m 6), (Z.eqb_spec m 9),
      (Z.eqb_spec m 11); cbn [orb]; lia.
Qed.

(** The calendar date of a day number has that day number, and is a date of
    the calendar. *)
Lemma daysFromCivil_civilFromDays (z : Z) :
  let '(y, m, d) := JsDate.civilFromDays z in
  JsDate.daysFromCivil y m d = z
  ∧ 1 <= m <= 12 ∧ 1 <= d <= JsDate.daysInMonth y m
  ∧ (z + 719468) / 146097 * 400 <= y <= (z + 719468) / 146097 * 400 + 400.
Proof.
  unfold JsDate.civilFromDays, JsDate.daysFromCivil. cbv zeta.
  set (z' := z + 719468).
  set (era := z' / 146097).
  set (doe := z' - era * 146097).
  assert (Hdoe : 0 <= doe < 146097)
    by (subst doe era; Z.div_mod_to_equations; lia).
  set (yoe := (doe - doe / 1460 + doe / 36524 - doe / 146096) / 365).
  assert (Hyoe : 0 <= yoe <= 399)
    by (subst yoe; Z.div_mod_to_equations; lia).
  set (doy := doe - (365 * yoe + yoe / 4 - yoe / 100)).
  assert (Hdoy : 0 <= doy <= 365)
    by (subst doy yoe; Z.div_mod_to_equations; lia).
  assert (Hleap : doy = 365 → leapYear (yoe + 1))
    by (unfold leapYear; subst doy yoe; Z.div_mod_to_equations; lia).
  set (mp := (5 * doy + 2) / 153).
  assert (Hmp : 0 <= mp <= 11) by (subst mp; Z.div_mod_to_equations; lia).
  set (d := doy - (153 * mp + 2) / 5 + 1).
  set (y := yoe + era * 400).
  assert (Hm : ∃ m, (if mp <? 10 then mp + 3 else mp - 9) = m
                    ∧ 1 <= m <= 12
                    ∧ ((mp < 10 ∧ m = mp + 3) ∨ (10 <= mp ∧ m = mp - 9))
                    ∧ (if m >? 2 then m - 3 else m + 9) = mp).
  { eexists; split; [reflexivity|].
    destruct (Z.ltb_spec mp 10).
    - destruct (Z.gtb_spec (mp + 3) 2); lia.
    - destruct (Z.gtb_spec (mp - 9) 2); lia. }
  destruct Hm as (m & -> & Hm & Hjanfeb & ->).
  assert (Hera : ∀ y', y' = y → y' / 400 = era ∧ y' - era * 400 = yoe).
  { intros y' ->. subst y. split; [Z.div_mod_to_equations|]; lia. }
  split_and!.
  - destruct (Z.leb_spec m 2).
    + destruct (Hera (y + 1 - 1) ltac:(lia)) as [-> ->]. subst d doy doe z'. lia.
    + destruct (Hera y eq_refl) as [-> ->]. subst d doy doe z'. lia.
  - lia.
  - lia.
  - subst d mp. Z.div_mod_to_equations. lia.
  - apply daysInMonth_bound; [exact Hm|].
    assert (Hfeb : doy = 365 → leapYear (y + 1)).
    { intros H365. specialize (Hleap H365). unfold leapYear in *. subst y.
      clearbody yoe era. clear -Hleap. Z.div_mod_to_equations. lia. }
    destruct (Z.leb_spec m 2) as [Hle|Hgt].
    + destruct (Z.eq_dec doy 365) as [H365|Hne].
      * right; left. split; [subst d mp; Z.div_mod_to_equations; lia|].
        intros _. exact (Hfeb H365).
      * assert (Hcases : mp = 10 ∨ mp = 11) by lia.
        assert (Hm' : m = mp - 9) by lia.
        subst d. clearbody doy y. clear -Hcases Hm' Hne Hdoy Hmp.
        revert Hmp. generalize (eq_refl mp). unfold mp at 2.
        intros Hdef Hmp.
        destruct Hcases as [H|H]; rewrite H in *.
        -- right; right; right. Z.div_mod_to_equations. lia.
        -- left. Z.div_mod_to_equations. lia.
    + assert (Hm' : m = mp + 3) by lia.
      assert (Hcases : mp = 0 ∨ mp = 1 ∨ mp = 2 ∨ mp = 3 ∨ mp = 4 ∨ mp = 5
                       ∨ mp = 6 ∨ mp = 7 ∨ mp = 8 ∨ mp = 9) by lia.
      subst d. clearbody doy y. clear -Hcases Hm' Hdoy Hmp.
      revert Hmp. generalize (eq_refl mp). unfold mp at 2.
      intros Hdef Hmp.
      decompose [or] Hcases; clear Hcases;
        match goal with H : mp = _ |- _ => rewrite H in * end;
        first [ right; right; right; Z.div_mod_to_equations; lia
              | right; right; left; Z.div_mod_to_equations; lia ].
  - destruct (Z.leb_spec m 2); subst y; lia.
  - destruct (Z.leb_spec m 2); subst y; lia.
Qed.

Lemma digitValue_digit (d : Z) :
  0 <= d <= 9 → JsDate.digitValue (JsDate.digit d) = Some d.
Proof.
  intros Hd.
  assert (Hcases : d = 0 ∨ d = 1 ∨ d = 2 ∨ d = 3 ∨ d = 4 ∨ d = 5 ∨ d = 6
                   ∨ d = 7 ∨ d = 8 ∨ d = 9) by lia.
  decompose [or] Hcases; subst d; reflexivity.
Qed.

Lemma readDigits_pad (k : nat) (v acc : Z) (rest : string) :
  0 <= v < 10 ^ Z.of_nat k →
  JsDate.readDigits k acc (JsDate.pad k v +:+ rest)
  = Some (acc * 10 ^ Z.of_nat k + v, rest).
Proof.
  revert v acc. induction k as [|k IH]; intros v acc Hv.
  - cbn. f_equal. f_equal. change (10 ^ Z.of_nat 0) with 1 in *. lia.
  - cbn [JsDate.pad JsDate.readDigits]. rewrite append_cons.
    rewrite Nat2Z.inj_succ, Z.pow_succ_r in Hv by lia.
    assert (Hpow : 0 < 10 ^ Z.of_nat k) by (apply Z.pow_pos_nonneg; lia).
    rewrite digitValue_digit.
    2: { split; [apply Z.div_pos; lia|].
         apply Z.lt_succ_r, Z.div_lt_upper_bound; lia. }
    rewrite IH by (apply Z.mod_pos_bound; lia).
    f_equal. f_equal.
    rewrite Nat2Z.inj_succ, Z.pow_succ_r by lia.
    pose proof (Z.div_mod v (10 ^ Z.of_nat k) ltac:(lia)). lia.
Qed.

Lemma readYear_digits (y : Z) (rest : string) :
  0 <= y <= 9999 →
  JsDate.readYear (JsDate.pad 4 y +:+ rest) = Some (y, rest).
Proof.
  intros Hy.
  transitivity (JsDate.readDigits 4 0 (JsDate.pad 4 y +:+ rest)).
  2: { rewrite readDigits_pad by (change (10 ^ Z.of_nat 4) with 10000; lia).
       by rewrite Z.mul_0_l, Z.add_0_l. }
  cbn [JsDate.pad]. rewrite append_cons.
  assert (Hcases : ∃ d, y / 10 ^ Z.of_nat 3 = d ∧ 0 <= d <= 9).
  { eexists; split; [reflexivity|].
    change (10 ^ Z.of_nat 3) with 1000. Z.div_mod_to_equations. lia. }
  destruct Hcases as (d & -> & Hd).
  assert (Hcases : d = 0 ∨ d = 1 ∨ d = 2 ∨ d = 3 ∨ d = 4 ∨ d = 5 ∨ d = 6
                   ∨ d = 7 ∨ d = 8 ∨ d = 9) by lia.
  decompose [or] Hcases; subst d; reflexivity.
Qed.

Lemma expect_here (c : ascii) (rest : string) :
  JsDate.expect c (String c rest) = Some rest.
Proof. cbn. by rewrite Ascii.eqb_refl. Qed.

(** [Date.parse] reads back what [toISOString] writes. *)
Lemma parse_toISOString (t : Z) :
  JsDate.isValid t = true →
  ∃ s : string,
    JsDate.toISOString t = Some s
    ∧ JsDate.parse s = Some t
    ∧ JsString.truthy s = true.
Proof.
  intros Hvalid. unfold JsDate.toISOString. rewrite Hvalid.
  pose proof (daysFromCivil_civilFromDays (t / JsDate.msPerDay)) as Hcivil.
  destruct (JsDate.civilFromDays (t / JsDate.msPerDay)) as [[y m] d].
  destruct Hcivil as (Hdays & Hm & Hd & Hy).
  eexists; split; [reflexivity|].
  unfold JsDate.isValid, JsDate.maxTime in Hvalid.
  apply andb_true_iff in Hvalid as [Hlo%Z.leb_le Hhi%Z.leb_le].
  unfold JsDate.msPerDay in *.
  assert (Hyear : -999999 <= y <= 999999)
    by (clear -Hy Hlo Hhi; Z.div_mod_to_equations; lia).
  assert (Hd31 : d <= 31).
  { etransitivity; [exact (proj2 Hd)|]. unfold JsDate.daysInMonth.
    repeat match goal with |- context [if ?c then _ else _] => destruct c end;
      lia. }
  set (ms := t mod 86400000).
  assert (Hms : 0 <= ms < 86400000) by (apply Z.mod_pos_bound; lia).
  set (tail := "-" +:+ JsDate.pad 2 m +:+ _).
  assert (Htail : ∀ rest, rest = tail →
    (s ← JsDate.expect "-" rest;
     '(m, s) ← JsDate.readDigits 2 0 s;
     s ← JsDate.expect "-" s;
     '(d, s) ← JsDate.readDigits 2 0 s;
     s ← JsDate.expect "T" s;
     '(h, s) ← JsDate.readDigits 2 0 s;
     s ← JsDate.expect ":" s;
     '(mi, s) ← JsDate.readDigits 2 0 s;
     s ← JsDate.expect ":" s;
     '(sec, s) ← JsDate.readDigits 2 0 s;
     s ← JsDate.expect "." s;
     '(ms, s) ← JsDate.readDigits 3 0 s;
     s ← JsDate.expect "Z" s;
     if negb (String.eqb s "") then None
     else if negb ((1 <=? m) && (m <=? 12) && (1 <=? d)
                   && (d <=? JsDate.daysInMonth y m)
                   && (h <=? 23) && (mi <=? 59) && (sec <=? 59)) then None
     else
       let t := JsDate.daysFromCivil y m d * 86400000
                + h * 3600000 + mi * 60000 + sec * 1000 + ms in
       if JsDate.isValid t then Some t else None) = Some t).
  { intros rest ->. subst tail.
    repeat (rewrite ?append_cons, ?append_nil;
            (rewrite expect_here || rewrite readDigits_pad);
            cbn [mbind option_bind]);
      change (10 ^ Z.of_nat 2) with 100; change (10 ^ Z.of_nat 3) with 1000;
      try (subst ms; clear -Hms Hm Hd Hd31; Z.div_mod_to_equations; lia).
    cbn [String.eqb negb]. rewrite !Z.mul_0_l, !Z.add_0_l.
    rewrite (proj2 (Z.leb_le 1 m)), (proj2 (Z.leb_le m 12)),
      (proj2 (Z.leb_le 1 d)), (proj2 (Z.leb_le d _) (proj2 Hd)) by lia.
    rewrite (proj2 (Z.leb_le _ 23)), !(proj2 (Z.leb_le _ 59))
      by (clear -Hms; Z.div_mod_to_equations; lia).
    cbn [andb negb]. rewrite Hdays.
    assert (Ht : t / 86400000 * 86400000 + ms / 3600000 * 3600000
                 + ms / 60000 mod 60 * 60000 + ms / 1000 mod 60 * 1000
                 + ms mod 1000 = t).
    { subst ms. clear. Z.div_mod_to_equations. lia. }
    cbv zeta. rewrite Ht.
    unfold JsDate.isValid, JsDate.maxTime.
    rewrite (proj2 (Z.leb_le _ t)), (proj2 (Z.leb_le t _)) by lia.
    reflexivity. }
  split.
  - unfold JsDate.parse.
    destruct (Z.leb_spec 0 y) as [Hpos|Hneg]; cbn [andb].
    + destruct (Z.leb_spec y 9999).
      * rewrite readYear_digits by lia. cbn [mbind option_bind].
        apply Htail. reflexivity.
      * rewrite ?append_cons; cbn [JsDate.readYear].
        destruct (Z.ltb_spec y 0); [lia|]. rewrite ?append_cons; cbn [JsDate.readYear].
        rewrite readDigits_pad by (change (10 ^ Z.of_nat 6) with 1000000; lia).
        cbn [mbind option_bind]. rewrite Z.mul_0_l, Z.add_0_l.
        apply Htail. reflexivity.
    + destruct (Z.ltb_spec y 0); [|lia]. rewrite ?append_cons; cbn [JsDate.readYear].
      rewrite readDigits_pad by (change (10 ^ Z.of_nat 6) with 1000000; lia).
      cbn [mbind option_bind]. rewrite Z.mul_0_l, Z.add_0_l.
      destruct (Z.eqb_spec (- y) 0); [lia|]. cbn [mbind option_bind].
      rewrite Z.opp_involutive. apply Htail. reflexivity.
  - destruct ((0 <=? y) && (y <=? 9999)); [|destruct (y <? 0)]; reflexivity.
Qed.

(** ** JSON text *)

Lemma append_assoc (a b c : string) : (a +:+ b) +:+ c = a +:+ (b +:+ c).
Proof. induction a as [|x a IH]; [reflexivity|]. rewrite !append_cons. by rewrite IH. Qed.

Lemma append_nil_r (a : string) : a +:+ "" = a.
Proof. induction a as [|x a IH]; [reflexivity|]. rewrite append_cons. by rewrite IH. Qed.

Lemma length_append (a b : string) :
  String.length (a +:+ b) = (String.length a + String.length b)%nat.
Proof. induction a as [|x a IH]; [reflexivity|]. rewrite append_cons. cbn. by rewrite IH. Qed.

Lemma literal_append (lit rest : string) :
  Json.literal lit (lit +:+ rest) = Some rest.
Proof.
  induction lit as [|c lit IH]; [reflexivity|].
  rewrite append_cons. cbn. by rewrite Ascii.eqb_refl.
Qed.

(** Reading one escaped code unit. *)
Lemma parseString_escapeChar (c : ascii) (s : string) :
  Json.parseString (Json.escapeChar c +:+ s)
  = '(str, rest) ← Json.parseString s; Some (String c str, rest).
Proof.
  destruct c as [[] [] [] [] [] [] [] []]; reflexivity.
Qed.

Lemma parseString_escape (s rest : string) :
  Json.parseString (Json.escape s +:+ String Json.quoteChar rest)
  = Some (s, rest).
Proof.
  induction s as [|c s IH]; [reflexivity|].
  cbn [Json.escape]. rewrite append_assoc, parseString_escapeChar, IH.
  reflexivity.
Qed.

Lemma parseString_quote (s rest : string) :
  Json.literal (String Json.quoteChar "") (Json.quote s +:+ rest)
  = Some (Json.escape s +:+ String Json.quoteChar rest).
Proof.
  unfold Json.quote. rewrite append_cons, append_assoc. reflexivity.
Qed.

(** No value starts with a bracket that closes an array or an object. *)
Lemma stringify_not_closing (v : Json.t) (rest : string) :
  Json.literal "]" (Json.stringify v +:+ rest) = None
  ∧ (0 < String.length (Json.stringify v))%nat.
Proof.
  destruct v as [|[]|s|items|fields];
    (split; [reflexivity|]); cbn [Json.stringify]; unfold Json.quote;
    rewrite ?append_cons; cbn [String.length]; lia.
Qed.

Lemma joinMap_cons {A : Type} (f : A -> string) (x : A) (l : list A) :
  ∃ tail : string,
    Json.joinMap f (x :: l) = f x +:+ tail
    ∧ (l = [] → tail = "")
    ∧ (l ≠ [] → tail = "," +:+ Json.joinMap f l).
Proof.
  destruct l as [|y l].
  - exists "". cbn. rewrite append_nil_r. done.
  - eexists. split; [reflexivity|]. done.
Qed.

Lemma parse_stringify_fuel (fuel : nat) :
  (∀ (v : Json.t) (rest : string),
     (String.length (Json.stringify v) <= fuel)%nat →
     Json.parseValue fuel (Json.stringify v +:+ rest) = Some (v, rest))
  ∧ (∀ (items : list Json.t) (rest : string),
       items ≠ [] →
       (String.length (Json.joinMap Json.stringify items) < fuel)%nat →
       Json.parseElements fuel
         (Json.joinMap Json.stringify items +:+ String "]" rest)
       = Some (items, rest))
  ∧ (∀ (fields : list (string * Json.t)) (rest : string),
       fields ≠ [] →
       (String.length (Json.joinMap fieldText fields) < fuel)%nat →
       Json.parseFields fuel
         (Json.joinMap fieldText fields +:+ String "}" rest)
       = Some (fields, rest)).
Proof.
  induction fuel as [|fuel (IHvalue & IHelements & IHfields)].
  { split_and!.
    - intros v rest Hlen.
      pose proof (proj2 (stringify_not_closing v "")). lia.
    - intros; lia.
    - intros; lia. }
  split_and!.
  - intros v rest Hlen. destruct v as [|[]|s|items|fields].
    + reflexivity.
    + reflexivity.
    + reflexivity.
    + cbn [Json.stringify Json.parseValue]. unfold Json.quote.
      rewrite append_cons, append_assoc, append_cons, append_nil.
      change (Json.parseValue (S fuel) (String Json.quoteChar ?x))
        with ('(str, rest) ← Json.parseString x; Some (Json.Str str, rest)).
      by rewrite parseString_escape.
    + cbn [Json.stringify] in *.
      rewrite !append_cons, append_nil, append_assoc, append_cons, append_nil in *.
      destruct items as [|x items]; [reflexivity|].
      change (Json.parseValue (S fuel) (String "[" ?x))
        with (match Json.literal "]" x with
              | Some rest => Some (Json.Arr [], rest)
              | None =>
                  '(items, rest) ← Json.parseElements fuel x;
                  Some (Json.Arr items, rest)
              end).
      destruct (joinMap_cons Json.stringify x items) as (tail & Hjoin & _).
      rewrite Hjoin at 1. rewrite append_assoc.
      rewrite (proj1 (stringify_not_closing x _)).
      rewrite IHelements; [reflexivity | done |].
      cbn [String.length] in Hlen. rewrite length_append in Hlen.
      cbn [String.length] in Hlen. lia.
    + cbn [Json.stringify] in *. fold fieldText in *.
      rewrite !append_cons, append_nil, append_assoc, append_cons, append_nil in *.
      destruct fields as [|[k x] fields]; [reflexivity|].
      change (Json.parseValue (S fuel) (String "{" ?x))
        with (match Json.literal "}" x with
              | Some rest => Some (Json.Obj [], rest)
              | None =>
                  '(fields, rest) ← Json.parseFields fuel x;
                  Some (Json.Obj fields, rest)
              end).
      destruct (joinMap_cons fieldText (k, x) fields) as (tail & Hjoin & _).
      rewrite Hjoin at 1. unfold fieldText at 1, Json.quote at 1.
      rewrite !append_cons.
      change (Json.literal "}" (String Json.quoteChar ?x)) with (@None string).
      rewrite IHfields; [reflexivity | done |].
      cbn [String.length] in Hlen. rewrite length_append in Hlen.
      cbn [String.length] in Hlen. lia.
  - intros items rest Hne Hlen. destruct items as [|x items]; [done|].
    destruct (joinMap_cons Json.stringify x items) as (tail & Hjoin & Hnil & Hcons).
    rewrite Hjoin in *. rewrite length_append in Hlen.
    cbn [Json.parseElements]. rewrite append_assoc.
    rewrite IHvalue by lia. cbn [mbind option_bind].
    destruct items as [|y items].
    + rewrite Hnil by done. reflexivity.
    + rewrite Hcons in * by done. rewrite !append_cons, ?append_nil in *.
      cbn [String.length] in Hlen.
      cbn beta iota. change (Ascii.eqb "," ",") with true. cbn beta iota.
      rewrite IHelements; [reflexivity | done | lia].
  - intros fields rest Hne Hlen. destruct fields as [|[k x] fields]; [done|].
    destruct (joinMap_cons fieldText (k, x) fields) as (tail & Hjoin & Hnil & Hcons).
    rewrite Hjoin in *.
    change (fieldText (k, x))
      with (Json.quote k +:+ ":" +:+ Json.stringify x) in *.
    rewrite !length_append in Hlen. cbn [String.length] in Hlen.
    cbn [Json.parseFields]. rewrite !append_assoc.
    rewrite parseString_quote. cbn [mbind option_bind].
    rewrite parseString_escape. cbn [mbind option_bind].
    rewrite literal_append. cbn [mbind option_bind].
    rewrite IHvalue by lia. cbn [mbind option_bind].
    destruct fields as [|y fields].
    + rewrite Hnil by done. reflexivity.
    + rewrite Hcons in * by done. rewrite !append_cons, ?append_nil in *.
      cbn [String.length] in Hlen.
      cbn beta iota. change (Ascii.eqb "," ",") with true. cbn beta iota.
      rewrite IHfields; [reflexivity | done | lia].
Qed.

(** [JSON.parse] reads back what [JSON.stringify] writes. *)
Lemma parse_stringify (v : Json.t) : Json.parse (Json.stringify v) = Some v.
Proof.
  unfold Json.parse.
  pose proof (proj1 (parse_stringify_fuel (String.length (Json.stringify v)))
                v "" ltac:(lia)) as Hparse.
  rewrite append_nil_r in Hparse. by rewrite Hparse.
Qed.

(** ** Serialization *)

Lemma truthy_nonempty (s : string) : s ≠ "" → JsString.truthy s = true.
Proof. by destruct s. Qed.

Lemma deserialize_serialized (post : Post.t) (createdAt updatedAt : string) :
  validPost post →
  JsString.truthy createdAt = true →
  JsString.truthy updatedAt = true →
  JsDate.parse createdAt = Some (Post.createdAt post) →
  JsDate.parse updatedAt = Some (Post.updatedAt post) →
  SerializationService.deserializePost
    (Json.stringify (SerializationService.serialized post createdAt updatedAt))
  = Outcome.Returns (declaredFields post).
Proof.
  intros (Hid%truthy_nonempty & Hauthor%truthy_nonempty & _ & _)
    Hcreated Hupdated Hparse1 Hparse2.
  unfold SerializationService.deserializePost. rewrite parse_stringify.
  destruct post as [id authorId [type textValue mediaUrl mimeType fileSize]
                      visibility created updated isEdited].
  unfold declaredFields, validPost in *.
  cbn [Post.id Post.authorId Post.content Post.visibility Post.createdAt
       Post.updatedAt Post.isEdited PostContent.type PostContent.text
       PostContent.mediaUrl] in *.
  destruct type, textValue as [textValue|], mediaUrl as [mediaUrl|],
    visibility;
    cbn; rewrite Hid; cbn; rewrite Hauthor; cbn; rewrite Hcreated; cbn;
    rewrite Hupdated; cbn; rewrite Hparse1, Hparse2; reflexivity.
Qed.

(** The image post comes out of [createPost] and is valid, and the round
    trip returns it without [mimeType] and [fileSize]. *)
Lemma serialize_drops_file_metadata :
  (PostService.createPost "p1" 1704103200000 (Some "alice")
     (Post.content snapshot) (Some public) InMemoryStorage.empty).1
  = inr snapshot
  ∧ validPost snapshot
  ∧ match SerializationService.serializePost snapshot with
    | inr json =>
        SerializationService.deserializePost json
        = Outcome.Returns
            (Post.mk "p1" "alice"
               (PostContent.mk image None (Some "https://cdn.example/a.png")
                  None None)
               public 1704103200000 1704103200000 false)
        ∧ SerializationService.deserializePost json
          ≠ Outcome.Returns snapshot
    | inl _ => False
    end.
Proof.
  split; [vm_compute; reflexivity|]. split.
  - unfold validPost. cbn. split_and!; [discriminate.. | reflexivity | reflexivity].
  - vm_compute. split; [reflexivity | discriminate].
Qed.

(** C7 (amended). For every valid post, [serializePost] returns a text on
    which [deserializePost] returns the post with equal id, author id,
    visibility, edit flag, creation and update instants (to the millisecond)
    and with the [type], [text] and [mediaUrl] of its content; the [mimeType]
    and [fileSize] that a content object may carry are not written, so the
    result equals the post exactly when its content carries neither. *)
Theorem deserialize_serialize (post : Post.t) :
  validPost post →
  ∃ json : string,
    SerializationService.serializePost post = inr json
    ∧ SerializationService.deserializePost json
      = Outcome.Returns (declaredFields post)
    ∧ (SerializationService.deserializePost json = Outcome.Returns post
       ↔ PostContent.mimeType (Post.content post) = None
         ∧ PostContent.fileSize (Post.content post) = None).
Proof.
  intros Hvalid.
  destruct (parse_toISOString (Post.createdAt post))
    as (createdAt & Hprint1 & Hparse1 & Htruthy1); [apply Hvalid|].
  destruct (parse_toISOString (Post.updatedAt post))
    as (updatedAt & Hprint2 & Hparse2 & Htruthy2); [apply Hvalid|].
  exists (Json.stringify
            (SerializationService.serialized post createdAt updatedAt)).
  split; [|split].
  - unfold SerializationService.serializePost.
    by rewrite Hprint1, Hprint2.
  - by apply deserialize_serialized.
  - rewrite deserialize_serialized by assumption.
    destruct post as [id authorId [type textValue mediaUrl mimeType fileSize]
                        visibility created updated isEdited].
    unfold declaredFields; cbn. split.
    + intros [= <- <-]. done.
    + intros [-> ->]. reflexivity.
Qed.

Lemma deserialize_serialize_witness :
  ∃ json : string,
    SerializationService.serializePost note = inr json
    ∧ SerializationService.deserializePost json
      = Outcome.Returns (declaredFields note)
    ∧ (SerializationService.deserializePost json = Outcome.Returns note
       ↔ PostContent.mimeType (Post.content note) = None
         ∧ PostContent.fileSize (Post.content note) = None).
Proof.
  apply (deserialize_serialize note).
  unfold validPost. cbn.
  split_and!; [discriminate | discriminate | reflexivity | reflexivity].
Defined.

(** ** Scenarios of the test suites

    The expectations of some of the repository's tests and of the worked
    examples of its documentation, evaluated on the model. *)

(** [removeFriend] removes both directions. *)
Example removeFriend_both_directions :
  let st := after (RemoveFriend "alice" "bob") befriended in
  InMemoryStorage.areFriends "alice" "bob" befriended = true
  ∧ InMemoryStorage.areFriends "bob" "alice" befriended = true
  ∧ InMemoryStorage.areFriends "alice" "bob" st = false
  ∧ InMemoryStorage.areFriends "bob" "alice" st = false.
Proof. vm_compute. done. Qed.

(** A pending or a declined request makes no friends. *)
Example areFriends_needs_accept :
  InMemoryStorage.areFriends "alice" "bob" requested = false
  ∧ InMemoryStorage.areFriends "alice" "bob" turned_down = false.
Proof. vm_compute. done. Qed.

(** Only the recipient may accept a pending request. *)
Example acceptFriendRequest_by_sender :
  (FriendService.acceptFriendRequest 2 "r1" "alice" requested).1
  = inl (Error.ForbiddenError recipientOnly).
Proof. vm_compute. reflexivity. Qed.

(** A friends-only post of Bob's is denied to the anonymous viewer and to
    Alice until Bob has accepted her request. *)
Example getPost_friends_only :
  let secret :=
    Post.mk "p9" "bob" greeting friends_only 5 5 false in
  (PostService.getPost "p9" None
     (InMemoryStorage.createPost secret requested)).1
  = inl Error.AccessDeniedError
  ∧ (PostService.getPost "p9" (Some "alice")
       (InMemoryStorage.createPost secret requested)).1
    = inl Error.AccessDeniedError
  ∧ (PostService.getPost "p9" (Some "alice")
       (InMemoryStorage.createPost secret befriended)).1
    = inr (Some secret)
  ∧ (PostService.getPost "p0" (Some "alice")
       (InMemoryStorage.createPost secret befriended)).1
    = inr None.
Proof. vm_compute. done. Qed.

(** An offset beyond the visible posts gives an empty last page. *)
Example getFeed_offset_beyond_total :
  FeedService.getFeed (Some "viewer_123") (Pagination.mk 10 10) three_posts
  = FeedResult.mk [] false 3.
Proof. vm_compute. reflexivity. Qed.

(** A post with an invalid creation date among valid ones: the comparator
    yields [NaN] against it, the post keeps its place between its
    neighbours, and the page is not ordered by date. *)
Example getFeed_invalid_date :
  FeedResult.posts
    (FeedService.getFeed None (Pagination.mk 10 0)
       (InMemoryStorage.createPost (story "b" 3)
          (InMemoryStorage.createPost (story "x" (JsDate.maxTime + 1))
             (InMemoryStorage.createPost (story "a" 1)
                InMemoryStorage.empty))))
  = [story "a" 1; story "x" (JsDate.maxTime + 1); story "b" 3].
Proof. vm_compute. reflexivity. Qed.

(** Posts created at the same instant come in the order of the store. *)
Example getFeed_ties_in_store_order :
  FeedResult.posts
    (FeedService.getFeed None (Pagination.mk 10 0)
       (InMemoryStorage.createPost (story "b" 1)
          (InMemoryStorage.createPost (story "c" 2)
             (InMemoryStorage.createPost (story "a" 1)
                InMemoryStorage.empty))))
  = [story "c" 2; story "a" 1; story "b" 1].
Proof. vm_compute. reflexivity. Qed.

(** Errors of an image content accumulate; a size at the limit is valid;
    [null] and an object of another type are refused. *)
Example validateContent_image :
  PostService.validateContent
    (PostService.ContentArg.Object
       (PostContent.mk image None None (Some "image/bmp")
          (Some (15 * 1024 * 1024))))
  = PostService.ValidationResult.mk false
      [ "Unsupported image format. Supported formats: JPEG, PNG, GIF";
        "Image file exceeds maximum size of 10MB" ]
  ∧ PostService.ValidationResult.valid
      (PostService.validateContent
         (PostService.ContentArg.Object
            (PostContent.mk image None None (Some "image/jpeg")
               (Some MAX_IMAGE_SIZE)))) = true
  ∧ PostService.validateContent
      (PostService.ContentArg.Object
         (PostContent.mk image None None None None))
    = PostService.ValidationResult.mk false ["Image content cannot be empty"]
  ∧ PostService.validateContent PostService.ContentArg.Nullish
    = PostService.ValidationResult.mk false ["Content cannot be empty"]
  ∧ PostService.validateContent PostService.ContentArg.OtherType
    = PostService.ValidationResult.mk false ["Invalid content type"].
Proof. vm_compute. done. Qed.

(** A text of white space only is empty. *)
Example createPost_blank_text :
  (PostService.createPost "p1" 0 (Some "user_123")
     (PostContent.mk text (Some "   ") None None None) None
     InMemoryStorage.empty).1
  = inl Error.EmptyContentError.
Proof. vm_compute. reflexivity. Qed.

(** A post created without a visibility is friends-only and not edited. *)
Example createPost_default_visibility :
  (PostService.createPost "p1" 7 (Some "u1") greeting None
     InMemoryStorage.empty).1
  = inr (Post.mk "p1" "u1" greeting friends_only 7 7 false).
Proof. vm_compute. reflexivity. Qed.

(** An edit by a user who is not the author is denied and changes nothing. *)
Example updatePost_by_stranger :
  PostService.updatePost 9 "p1" (Some "bob")
    (PostUpdate.mk (Some greeting) None) three_posts
  = (inl Error.AccessDeniedError, three_posts).
Proof. vm_compute. reflexivity. Qed.

(** Registering an email again in another letter case is a duplicate. *)
Example register_duplicate_email :
  let registered :=
    AuthenticationService.register (fun _ _ => "00") "u1" "5a" 0
      "alice@example.com" "alice" "pw1" InMemoryStorage.empty in
  registered.1
  = inr (User.mk "u1" "alice@example.com" "alice" "5a:00" 0)
  ∧ (AuthenticationService.register (fun _ _ => "00") "u2" "6b" 1
       "ALICE@EXAMPLE.COM" "alice2" "pw2" registered.2).1
    = inl Error.DuplicateEmailError.
Proof. vm_compute. done. Qed.

(** An expired session is deleted when it is validated. *)
Example validateSession_expired :
  let result := AuthenticationService.validateSession 101 "s1" orphaned in
  result.1 = inr None
  ∧ InMemoryStorage.getSessionById "s1" result.2 = None
  ∧ InMemoryStorage.getSessionByToken "tok" result.2 = None.
Proof. vm_compute. done. Qed.

(** The ISO 8601 text of some instants, and what [Date.parse] makes of
    a date that the calendar does not have. *)
Example toISOString_samples :
  JsDate.toISOString 0 = Some "1970-01-01T00:00:00.000Z"
  ∧ JsDate.toISOString 1704103200000 = Some "2024-01-01T10:00:00.000Z"
  ∧ JsDate.toISOString (-1) = Some "1969-12-31T23:59:59.999Z"
  ∧ JsDate.toISOString 8640000000000000 = Some "+275760-09-13T00:00:00.000Z"
  ∧ JsDate.toISOString (-62198755200000) = Some "-000001-01-01T00:00:00.000Z"
  ∧ JsDate.toISOString 8640000000000001 = None
  ∧ JsDate.parse "2024-02-29T10:00:00.000Z" = Some 1709200800000
  ∧ JsDate.parse "2023-02-29T10:00:00.000Z" = None
  ∧ JsDate.parse "invalid-date" = None.
Proof. vm_compute. done. Qed.

(** Texts that [deserializePost] rejects. *)
Example deserializePost_rejects :
  SerializationService.deserializePost "invalid json"
  = Outcome.Throws (Error.NativeError "SyntaxError")
  ∧ SerializationService.deserializePost "null"
    = Outcome.Throws (Error.NativeError "TypeError")
  ∧ SerializationService.deserializePost "{}"
    = Outcome.Throws (Error.PlainError "Invalid post: missing or invalid id")
  ∧ SerializationService.deserializePost
      (Json.stringify
         (Json.Obj [("id", Json.Str "p1"); ("authorId", Json.Str "a");
                    ("content", Json.Obj [("type", Json.Str "audio")])]))
    = Outcome.Throws (Error.PlainError "Invalid post: invalid content type").
Proof. vm_compute. done. Qed.

(** * Further properties *)

(** ** Insertion-ordered maps *)

Section JsMapFacts.
Context {V : Type}.
Implicit Types (m : list (string * V)) (k : string) (v : V).

Lemma get_set_other k k' v m :
  k ≠ k' → JsMap.get k' (JsMap.set k v m) = JsMap.get k' m.
Proof.
  intros Hne. induction m as [|[k0 v0] m IH]; cbn.
  - destruct (String.eqb_spec k' k); congruence.
  - destruct (String.eqb_spec k k0) as [->|]; cbn.
    + destruct (String.eqb_spec k' k0); congruence.
    + destruct (String.eqb_spec k' k0); auto.
Qed.

Lemma get_alter (f : V -> V) k k' m :
  JsMap.get k' (JsMap.alter f k m)
  = if decide (k = k') then f <$> JsMap.get k' m else JsMap.get k' m.
Proof.
  unfold JsMap.alter.
  induction m as [|[k0 v0] m IH]; cbn [map JsMap.get fst snd].
  - by destruct (decide (k = k')).
  - destruct (String.eqb_spec k k0) as [->|Hk]; cbn [JsMap.get].
    + destruct (String.eqb_spec k' k0) as [->|Hk'].
      * by rewrite decide_True.
      * rewrite IH. destruct (decide (k0 = k')); congruence.
    + destruct (String.eqb_spec k' k0) as [->|Hk'].
      * by rewrite decide_False.
      * exact IH.
Qed.

Lemma get_delete_other k k' m :
  k ≠ k' → JsMap.get k' (JsMap.delete k m) = JsMap.get k' m.
Proof.
  intros Hne. induction m as [|[k0 v0] m IH]; cbn; [reflexivity|].
  destruct (String.eqb_spec k k0) as [->|]; cbn.
  - destruct (String.eqb_spec k' k0); congruence.
  - destruct (String.eqb_spec k' k0); auto.
Qed.

Lemma get_None_keys k m : JsMap.get k m = None ↔ ¬ In k (map fst m).
Proof.
  induction m as [|[k0 v0] m IH]; cbn; [tauto|].
  destruct (String.eqb_spec k k0) as [->|]; [|rewrite IH]; naive_solver.
Qed.

Lemma get_Some_In k v m : JsMap.get k m = Some v → In (k, v) m.
Proof.
  induction m as [|[k0 v0] m IH]; cbn; [discriminate|].
  destruct (String.eqb_spec k k0) as [->|]; [intros [= ->]|]; auto.
Qed.

Lemma get_delete_same k m :
  uniqueKeys m → JsMap.get k (JsMap.delete k m) = None.
Proof.
  unfold uniqueKeys. induction m as [|[k0 v0] m IH]; cbn; [reflexivity|].
  intros [Hfresh Hnodup]%NoDup_cons.
  destruct (String.eqb_spec k k0) as [->|Hne]; cbn.
  - apply get_None_keys. by rewrite <- list_elem_of_In.
  - destruct (String.eqb_spec k k0); [congruence | auto].
Qed.

Lemma keys_set k v m :
  map fst (JsMap.set k v m)
  = if is_some (JsMap.get k m) then map fst m else app (map fst m) [k].
Proof.
  induction m as [|[k0 v0] m IH]; cbn; [reflexivity|].
  destruct (String.eqb_spec k k0) as [->|]; cbn; [reflexivity|].
  rewrite IH. by destruct (is_some (JsMap.get k m)).
Qed.

Lemma uniqueKeys_set k v m : uniqueKeys m → uniqueKeys (JsMap.set k v m).
Proof.
  unfold uniqueKeys. rewrite keys_set.
  destruct (JsMap.get k m) eqn:Hget; cbn; [done|].
  intros Hnodup. apply NoDup_app. split_and!; [done | | apply NoDup_singleton].
  intros x Hx [->|[]]%list_elem_of_In. apply get_None_keys in Hget.
  by apply Hget, list_elem_of_In.
Qed.

Lemma keys_delete_incl k m x :
  In x (map fst (JsMap.delete k m)) → In x (map fst m).
Proof.
  induction m as [|[k0 v0] m IH]; cbn; [done|].
  destruct (String.eqb_spec k k0); cbn; tauto.
Qed.

Lemma uniqueKeys_delete k m : uniqueKeys m → uniqueKeys (JsMap.delete k m).
Proof.
  unfold uniqueKeys. induction m as [|[k0 v0] m IH]; cbn; [done|].
  intros [Hfresh Hnodup]%NoDup_cons.
  destruct (String.eqb_spec k k0); cbn; [done|].
  apply NoDup_cons. split; [|auto].
  rewrite list_elem_of_In in *. intros Hin. apply Hfresh.
  by apply keys_delete_incl in Hin.
Qed.

Lemma In_values_set k v m : In v (JsMap.values (JsMap.set k v m)).
Proof.
  unfold JsMap.values. induction m as [|[k0 v0] m IH]; cbn; [auto|].
  destruct (String.eqb k k0); cbn; auto.
Qed.

Lemma In_set k v m (kv : string * V) :
  In kv (JsMap.set k v m) → kv = (k, v) ∨ In kv m.
Proof.
  induction m as [|[k0 v0] m IH]; cbn; [naive_solver|].
  destruct (String.eqb k k0); cbn; naive_solver.
Qed.

Lemma In_alter (f : V -> V) k m (kv : string * V) :
  In kv (JsMap.alter f k m) →
  In kv m ∨ ∃ v, In (k, v) m ∧ kv = (k, f v).
Proof.
  unfold JsMap.alter. rewrite in_map_iff. intros ([k0 v0] & Heq & Hin).
  cbn in Heq. destruct (String.eqb_spec k k0) as [->|]; subst; eauto.
Qed.

End JsMapFacts.

(** ** Friend requests: accepting, declining, removing *)

Lemma acceptFriendRequest_run (now : Date) (requestId acting : string)
  (st : InMemoryStorage.t) (request : FriendRequest.t) :
  InMemoryStorage.getFriendRequestById requestId st = Some request →
  FriendRequest.toUserId request = acting →
  FriendRequest.status request = pending →
  FriendService.acceptFriendRequest now requestId acting st
  = (inr tt,
     InMemoryStorage.createFriendship
       (Friendship.mk acting (FriendRequest.fromUserId request) now)
       (InMemoryStorage.createFriendship
          (Friendship.mk (FriendRequest.fromUserId request) acting now)
          (InMemoryStorage.updateFriendRequest
             (FriendRequest.with_status accepted request)
             (InMemoryStorage.assignFriendRequest requestId
                (FriendRequest.with_status accepted) st)))).
Proof.
  intros Hget <- Hstatus. unfold FriendService.acceptFriendRequest. run.
  rewrite Hget. run. rewrite String.eqb_refl. run.
  rewrite bool_decide_eq_true_2 by done. run. reflexivity.
Qed.

Lemma declineFriendRequest_run (requestId acting : string)
  (st : InMemoryStorage.t) (request : FriendRequest.t) :
  InMemoryStorage.getFriendRequestById requestId st = Some request →
  FriendRequest.toUserId request = acting →
  FriendRequest.status request = pending →
  FriendService.declineFriendRequest requestId acting st
  = (inr tt,
     InMemoryStorage.updateFriendRequest
       (FriendRequest.with_status declined request)
       (InMemoryStorage.assignFriendRequest requestId
          (FriendRequest.with_status declined) st)).
Proof.
  intros Hget <- Hstatus. unfold FriendService.declineFriendRequest. run.
  rewrite Hget. run. rewrite String.eqb_refl. run.
  rewrite bool_decide_eq_true_2 by done. run. reflexivity.
Qed.

(** The request map after the two writes by which a request is settled. *)
Lemma getFriendRequestById_settled (status : FriendRequestStatus)
  (requestId other : string) (request : FriendRequest.t)
  (st : InMemoryStorage.t) :
  InMemoryStorage.getFriendRequestById requestId st = Some request →
  InMemoryStorage.getFriendRequestById other
    (InMemoryStorage.updateFriendRequest
       (FriendRequest.with_status status request)
       (InMemoryStorage.assignFriendRequest requestId
          (FriendRequest.with_status status) st))
  = if decide (other = FriendRequest.id request)
    then Some (FriendRequest.with_status status request)
    else if decide (other = requestId)
         then Some (FriendRequest.with_status status request)
         else InMemoryStorage.getFriendRequestById other st.
Proof.
  unfold InMemoryStorage.getFriendRequestById,
    InMemoryStorage.updateFriendRequest, InMemoryStorage.assignFriendRequest,
    InMemoryStorage.with_friendRequests.
  cbn [InMemoryStorage.friendRequests FriendRequest.id
       FriendRequest.with_status].
  intros Hget. destruct (decide (other = FriendRequest.id request)) as [->|Hne].
  - apply get_set_same.
  - rewrite get_set_other by congruence. rewrite get_alter.
    destruct (decide (other = requestId)) as [->|Hne'].
    + rewrite decide_True by done. by rewrite Hget.
    + by rewrite decide_False by congruence.
Qed.

Lemma areFriends_eq (st st' : InMemoryStorage.t) :
  InMemoryStorage.friendsByUser st' = InMemoryStorage.friendsByUser st →
  ∀ a b : string,
    InMemoryStorage.areFriends a b st' = InMemoryStorage.areFriends a b st.
Proof. intros Heq a b. unfold InMemoryStorage.areFriends. by rewrite Heq. Qed.

Lemma areFriends_accepted (now : Date) (from to : string)
  (st : InMemoryStorage.t) (a b : string) :
  InMemoryStorage.areFriends a b
    (InMemoryStorage.createFriendship (Friendship.mk to from now)
       (InMemoryStorage.createFriendship (Friendship.mk from to now) st))
  = true
  ↔ InMemoryStorage.areFriends a b st = true
    ∨ (a = from ∧ b = to) ∨ (a = to ∧ b = from).
Proof.
  rewrite !areFriends_true, !friends_createFriendship. cbn. tauto.
Qed.

Lemma areFriends_removed (u v : string) (st : InMemoryStorage.t)
  (a b : string) :
  InMemoryStorage.areFriends a b
    (InMemoryStorage.deleteFriendship v u
       (InMemoryStorage.deleteFriendship u v st).2).2 = true
  ↔ InMemoryStorage.areFriends a b st = true
    ∧ ¬ (a = u ∧ b = v) ∧ ¬ (a = v ∧ b = u).
Proof.
  rewrite !areFriends_true, !friends_deleteFriendship. tauto.
Qed.

Lemma removeFriend_run (userId friendId : string) (st : InMemoryStorage.t) :
  FriendService.removeFriend userId friendId st
  = if InMemoryStorage.areFriends userId friendId st
    then (inr tt,
          (InMemoryStorage.deleteFriendship friendId userId
             (InMemoryStorage.deleteFriendship userId friendId st).2).2)
    else (inl Error.NotFriendsError, st).
Proof.
  unfold FriendService.removeFriend. run.
  destruct (InMemoryStorage.areFriends userId friendId st); run; reflexivity.
Qed.

(** X1. A pending request accepted by its recipient: the call returns, the
    request is stored as accepted, the two users are friends in both
    directions, every other pair is as before, and so are the requests
    under other ids, the users, the posts and the sessions. *)
Theorem acceptFriendRequest_success (now : Date) (requestId acting : string)
  (st : InMemoryStorage.t) (request : FriendRequest.t) :
  InMemoryStorage.getFriendRequestById requestId st = Some request →
  FriendRequest.toUserId request = acting →
  FriendRequest.status request = pending →
  ∃ st' : InMemoryStorage.t,
    FriendService.acceptFriendRequest now requestId acting st = (inr tt, st')
    ∧ InMemoryStorage.getFriendRequestById requestId st'
      = Some (FriendRequest.with_status accepted request)
    ∧ (∀ a b : string,
         InMemoryStorage.areFriends a b st' = true
         ↔ InMemoryStorage.areFriends a b st = true
           ∨ (a = FriendRequest.fromUserId request ∧ b = acting)
           ∨ (a = acting ∧ b = FriendRequest.fromUserId request))
    ∧ (∀ other : string,
         other ≠ requestId → other ≠ FriendRequest.id request →
         InMemoryStorage.getFriendRequestById other st'
         = InMemoryStorage.getFriendRequestById other st)
    ∧ InMemoryStorage.users st' = InMemoryStorage.users st
    ∧ InMemoryStorage.posts st' = InMemoryStorage.posts st
    ∧ InMemoryStorage.sessions st' = InMemoryStorage.sessions st.
Proof.
  intros Hget Hto Hstatus. eexists. split.
  { by apply acceptFriendRequest_run. }
  split_and!; try reflexivity.
  - change (InMemoryStorage.getFriendRequestById requestId
              (InMemoryStorage.updateFriendRequest
                 (FriendRequest.with_status accepted request)
                 (InMemoryStorage.assignFriendRequest requestId
                    (FriendRequest.with_status accepted) st))
            = Some (FriendRequest.with_status accepted request)).
    rewrite (getFriendRequestById_settled _ _ _ _ _ Hget).
    destruct (decide (requestId = FriendRequest.id request)); [done|].
    by rewrite decide_True.
  - intros a b. rewrite areFriends_accepted.
    reflexivity.
  - intros other Hne Hne'.
    change (InMemoryStorage.getFriendRequestById other
              (InMemoryStorage.updateFriendRequest
                 (FriendRequest.with_status accepted request)
                 (InMemoryStorage.assignFriendRequest requestId
                    (FriendRequest.with_status accepted) st))
            = InMemoryStorage.getFriendRequestById other st).
    rewrite (getFriendRequestById_settled _ _ _ _ _ Hget).
    by rewrite !decide_False.
Qed.

Lemma acceptFriendRequest_success_witness :
  ∃ st' : InMemoryStorage.t,
    FriendService.acceptFriendRequest 2 "r1" "bob" requested = (inr tt, st')
    ∧ InMemoryStorage.getFriendRequestById "r1" st'
      = Some (FriendRequest.mk "r1" "alice" "bob" accepted 1)
    ∧ InMemoryStorage.areFriends "bob" "alice" st' = true.
Proof.
  destruct (acceptFriendRequest_success 2 "r1" "bob" requested
              (FriendRequest.mk "r1" "alice" "bob" pending 1))
    as (st' & Hrun & Hget & Hfriends & _); [reflexivity..|].
  exists st'. split_and!; [exact Hrun | exact Hget |].
  apply Hfriends. right. right. split; reflexivity.
Defined.

(** X2. [declineFriendRequest] returns exactly when the request exists, is
    addressed to the acting user and is pending; the request is then stored
    as declined. Whether it returns or throws it creates and removes no
    friendship, and when it throws it has written nothing. *)
Theorem declineFriendRequest_spec (requestId acting : string)
  (st : InMemoryStorage.t) :
  let result := FriendService.declineFriendRequest requestId acting st in
  (result.1 = inr tt
   ↔ ∃ request : FriendRequest.t,
       InMemoryStorage.getFriendRequestById requestId st = Some request
       ∧ FriendRequest.toUserId request = acting
       ∧ FriendRequest.status request = pending)
  ∧ (∀ request : FriendRequest.t,
       InMemoryStorage.getFriendRequestById requestId st = Some request →
       result.1 = inr tt →
       InMemoryStorage.getFriendRequestById requestId result.2
       = Some (FriendRequest.with_status declined request))
  ∧ (∀ a b : string,
       InMemoryStorage.areFriends a b result.2
       = InMemoryStorage.areFriends a b st)
  ∧ InMemoryStorage.friendships result.2 = InMemoryStorage.friendships st
  ∧ (∀ e : Error.t, result.1 = inl e → result.2 = st).
Proof.
  cbn zeta.
  destruct (InMemoryStorage.getFriendRequestById requestId st)
    as [request|] eqn:Hget.
  - destruct (String.eqb_spec (FriendRequest.toUserId request) acting)
      as [Hto|Hto].
    + destruct (decide (FriendRequest.status request = pending)) as [Hp|Hp].
      * rewrite (declineFriendRequest_run _ _ _ _ Hget Hto Hp).
        cbn [fst snd]. split_and!; try done.
        -- split; [eauto|done].
        -- intros ? [= <-] _.
           rewrite (getFriendRequestById_settled _ _ _ _ _ Hget).
           destruct (decide (requestId = FriendRequest.id request)); [done|].
           by rewrite decide_True.
      * unfold FriendService.declineFriendRequest. run. rewrite Hget. run.
        apply String.eqb_eq in Hto. rewrite Hto. run.
        rewrite bool_decide_eq_false_2 by done. run.
        split_and!; try done.
        split; [done|]. intros (r & [= <-] & _ & ?). done.
    + unfold FriendService.declineFriendRequest. run. rewrite Hget. run.
      apply String.eqb_neq in Hto. rewrite Hto. run.
      split_and!; try done.
      split; [done|]. intros (r & [= <-] & Heq & _).
      apply String.eqb_neq in Hto. done.
  - unfold FriendService.declineFriendRequest. run. rewrite Hget. run.
    split_and!; try done.
    split; [done|]. intros (r & [=] & _).
Qed.

Lemma declineFriendRequest_spec_witness :
  (FriendService.declineFriendRequest "r1" "bob" requested).1 = inr tt
  ∧ InMemoryStorage.getFriendRequestById "r1"
      (FriendService.declineFriendRequest "r1" "bob" requested).2
    = Some (FriendRequest.mk "r1" "alice" "bob" declined 1).
Proof.
  destruct (declineFriendRequest_spec "r1" "bob" requested)
    as (Hreturns & Hdeclined & _).
  assert ((FriendService.declineFriendRequest "r1" "bob" requested).1
          = inr tt) as Hrun.
  { apply Hreturns. eexists. split_and!; reflexivity. }
  split; [exact Hrun|].
  apply (Hdeclined (FriendRequest.mk "r1" "alice" "bob" pending 1));
    [reflexivity | exact Hrun].
Defined.

(** X3. [removeFriend] throws [NotFriends], writing nothing, when the first
    user does not list the second as a friend; otherwise it returns, and the
    friendship is gone in both directions while every other pair and every
    friend request is as before. *)
Theorem removeFriend_spec (userId friendId : string) (st : InMemoryStorage.t) :
  let result := FriendService.removeFriend userId friendId st in
  (InMemoryStorage.areFriends userId friendId st = false →
   result = (inl Error.NotFriendsError, st))
  ∧ (InMemoryStorage.areFriends userId friendId st = true →
     result.1 = inr tt
     ∧ (∀ a b : string,
          InMemoryStorage.areFriends a b result.2 = true
          ↔ InMemoryStorage.areFriends a b st = true
            ∧ ¬ (a = userId ∧ b = friendId) ∧ ¬ (a = friendId ∧ b = userId))
     ∧ InMemoryStorage.friendRequests result.2
       = InMemoryStorage.friendRequests st
     ∧ InMemoryStorage.getFriendship userId friendId result.2 = None
     ∧ InMemoryStorage.getFriendship friendId userId result.2 = None).
Proof.
  cbn zeta. rewrite removeFriend_run. split; intros Hfriends; rewrite Hfriends.
  - reflexivity.
  - cbn [fst snd]. split_and!; try reflexivity.
    + intros a b. apply areFriends_removed.
    + unfold InMemoryStorage.getFriendship; cbn.
      destruct (decide (InMemoryStorage.friendshipKey friendId userId
                        = InMemoryStorage.friendshipKey userId friendId))
        as [->|Hne].
      * apply lookup_delete_eq.
      * rewrite lookup_delete_ne by done. apply lookup_delete_eq.
    + unfold InMemoryStorage.getFriendship; cbn. apply lookup_delete_eq.
Qed.

Lemma removeFriend_spec_witness :
  FriendService.removeFriend "alice" "bob" requested
  = (inl Error.NotFriendsError, requested)
  ∧ InMemoryStorage.areFriends "bob" "alice"
      (FriendService.removeFriend "alice" "bob" befriended).2 = false.
Proof.
  split.
  - destruct (removeFriend_spec "alice" "bob" requested) as [Hstrangers _].
    by apply Hstrangers.
  - destruct (removeFriend_spec "alice" "bob" befriended) as [_ Hfriends].
    destruct Hfriends as (_ & Hgone & _); [reflexivity|].
    apply not_true_is_false. intros Hstill%Hgone. naive_solver.
Defined.

(** ** Friend requests: sending, and requests that are settled *)

Lemma sendFriendRequest_run (uuid : string) (now : Date)
  (fromUserId toUserId : string) (st : InMemoryStorage.t) :
  FriendService.sendFriendRequest uuid now fromUserId toUserId st
  = if String.eqb fromUserId toUserId
    then (inl Error.SelfFriendRequestError, st)
    else if negb (is_some (InMemoryStorage.getUserById fromUserId st))
    then (inl Error.UserNotFoundError, st)
    else if negb (is_some (InMemoryStorage.getUserById toUserId st))
    then (inl Error.UserNotFoundError, st)
    else if InMemoryStorage.areFriends fromUserId toUserId st
    then (inl Error.DuplicateFriendRequestError, st)
    else if is_some (InMemoryStorage.getFriendRequestBetweenUsers
                       fromUserId toUserId st)
    then (inl Error.DuplicateFriendRequestError, st)
    else if is_some (InMemoryStorage.getFriendRequestBetweenUsers
                       toUserId fromUserId st)
    then (inl Error.DuplicateFriendRequestError, st)
    else
      let request := FriendRequest.mk uuid fromUserId toUserId pending now in
      (inr request, InMemoryStorage.createFriendRequest request st).
Proof.
  unfold FriendService.sendFriendRequest. run.
  destruct (String.eqb fromUserId toUserId); [reflexivity|]. run.
  destruct (is_some (InMemoryStorage.getUserById fromUserId st));
    [|reflexivity]. run.
  destruct (is_some (InMemoryStorage.getUserById toUserId st));
    [|reflexivity]. run.
  destruct (InMemoryStorage.areFriends fromUserId toUserId st);
    [reflexivity|]. run.
  destruct (is_some (InMemoryStorage.getFriendRequestBetweenUsers
                       fromUserId toUserId st)); [reflexivity|]. run.
  destruct (is_some (InMemoryStorage.getFriendRequestBetweenUsers
                       toUserId fromUserId st)); [reflexivity|]. run.
  reflexivity.
Qed.

Lemma acceptFriendRequest_cases (now : Date) (requestId acting : string)
  (st : InMemoryStorage.t) :
  (∃ e : Error.t,
     FriendService.acceptFriendRequest now requestId acting st = (inl e, st))
  ∨ ∃ request : FriendRequest.t,
      InMemoryStorage.getFriendRequestById requestId st = Some request
      ∧ FriendRequest.toUserId request = acting
      ∧ FriendRequest.status request = pending.
Proof.
  unfold FriendService.acceptFriendRequest. run.
  destruct (InMemoryStorage.getFriendRequestById requestId st)
    as [request|]; [|left; eexists; reflexivity]. run.
  destruct (String.eqb_spec (FriendRequest.toUserId request) acting);
    [|left; eexists; reflexivity]. run.
  destruct (decide (FriendRequest.status request = pending)).
  - right. eauto.
  - rewrite bool_decide_eq_false_2 by done. left. eexists. reflexivity.
Qed.

Lemma declineFriendRequest_cases (requestId acting : string)
  (st : InMemoryStorage.t) :
  (∃ e : Error.t,
     FriendService.declineFriendRequest requestId acting st = (inl e, st))
  ∨ ∃ request : FriendRequest.t,
      InMemoryStorage.getFriendRequestById requestId st = Some request
      ∧ FriendRequest.toUserId request = acting
      ∧ FriendRequest.status request = pending.
Proof.
  unfold FriendService.declineFriendRequest. run.
  destruct (InMemoryStorage.getFriendRequestById requestId st)
    as [request|]; [|left; eexists; reflexivity]. run.
  destruct (String.eqb_spec (FriendRequest.toUserId request) acting);
    [|left; eexists; reflexivity]. run.
  destruct (decide (FriendRequest.status request = pending)).
  - right. eauto.
  - rewrite bool_decide_eq_false_2 by done. left. eexists. reflexivity.
Qed.

Lemma keyedById_get (key : string) (request : FriendRequest.t)
  (st : InMemoryStorage.t) :
  keyedById st →
  InMemoryStorage.getFriendRequestById key st = Some request →
  FriendRequest.id request = key.
Proof. intros Hkeyed Hget. by apply Hkeyed, get_Some_In. Qed.

Lemma keyedById_createFriendRequest (request : FriendRequest.t)
  (st : InMemoryStorage.t) :
  keyedById st → keyedById (InMemoryStorage.createFriendRequest request st).
Proof.
  intros Hkeyed key r Hin. cbn in Hin.
  apply In_set in Hin as [[= -> ->]|Hin]; [reflexivity | by apply Hkeyed].
Qed.

Lemma keyedById_settled (status : FriendRequestStatus) (requestId : string)
  (request : FriendRequest.t) (st : InMemoryStorage.t) :
  keyedById st →
  keyedById
    (InMemoryStorage.updateFriendRequest
       (FriendRequest.with_status status request)
       (InMemoryStorage.assignFriendRequest requestId
          (FriendRequest.with_status status) st)).
Proof.
  intros Hkeyed key r Hin. cbn in Hin.
  apply In_set in Hin as [[= -> ->]|Hin]; [reflexivity|].
  apply In_alter in Hin as [Hin|(v & Hin & [= -> ->])];
    [by apply Hkeyed | cbn; by apply Hkeyed].
Qed.

Lemma keyedById_friendRequests (st st' : InMemoryStorage.t) :
  InMemoryStorage.friendRequests st' = InMemoryStorage.friendRequests st →
  keyedById st → keyedById st'.
Proof. unfold keyedById. by intros ->. Qed.

Lemma settled_after (op : FriendOp) (id : string) (request : FriendRequest.t)
  (st : InMemoryStorage.t) :
  keyedById st →
  InMemoryStorage.getFriendRequestById id st = Some request →
  FriendRequest.status request ≠ pending →
  drawnId op ≠ Some id →
  keyedById (after op st)
  ∧ InMemoryStorage.getFriendRequestById id (after op st) = Some request.
Proof.
  intros Hkeyed Hget Hstatus Hdrawn.
  destruct op as [uuid now from to | now requestId acting
                 | requestId acting | userId friendId]; cbn [after].
  - rewrite sendFriendRequest_run.
    repeat match goal with |- context [if ?c then _ else _] =>
      destruct c; [by split|] end.
    cbn [snd]. split; [by apply keyedById_createFriendRequest|].
    unfold InMemoryStorage.getFriendRequestById; cbn.
    rewrite get_set_other; [exact Hget|]. cbn in Hdrawn. congruence.
  - destruct (acceptFriendRequest_cases now requestId acting st)
      as [[e ->]|(r & Hr & Hto & Hp)]; [by split|].
    rewrite (acceptFriendRequest_run _ _ _ _ _ Hr Hto Hp). cbn [snd].
    split.
    + eapply keyedById_friendRequests; [|by apply (keyedById_settled accepted)].
      reflexivity.
    + change (InMemoryStorage.getFriendRequestById id
                (InMemoryStorage.updateFriendRequest
                   (FriendRequest.with_status accepted r)
                   (InMemoryStorage.assignFriendRequest requestId
                      (FriendRequest.with_status accepted) st))
              = Some request).
      rewrite (getFriendRequestById_settled _ _ _ _ _ Hr).
      rewrite (keyedById_get _ _ _ Hkeyed Hr).
      assert (id ≠ requestId) by congruence.
      by rewrite !decide_False.
  - destruct (declineFriendRequest_cases requestId acting st)
      as [[e ->]|(r & Hr & Hto & Hp)]; [by split|].
    rewrite (declineFriendRequest_run _ _ _ _ Hr Hto Hp). cbn [snd].
    split; [by apply keyedById_settled|].
    rewrite (getFriendRequestById_settled _ _ _ _ _ Hr).
    rewrite (keyedById_get _ _ _ Hkeyed Hr).
    assert (id ≠ requestId) by congruence.
    by rewrite !decide_False.
  - rewrite removeFriend_run.
    destruct (InMemoryStorage.areFriends userId friendId st); by split.
Qed.

(** X4. A friend request that has been accepted or declined is final: no
    sequence of friendship operations changes it, as long as no new request
    draws its id again. The store is one in which every request sits under
    its own id, which is how the service stores them. *)
Theorem settled_request_is_final (ops : list FriendOp) (id : string)
  (request : FriendRequest.t) (st : InMemoryStorage.t) :
  keyedById st →
  InMemoryStorage.getFriendRequestById id st = Some request →
  FriendRequest.status request ≠ pending →
  Forall (fun op => drawnId op ≠ Some id) ops →
  InMemoryStorage.getFriendRequestById id (afterAll ops st) = Some request
  ∧ keyedById (afterAll ops st).
Proof.
  intros Hkeyed Hget Hstatus Hops. revert st Hkeyed Hget.
  induction Hops as [|op ops Hop _ IH]; intros st Hkeyed Hget; cbn.
  - by split.
  - destruct (settled_after op id request st) as [Hkeyed' Hget']; try done.
    by apply IH.
Qed.

Lemma settled_request_is_final_witness :
  InMemoryStorage.getFriendRequestById "r1"
    (afterAll
       [AcceptFriendRequest 3 "r1" "bob";
        SendFriendRequest "r2" 4 "alice" "bob";
        DeclineFriendRequest "r1" "bob";
        AcceptFriendRequest 5 "r2" "bob";
        RemoveFriend "alice" "bob"] turned_down)
  = Some (FriendRequest.mk "r1" "alice" "bob" declined 1).
Proof.
  apply (settled_request_is_final _ "r1"
           (FriendRequest.mk "r1" "alice" "bob" declined 1) turned_down).
  - intros key r [[= <- <-]|[]]. reflexivity.
  - reflexivity.
  - discriminate.
  - repeat constructor; discriminate.
Defined.

(** X5. The failures of [sendFriendRequest] in the order in which they are
    tested: a request to oneself is refused before the users are looked up,
    a missing user before any duplicate; the call throws nothing but these
    three errors, and when it throws it has written nothing. *)
Theorem sendFriendRequest_failures (uuid : string) (now : Date)
  (fromUserId toUserId : string) (st : InMemoryStorage.t) :
  let result :=
    FriendService.sendFriendRequest uuid now fromUserId toUserId st in
  (fromUserId = toUserId → result = (inl Error.SelfFriendRequestError, st))
  ∧ (fromUserId ≠ toUserId →
     InMemoryStorage.getUserById fromUserId st = None
     ∨ InMemoryStorage.getUserById toUserId st = None →
     result = (inl Error.UserNotFoundError, st))
  ∧ (∀ e : Error.t,
       result.1 = inl e →
       result.2 = st
       ∧ (e = Error.SelfFriendRequestError ∨ e = Error.UserNotFoundError
          ∨ e = Error.DuplicateFriendRequestError)).
Proof.
  cbn zeta. rewrite sendFriendRequest_run. split_and!.
  - intros ->. by rewrite String.eqb_refl.
  - intros Hne%String.eqb_neq Hmissing. rewrite Hne.
    destruct Hmissing as [-> | ->]; cbn; [reflexivity|].
    by destruct (is_some (InMemoryStorage.getUserById fromUserId st)).
  - intros e.
    repeat match goal with |- context [if ?c then _ else _] =>
      destruct c; [intros [= <-]; auto|] end.
    discriminate.
Qed.

Lemma sendFriendRequest_failures_witness :
  FriendService.sendFriendRequest "r9" 1 "alice" "alice" two_users
  = (inl Error.SelfFriendRequestError, two_users)
  ∧ FriendService.sendFriendRequest "r9" 1 "alice" "zoe" two_users
    = (inl Error.UserNotFoundError, two_users).
Proof.
  split.
  - destruct (sendFriendRequest_failures "r9" 1 "alice" "alice" two_users)
      as [Hself _].
    by apply Hself.
  - destruct (sendFriendRequest_failures "r9" 1 "alice" "zoe" two_users)
      as (_ & Hmissing & _).
    apply Hmissing; [discriminate | by right].
Defined.

(** X6. After [sendFriendRequest] has returned, the request is stored under
    the id it drew, no friendship has changed, and a second request between
    the two users is refused as a duplicate in either direction, whatever
    id and time it draws. *)
Theorem sendFriendRequest_once (uuid : string) (now : Date)
  (fromUserId toUserId : string) (st st' : InMemoryStorage.t)
  (request : FriendRequest.t) :
  FriendService.sendFriendRequest uuid now fromUserId toUserId st
  = (inr request, st') →
  request = FriendRequest.mk uuid fromUserId toUserId pending now
  ∧ InMemoryStorage.getFriendRequestById uuid st' = Some request
  ∧ (∀ a b : string,
       InMemoryStorage.areFriends a b st' = InMemoryStorage.areFriends a b st)
  ∧ (∀ (uuid' : string) (now' : Date),
       FriendService.sendFriendRequest uuid' now' fromUserId toUserId st'
       = (inl Error.DuplicateFriendRequestError, st'))
  ∧ (∀ (uuid' : string) (now' : Date),
       FriendService.sendFriendRequest uuid' now' toUserId fromUserId st'
       = (inl Error.DuplicateFriendRequestError, st')).
Proof.
  rewrite sendFriendRequest_run.
  destruct (String.eqb_spec fromUserId toUserId) as [|Hne]; [discriminate|].
  destruct (is_some (InMemoryStorage.getUserById fromUserId st)) eqn:Hfrom;
    [|discriminate].
  destruct (is_some (InMemoryStorage.getUserById toUserId st)) eqn:Hto;
    [|discriminate].
  cbn [negb].
  repeat match goal with |- context [if ?c then _ else _] =>
    destruct c; [discriminate|] end.
  cbn zeta. intros [= <- <-].
  assert (Hpending :
    is_some (InMemoryStorage.getFriendRequestBetweenUsers fromUserId toUserId
               (InMemoryStorage.createFriendRequest
                  (FriendRequest.mk uuid fromUserId toUserId pending now) st))
    = true).
  { apply getFriendRequestBetweenUsers_some. eexists. split_and!.
    - cbn. apply In_values_set.
    - reflexivity.
    - reflexivity.
    - reflexivity. }
  split_and!.
  - reflexivity.
  - apply get_set_same.
  - reflexivity.
  - intros uuid' now'. rewrite sendFriendRequest_run.
    rewrite (proj2 (String.eqb_neq _ _) Hne).
    change (InMemoryStorage.getUserById ?u
              (InMemoryStorage.createFriendRequest _ st))
      with (InMemoryStorage.getUserById u st).
    rewrite Hfrom, Hto, Hpending. cbn [negb].
    by destruct (InMemoryStorage.areFriends _ _ _).
  - intros uuid' now'. rewrite sendFriendRequest_run.
    assert (toUserId ≠ fromUserId) as Hne'%String.eqb_neq by congruence.
    rewrite Hne'.
    change (InMemoryStorage.getUserById ?u
              (InMemoryStorage.createFriendRequest _ st))
      with (InMemoryStorage.getUserById u st).
    rewrite Hfrom, Hto, Hpending. cbn [negb].
    destruct (InMemoryStorage.areFriends _ _ _); [reflexivity|].
    by destruct (is_some (InMemoryStorage.getFriendRequestBetweenUsers
                            toUserId fromUserId _)).
Qed.

Lemma sendFriendRequest_once_witness :
  FriendService.sendFriendRequest "r2" 7 "bob" "alice" requested
  = (inl Error.DuplicateFriendRequestError, requested).
Proof.
  destruct (sendFriendRequest_once "r1" 1 "alice" "bob" two_users requested
              (FriendRequest.mk "r1" "alice" "bob" pending 1) eq_refl)
    as (_ & _ & _ & _ & Hback).
  apply Hback.
Defined.

(** ** Friendship and the visibility of posts *)

Lemma In_slice {A : Type} (x : A) (l : list A) (start end_ : Z) :
  In x (JsArray.slice l start end_) → In x l.
Proof.
  unfold JsArray.slice. intros Hin%list_elem_of_In.
  apply list_elem_of_In.
  eapply (subseteq_drop _ l), (subseteq_take _ _), Hin.
Qed.

Lemma In_getFeed (post : Post.t) (viewer : option string)
  (pagination : Pagination.t) (st : InMemoryStorage.t) :
  In post (FeedResult.posts (FeedService.getFeed viewer pagination st)) →
  In post (InMemoryStorage.getAllPosts st)
  ∧ PostService.canViewPost post viewer st = true.
Proof.
  unfold FeedService.getFeed. cbn [FeedResult.posts].
  intros Hin%In_slice.
  apply (proj1 (filter_In (fun p => PostService.canViewPost p viewer st)
                  post (InMemoryStorage.getAllPosts st))).
  eapply Permutation_in; [apply sort_Permutation | exact Hin].
Qed.

Lemma getPost_run (postId : string) (requesterId : option string)
  (st : InMemoryStorage.t) :
  PostService.getPost postId requesterId st
  = match InMemoryStorage.getPostById postId st with
    | None => (inr None, st)
    | Some post =>
        if PostService.canViewPost post requesterId st
        then (inr (Some post), st)
        else (inl Error.AccessDeniedError, st)
    end.
Proof.
  unfold PostService.getPost. run.
  destruct (InMemoryStorage.getPostById postId st) as [post|]; [|reflexivity].
  run. destruct (PostService.canViewPost post requesterId st); reflexivity.
Qed.

(** X7. Accepting a friend request opens the friends-only posts of each of
    the two users to the other: [getPost] returns them, where before the
    accept it returned them only if the two were friends already. *)
Theorem acceptFriendRequest_opens_posts (now : Date)
  (requestId acting : string) (st : InMemoryStorage.t)
  (request : FriendRequest.t) (postId viewer : string) (post : Post.t) :
  InMemoryStorage.getFriendRequestById requestId st = Some request →
  FriendRequest.toUserId request = acting →
  FriendRequest.status request = pending →
  InMemoryStorage.getPostById postId st = Some post →
  (Post.authorId post = FriendRequest.fromUserId request ∧ viewer = acting)
  ∨ (Post.authorId post = acting
     ∧ viewer = FriendRequest.fromUserId request) →
  ∃ st' : InMemoryStorage.t,
    FriendService.acceptFriendRequest now requestId acting st = (inr tt, st')
    ∧ PostService.getPost postId (Some viewer) st' = (inr (Some post), st')
    ∧ (InMemoryStorage.areFriends (Post.authorId post) viewer st = false →
       Post.visibility post = friends_only →
       Post.authorId post ≠ viewer →
       PostService.getPost postId (Some viewer) st
       = (inl Error.AccessDeniedError, st)).
Proof.
  intros Hget Hto Hstatus Hpost Hparties. eexists. split.
  { by apply acceptFriendRequest_run. }
  split.
  - rewrite getPost_run.
    change (InMemoryStorage.getPostById postId _)
      with (InMemoryStorage.getPostById postId st).
    rewrite Hpost.
    assert (PostService.canViewPost post (Some viewer)
              (InMemoryStorage.createFriendship
                 (Friendship.mk acting (FriendRequest.fromUserId request) now)
                 (InMemoryStorage.createFriendship
                    (Friendship.mk (FriendRequest.fromUserId request) acting
                       now)
                    (InMemoryStorage.updateFriendRequest
                       (FriendRequest.with_status accepted request)
                       (InMemoryStorage.assignFriendRequest requestId
                          (FriendRequest.with_status accepted) st))))
            = true) as ->; [|reflexivity].
    unfold PostService.canViewPost.
    destruct (bool_decide (Post.visibility post = public)); [reflexivity|].
    destruct (String.eqb (Post.authorId post) viewer); [reflexivity|].
    apply areFriends_accepted. naive_solver.
  - intros Hstrangers Hvisibility Hother. rewrite getPost_run, Hpost.
    unfold PostService.canViewPost. rewrite Hvisibility. cbn.
    apply String.eqb_neq in Hother. by rewrite Hother, Hstrangers.
Qed.

Lemma acceptFriendRequest_opens_posts_witness :
  PostService.getPost "d1" (Some "bob") diary_requested
  = (inl Error.AccessDeniedError, diary_requested)
  ∧ ∃ st' : InMemoryStorage.t,
      FriendService.acceptFriendRequest 9 "r1" "bob" diary_requested
      = (inr tt, st')
      ∧ PostService.getPost "d1" (Some "bob") st' = (inr (Some diary), st').
Proof.
  destruct (acceptFriendRequest_opens_posts 9 "r1" "bob" diary_requested
              (FriendRequest.mk "r1" "alice" "bob" pending 1) "d1" "bob" diary)
    as (st' & Hrun & Hopen & Hclosed);
    [reflexivity | reflexivity | reflexivity | reflexivity
    | left; split; reflexivity |].
  split.
  - apply Hclosed; [reflexivity | reflexivity | discriminate].
  - exists st'. by split.
Defined.

(** X8. Removing a friend closes the friends-only posts of each of the two
    users to the other: [getPost] then throws [AccessDenied], and no page of
    the other's feed contains them. *)
Theorem removeFriend_closes_posts (userId friendId : string)
  (st : InMemoryStorage.t) (postId viewer : string) (post : Post.t) :
  InMemoryStorage.areFriends userId friendId st = true →
  userId ≠ friendId →
  InMemoryStorage.getPostById postId st = Some post →
  Post.visibility post = friends_only →
  (Post.authorId post = userId ∧ viewer = friendId)
  ∨ (Post.authorId post = friendId ∧ viewer = userId) →
  ∃ st' : InMemoryStorage.t,
    FriendService.removeFriend userId friendId st = (inr tt, st')
    ∧ PostService.getPost postId (Some viewer) st'
      = (inl Error.AccessDeniedError, st')
    ∧ ∀ pagination : Pagination.t,
        ¬ In post
            (FeedResult.posts
               (FeedService.getFeed (Some viewer) pagination st')).
Proof.
  intros Hfriends Hne Hpost Hvisibility Hparties.
  rewrite removeFriend_run, Hfriends. eexists. split; [reflexivity|].
  assert (PostService.canViewPost post (Some viewer)
            (InMemoryStorage.deleteFriendship friendId userId
               (InMemoryStorage.deleteFriendship userId friendId st).2).2
          = false) as Hdenied.
  { unfold PostService.canViewPost. rewrite Hvisibility. cbn.
    assert (Post.authorId post ≠ viewer) as Hother%String.eqb_neq
      by naive_solver.
    rewrite Hother. apply not_true_is_false.
    intros Hstill%areFriends_removed. naive_solver. }
  split.
  - rewrite getPost_run.
    change (InMemoryStorage.getPostById postId _)
      with (InMemoryStorage.getPostById postId st).
    by rewrite Hpost, Hdenied.
  - intros pagination [_ Hvisible]%In_getFeed. congruence.
Qed.

Lemma removeFriend_closes_posts_witness :
  PostService.getPost "d1" (Some "bob") diary_befriended
  = (inr (Some diary), diary_befriended)
  ∧ ∃ st' : InMemoryStorage.t,
      FriendService.removeFriend "bob" "alice" diary_befriended = (inr tt, st')
      ∧ PostService.getPost "d1" (Some "bob") st'
        = (inl Error.AccessDeniedError, st').
Proof.
  split; [reflexivity|].
  destruct (removeFriend_closes_posts "bob" "alice" diary_befriended
              "d1" "bob" diary)
    as (st' & Hrun & Hclosed & _);
    [reflexivity | discriminate | reflexivity | reflexivity
    | right; split; reflexivity |].
  exists st'. by split.
Defined.

(** ** Validation of content *)

Lemma blank_text (t : string) :
  negb (JsString.truthy t) || (String.length (JsString.trim t) =? 0)%nat
  = String.eqb (JsString.trim t) "".
Proof.
  destruct t as [|c t]; [reflexivity|]. cbn [JsString.truthy negb orb].
  by destruct (JsString.trim (String c t)).
Qed.

(** What [validateContent] finds, and the error that [createPost] and
    [updatePost] make of it. *)
Lemma validation_cases (content : PostContent.t) :
  let result :=
    PostService.validateContent (PostService.ContentArg.Object content) in
  let failure :=
    PostService.validationFailure
      (PostService.ValidationResult.errors result) in
  (lacksContent content = true
   ∧ PostService.ValidationResult.valid result = false
   ∧ failure = Error.EmptyContentError)
  ∨ (lacksContent content = false ∧ unsupportedFormat content = true
     ∧ PostService.ValidationResult.valid result = false
     ∧ ∃ message : string, failure = Error.InvalidFormatError message)
  ∨ (lacksContent content = false ∧ unsupportedFormat content = false
     ∧ tooLarge content = true
     ∧ PostService.ValidationResult.valid result = false
     ∧ ∃ message : string, failure = Error.FileTooLargeError message)
  ∨ (lacksContent content = false ∧ unsupportedFormat content = false
     ∧ tooLarge content = false
     ∧ PostService.ValidationResult.valid result = true).
Proof.
  destruct content as [type textValue mediaUrl mimeType fileSize].
  unfold PostService.validateContent, PostService.validateImageContent,
    PostService.validateVideoContent, lacksContent, unsupportedFormat,
    tooLarge.
  cbn [PostContent.type PostContent.text PostContent.mediaUrl
       PostContent.mimeType PostContent.fileSize].
  destruct type.
  - destruct textValue as [t|]; [|left; split_and!; reflexivity].
    rewrite blank_text.
    destruct (String.eqb (JsString.trim t) "");
      [left | do 3 right]; split_and!; reflexivity.
  - destruct (negb (JsString.truthy_opt mediaUrl)
              && negb (JsString.truthy_opt mimeType));
      [left; split_and!; reflexivity|].
    right.
    destruct mimeType as [m|];
      [destruct (JsString.truthy m
                 && negb (JsString.array_includes SUPPORTED_IMAGE_FORMATS m))|];
      (destruct fileSize as [n|]; [destruct (n >? MAX_IMAGE_SIZE)|]);
      first
        [ left; split_and!; [reflexivity..|eexists; reflexivity]
        | right; left; split_and!; [reflexivity..|eexists; reflexivity]
        | right; right; split_and!; reflexivity ].
  - destruct (negb (JsString.truthy_opt mediaUrl)
              && negb (JsString.truthy_opt mimeType));
      [left; split_and!; reflexivity|].
    right.
    destruct mimeType as [m|];
      [destruct (JsString.truthy m
                 && negb (JsString.array_includes SUPPORTED_VIDEO_FORMATS m))|];
      (destruct fileSize as [n|]; [destruct (n >? MAX_VIDEO_SIZE)|]);
      first
        [ left; split_and!; [reflexivity..|eexists; reflexivity]
        | right; left; split_and!; [reflexivity..|eexists; reflexivity]
        | right; right; split_and!; reflexivity ].
Qed.

(** X9. [validateContent] accepts exactly the objects of one of the three
    content types that have none of the three defects: content is there,
    the MIME type (if given) is supported, and the file size (if given) is
    within the limit. It refuses [null] and [undefined] with 'Content
    cannot be empty' and an object of any other type with 'Invalid content
    type'; the result is valid exactly when the list of errors is empty;
    and a text needs only to be non-blank, whatever MIME type or size the
    object carries. *)
Theorem validateContent_valid (argument : PostService.ContentArg.t) :
  let result := PostService.validateContent argument in
  (PostService.ValidationResult.valid result = true
   ↔ ∃ content : PostContent.t,
       argument = PostService.ContentArg.Object content
       ∧ lacksContent content = false
       ∧ unsupportedFormat content = false
       ∧ tooLarge content = false)
  ∧ (PostService.ValidationResult.valid result = true
     ↔ PostService.ValidationResult.errors result = [])
  ∧ (argument = PostService.ContentArg.Nullish →
     result
     = PostService.ValidationResult.mk false ["Content cannot be empty"])
  ∧ (argument = PostService.ContentArg.OtherType →
     result = PostService.ValidationResult.mk false ["Invalid content type"])
  ∧ (∀ content : PostContent.t,
       argument = PostService.ContentArg.Object content →
       PostContent.type content = text →
       PostService.ValidationResult.valid result = true
       ↔ ∃ t : string,
           PostContent.text content = Some t ∧ JsString.trim t ≠ "").
Proof.
  cbn zeta. split_and!.
  - destruct argument as [|content|].
    + split; [discriminate | by intros (content & [=] & _)].
    + destruct (validation_cases content)
        as [(Hlacks & -> & _) | [(_ & Hformat & -> & _)
           | [(_ & _ & Hsize & -> & _)
             | (Hlacks & Hformat & Hsize & ->)]]].
      * split; [discriminate|]. intros (c & [= <-] & ? & _). congruence.
      * split; [discriminate|]. intros (c & [= <-] & _ & ? & _). congruence.
      * split; [discriminate|]. intros (c & [= <-] & _ & _ & ?). congruence.
      * split; [eauto 6 | reflexivity].
    + split; [discriminate | by intros (content & [=] & _)].
  - destruct argument as [|content|]; [done | | done].
    unfold PostService.validateContent.
    cbn [PostService.ValidationResult.valid
         PostService.ValidationResult.errors].
    rewrite Nat.eqb_eq. apply length_zero_iff_nil.
  - by intros ->.
  - by intros ->.
  - intros content -> Htype.
    destruct (validation_cases content)
      as [(Hlacks & -> & _) | [(_ & Hformat & _)
         | [(_ & _ & Hsize & _) | (Hlacks & _ & _ & ->)]]].
    + unfold lacksContent in Hlacks. rewrite Htype in Hlacks.
      split; [discriminate|]. intros (t & Ht & Hblank).
      rewrite Ht in Hlacks. by apply String.eqb_eq in Hlacks.
    + unfold unsupportedFormat in Hformat. by rewrite Htype in Hformat.
    + unfold tooLarge in Hsize. by rewrite Htype in Hsize.
    + unfold lacksContent in Hlacks. rewrite Htype in Hlacks.
      split; [intros _|done].
      destruct (PostContent.text content) as [t|]; [|discriminate].
      exists t. split; [reflexivity|]. by apply String.eqb_neq.
Qed.

Lemma validateContent_valid_witness :
  PostService.ValidationResult.valid
    (PostService.validateContent (PostService.ContentArg.Object greeting))
  = true
  ∧ PostService.validateContent PostService.ContentArg.OtherType
    = PostService.ValidationResult.mk false ["Invalid content type"].
Proof.
  split.
  - destruct (validateContent_valid (PostService.ContentArg.Object greeting))
      as (_ & _ & _ & _ & Htext).
    apply (Htext greeting); [reflexivity | reflexivity |].
    exists "hi". split; [reflexivity | discriminate].
  - destruct (validateContent_valid PostService.ContentArg.OtherType)
      as (_ & _ & _ & Hother & _).
    by apply Hother.
Defined.

Lemma values_set_fresh {V : Type} (k : string) (v : V)
  (m : list (string * V)) :
  JsMap.get k m = None →
  JsMap.values (JsMap.set k v m) = app (JsMap.values m) [v].
Proof.
  unfold JsMap.values.
  induction m as [|[k0 v0] m IH]; cbn [JsMap.get JsMap.set map app snd];
    [reflexivity|].
  destruct (String.eqb k k0); [discriminate|].
  intros Hfresh. cbn [map snd]. by rewrite IH.
Qed.

Lemma createPost_run (postId : string) (now : Date) (userId : string)
  (content : PostContent.t) (visibility : option Visibility)
  (st : InMemoryStorage.t) :
  PostService.authenticated (Some userId) = Some userId →
  PostService.createPost postId now (Some userId) content visibility st
  = if PostService.ValidationResult.valid
         (PostService.validateContent
            (PostService.ContentArg.Object content))
    then
      let post :=
        Post.mk postId userId content (default DEFAULT_VISIBILITY visibility)
          now now false in
      (inr post, InMemoryStorage.createPost post st)
    else
      (inl (PostService.validationFailure
              (PostService.ValidationResult.errors
                 (PostService.validateContent
                    (PostService.ContentArg.Object content)))), st).
Proof.
  intros Hauth. unfold PostService.createPost. rewrite Hauth. run.
  destruct (PostService.ValidationResult.valid
              (PostService.validateContent
                 (PostService.ContentArg.Object content))); run;
    reflexivity.
Qed.

Lemma authenticated_Some (userId : option string) (u : string) :
  PostService.authenticated userId = Some u →
  userId = Some u ∧ JsString.truthy u = true.
Proof.
  destruct userId as [v|]; [|discriminate]. cbn.
  destruct (JsString.truthy v) eqn:Hv; [|discriminate].
  by intros [= <-].
Qed.

(** X10. What [createPost] refuses, in the order in which the refusals
    take precedence: a caller without a user id before any look at the
    content; then content that is lacking ([EmptyContent]), before a format
    that is unsupported ([InvalidFormat]), before a file that is too large
    ([FileTooLarge]). None of them writes to the store. *)
Theorem createPost_rejections (postId : string) (now : Date)
  (userId : option string) (content : PostContent.t)
  (visibility : option Visibility) (st : InMemoryStorage.t) :
  let result :=
    PostService.createPost postId now userId content visibility st in
  (PostService.authenticated userId = None →
   result = (inl Error.UnauthorizedError, st))
  ∧ (is_Some (PostService.authenticated userId) →
     (lacksContent content = true →
      result = (inl Error.EmptyContentError, st))
     ∧ (lacksContent content = false →
        unsupportedFormat content = true →
        ∃ message : string,
          result = (inl (Error.InvalidFormatError message), st))
     ∧ (lacksContent content = false →
        unsupportedFormat content = false →
        tooLarge content = true →
        ∃ message : string,
          result = (inl (Error.FileTooLargeError message), st))).
Proof.
  cbn zeta. split.
  - intros Hauth. unfold PostService.createPost. by rewrite Hauth.
  - intros [u Hauth]. destruct (authenticated_Some _ _ Hauth) as [-> _].
    rewrite (createPost_run _ _ _ _ _ _ Hauth).
    destruct (validation_cases content)
      as [(Hlacks & -> & Hfailure) | [(Hlacks & Hformat & -> & m & Hfailure)
         | [(Hlacks & Hformat & Hsize & -> & m & Hfailure)
           | (Hlacks & Hformat & Hsize & ->)]]];
      rewrite ?Hfailure; split_and!; intros; try congruence; eauto.
Qed.

Lemma createPost_rejections_witness :
  ∃ message : string,
    PostService.createPost "p9" 1 (Some "alice") bitmap None two_users
    = (inl (Error.InvalidFormatError message), two_users)
    ∧ Error.code (Error.InvalidFormatError message) = Some "INVALID_FORMAT".
Proof.
  destruct (createPost_rejections "p9" 1 (Some "alice") bitmap None two_users)
    as [_ Hrefused].
  destruct Hrefused as (_ & Hformat & _); [by eexists|].
  destruct Hformat as [message Hrun]; [reflexivity | reflexivity |].
  exists message. by split.
Defined.

(** X11. [createPost] by a caller with a user id and with acceptable
    content: the post is returned and stored under the id drawn, unedited,
    with both dates at the time of the call and friends-only unless a
    visibility was given; the author can read it back with [getPost]; the
    posts under other ids are untouched, and under a fresh id the post goes
    to the end of the store. *)
Theorem createPost_stores (postId : string) (now : Date)
  (userId : option string) (u : string) (content : PostContent.t)
  (visibility : option Visibility) (st : InMemoryStorage.t) :
  PostService.authenticated userId = Some u →
  lacksContent content = false →
  unsupportedFormat content = false →
  tooLarge content = false →
  let post :=
    Post.mk postId u content (default friends_only visibility) now now
      false in
  ∃ st' : InMemoryStorage.t,
    PostService.createPost postId now userId content visibility st
    = (inr post, st')
    ∧ InMemoryStorage.getPostById postId st' = Some post
    ∧ PostService.getPost postId userId st' = (inr (Some post), st')
    ∧ (∀ other : string,
         other ≠ postId →
         InMemoryStorage.getPostById other st'
         = InMemoryStorage.getPostById other st)
    ∧ (InMemoryStorage.getPostById postId st = None →
       InMemoryStorage.getAllPosts st'
       = app (InMemoryStorage.getAllPosts st) [post])
    ∧ (uniqueKeys (InMemoryStorage.posts st) →
       uniqueKeys (InMemoryStorage.posts st'))
    ∧ InMemoryStorage.friendsByUser st' = InMemoryStorage.friendsByUser st.
Proof.
  intros Hauth Hlacks Hformat Hsize post.
  destruct (authenticated_Some _ _ Hauth) as [-> _].
  rewrite (createPost_run _ _ _ _ _ _ Hauth).
  destruct (validation_cases content)
    as [(? & _) | [(_ & ? & _) | [(_ & _ & ? & _) | (_ & _ & _ & ->)]]];
    try congruence.
  cbn zeta. change DEFAULT_VISIBILITY with friends_only. fold post.
  exists (InMemoryStorage.createPost post st). split; [reflexivity|].
  assert (InMemoryStorage.getPostById postId
            (InMemoryStorage.createPost post st) = Some post) as Hstored.
  { apply get_set_same. }
  split_and!.
  - exact Hstored.
  - rewrite getPost_run, Hstored.
    unfold PostService.canViewPost. cbn.
    rewrite String.eqb_refl. by destruct (bool_decide _).
  - intros other Hother. unfold InMemoryStorage.getPostById. cbn.
    by apply get_set_other.
  - apply values_set_fresh.
  - apply uniqueKeys_set.
  - reflexivity.
Qed.

Lemma createPost_stores_witness :
  ∃ st' : InMemoryStorage.t,
    PostService.createPost "p4" 9 (Some "bob") greeting None three_posts
    = (inr (Post.mk "p4" "bob" greeting friends_only 9 9 false), st')
    ∧ InMemoryStorage.getAllPosts st'
      = [story "p1" 1; story "p2" 2; story "p3" 3;
         Post.mk "p4" "bob" greeting friends_only 9 9 false].
Proof.
  destruct (createPost_stores "p4" 9 (Some "bob") "bob" greeting None
              three_posts)
    as (st' & Hrun & _ & _ & _ & Hlast & _); [reflexivity..|].
  exists st'. split; [exact Hrun|]. by apply Hlast.
Defined.

(** ** Editing and deleting posts *)

Lemma updatePost_run (now : Date) (postId : string) (userId : option string)
  (updates : PostUpdate.t) (st : InMemoryStorage.t) :
  PostService.updatePost now postId userId updates st
  = match PostService.authenticated userId with
    | None => (inl Error.UnauthorizedError, st)
    | Some u =>
        match InMemoryStorage.getPostById postId st with
        | None => (inl Error.PostNotFoundError, st)
        | Some existing =>
            if negb (String.eqb (Post.authorId existing) u)
            then (inl Error.AccessDeniedError, st)
            else
              let updated :=
                Post.mk (Post.id existing) (Post.authorId existing)
                  (default (Post.content existing)
                     (PostUpdate.content updates))
                  (default (Post.visibility existing)
                     (PostUpdate.visibility updates))
                  (Post.createdAt existing) now true in
              match PostUpdate.content updates with
              | Some content =>
                  if PostService.ValidationResult.valid
                       (PostService.validateContent
                          (PostService.ContentArg.Object content))
                  then (inr updated, InMemoryStorage.updatePost updated st)
                  else
                    (inl (PostService.validationFailure
                            (PostService.ValidationResult.errors
                               (PostService.validateContent
                                  (PostService.ContentArg.Object
                                     content)))), st)
              | None => (inr updated, InMemoryStorage.updatePost updated st)
              end
        end
    end.
Proof.
  unfold PostService.updatePost.
  destruct (PostService.authenticated userId) as [u|]; [|reflexivity]. run.
  destruct (InMemoryStorage.getPostById postId st) as [existing|];
    [|reflexivity]. run.
  destruct (String.eqb (Post.authorId existing) u); [|reflexivity].
  cbn [negb].
  destruct (PostUpdate.content updates) as [content|]; run; [|reflexivity].
  destruct (PostService.ValidationResult.valid
              (PostService.validateContent
                 (PostService.ContentArg.Object content))); run;
    reflexivity.
Qed.

Lemma deletePost_run (postId : string) (userId : option string)
  (st : InMemoryStorage.t) :
  PostService.deletePost postId userId st
  = match PostService.authenticated userId with
    | None => (inl Error.UnauthorizedError, st)
    | Some u =>
        match InMemoryStorage.getPostById postId st with
        | None => (inl Error.PostNotFoundError, st)
        | Some existing =>
            if negb (String.eqb (Post.authorId existing) u)
            then (inl Error.AccessDeniedError, st)
            else (inr tt, (InMemoryStorage.deletePost postId st).2)
        end
    end.
Proof.
  unfold PostService.deletePost.
  destruct (PostService.authenticated userId) as [u|]; [|reflexivity]. run.
  destruct (InMemoryStorage.getPostById postId st) as [existing|];
    [|reflexivity]. run.
  destruct (String.eqb (Post.authorId existing) u); run; reflexivity.
Qed.

(** X12. A method of the post service that throws has written nothing:
    every check of [createPost], [updatePost] and [deletePost] comes before
    their one write; [getPost] never writes. *)
Theorem postService_throws_without_writing (st : InMemoryStorage.t)
  (e : Error.t) :
  (∀ (postId : string) (now : Date) (userId : option string)
     (content : PostContent.t) (visibility : option Visibility),
     (PostService.createPost postId now userId content visibility st).1
     = inl e →
     (PostService.createPost postId now userId content visibility st).2 = st)
  ∧ (∀ (now : Date) (postId : string) (userId : option string)
       (updates : PostUpdate.t),
       (PostService.updatePost now postId userId updates st).1 = inl e →
       (PostService.updatePost now postId userId updates st).2 = st)
  ∧ (∀ (postId : string) (userId : option string),
       (PostService.deletePost postId userId st).1 = inl e →
       (PostService.deletePost postId userId st).2 = st)
  ∧ (∀ (postId : string) (requesterId : option string),
       (PostService.getPost postId requesterId st).2 = st).
Proof.
  split_and!.
  - intros postId now userId content visibility.
    unfold PostService.createPost.
    destruct (PostService.authenticated userId); [|done]. run.
    by destruct (PostService.ValidationResult.valid _).
  - intros now postId userId updates. rewrite updatePost_run.
    repeat case_match; done.
  - intros postId userId. rewrite deletePost_run.
    repeat case_match; done.
  - intros postId requesterId. rewrite getPost_run.
    repeat case_match; done.
Qed.

Lemma postService_throws_without_writing_witness :
  (PostService.updatePost 9 "p1" (Some "bob")
     (PostUpdate.mk (Some greeting) None) three_posts).2 = three_posts.
Proof.
  destruct (postService_throws_without_writing three_posts
              Error.AccessDeniedError) as (_ & Hupdate & _).
  apply Hupdate. reflexivity.
Defined.

(** X13. The refusals of [updatePost], in the order in which they take
    precedence: a caller without a user id; then a post that does not
    exist; then a caller who is not the author; and only then new content
    that is lacking, of an unsupported format, or too large. An update by a
    stranger is denied even when its content is invalid. *)
Theorem updatePost_failure_order (now : Date) (postId : string)
  (userId : option string) (updates : PostUpdate.t)
  (st : InMemoryStorage.t) :
  let result := PostService.updatePost now postId userId updates st in
  (PostService.authenticated userId = None →
   result = (inl Error.UnauthorizedError, st))
  ∧ (∀ u : string,
       PostService.authenticated userId = Some u →
       (InMemoryStorage.getPostById postId st = None →
        result = (inl Error.PostNotFoundError, st))
       ∧ (∀ existing : Post.t,
            InMemoryStorage.getPostById postId st = Some existing →
            (Post.authorId existing ≠ u →
             result = (inl Error.AccessDeniedError, st))
            ∧ (∀ content : PostContent.t,
                 Post.authorId existing = u →
                 PostUpdate.content updates = Some content →
                 (lacksContent content = true →
                  result = (inl Error.EmptyContentError, st))
                 ∧ (lacksContent content = false →
                    unsupportedFormat content = true →
                    ∃ message : string,
                      result = (inl (Error.InvalidFormatError message), st))
                 ∧ (lacksContent content = false →
                    unsupportedFormat content = false →
                    tooLarge content = true →
                    ∃ message : string,
                      result
                      = (inl (Error.FileTooLargeError message), st))))).
Proof.
  cbn zeta. rewrite updatePost_run. split.
  - by intros ->.
  - intros u ->. split; [by intros ->|].
    intros existing ->. split.
    + intros Hother%String.eqb_neq. by rewrite Hother.
    + intros content <- ->. rewrite String.eqb_refl. cbn [negb].
      destruct (validation_cases content)
        as [(Hlacks & -> & Hfailure) | [(Hlacks & Hformat & -> & m & Hfailure)
           | [(Hlacks & Hformat & Hsize & -> & m & Hfailure)
             | (Hlacks & Hformat & Hsize & ->)]]];
        rewrite ?Hfailure; split_and!; intros; try congruence; eauto.
Qed.

Lemma updatePost_failure_order_witness :
  PostService.updatePost 9 "p1" (Some "bob")
    (PostUpdate.mk (Some bitmap) None) three_posts
  = (inl Error.AccessDeniedError, three_posts)
  ∧ ∃ message : string,
      PostService.updatePost 9 "p1" (Some "alice")
        (PostUpdate.mk (Some bitmap) None) three_posts
      = (inl (Error.InvalidFormatError message), three_posts).
Proof.
  destruct (updatePost_failure_order 9 "p1" (Some "bob")
              (PostUpdate.mk (Some bitmap) None) three_posts)
    as [_ Hbob].
  destruct (Hbob "bob" eq_refl) as [_ Hfound].
  destruct (Hfound (story "p1" 1) eq_refl) as [Hdenied _].
  split; [apply Hdenied; discriminate|].
  destruct (updatePost_failure_order 9 "p1" (Some "alice")
              (PostUpdate.mk (Some bitmap) None) three_posts)
    as [_ Halice].
  destruct (Halice "alice" eq_refl) as [_ Hfound'].
  destruct (Hfound' (story "p1" 1) eq_refl) as [_ Hcontent].
  destruct (Hcontent bitmap eq_refl eq_refl) as (_ & Hformat & _).
  apply Hformat; reflexivity.
Defined.

(** X14. [deletePost] by the author of an existing post: the call returns,
    the post is gone, the posts under other ids are untouched, and a second
    [deletePost] of the same id throws [PostNotFound]. The store is one in
    which no post id occurs twice, as in every store the service builds. *)
Theorem deletePost_removes (postId : string) (userId : option string)
  (u : string) (post : Post.t) (st : InMemoryStorage.t) :
  uniqueKeys (InMemoryStorage.posts st) →
  PostService.authenticated userId = Some u →
  InMemoryStorage.getPostById postId st = Some post →
  Post.authorId post = u →
  ∃ st' : InMemoryStorage.t,
    PostService.deletePost postId userId st = (inr tt, st')
    ∧ InMemoryStorage.getPostById postId st' = None
    ∧ (∀ other : string,
         other ≠ postId →
         InMemoryStorage.getPostById other st'
         = InMemoryStorage.getPostById other st)
    ∧ uniqueKeys (InMemoryStorage.posts st')
    ∧ (∀ requesterId : option string,
         PostService.getPost postId requesterId st' = (inr None, st'))
    ∧ PostService.deletePost postId userId st'
      = (inl Error.PostNotFoundError, st').
Proof.
  intros Hunique Hauth Hget Hauthor.
  rewrite deletePost_run, Hauth, Hget, Hauthor, String.eqb_refl. cbn [negb].
  eexists. split; [reflexivity|].
  unfold InMemoryStorage.deletePost, InMemoryStorage.getPostById in *.
  rewrite Hget. cbn [snd].
  assert (JsMap.get postId (JsMap.delete postId (InMemoryStorage.posts st))
          = None) as Hgone by by apply get_delete_same.
  split_and!.
  - exact Hgone.
  - intros other Hother. cbn. by apply get_delete_other.
  - by apply uniqueKeys_delete.
  - intros requesterId. rewrite getPost_run.
    unfold InMemoryStorage.getPostById. cbn [InMemoryStorage.posts].
    by rewrite Hgone.
  - rewrite deletePost_run, Hauth.
    unfold InMemoryStorage.getPostById. cbn [InMemoryStorage.posts].
    by rewrite Hgone.
Qed.

Lemma deletePost_removes_witness :
  ∃ st' : InMemoryStorage.t,
    PostService.deletePost "p2" (Some "alice") three_posts = (inr tt, st')
    ∧ InMemoryStorage.getAllPosts st' = [story "p1" 1; story "p3" 3]
    ∧ PostService.deletePost "p2" (Some "alice") st'
      = (inl Error.PostNotFoundError, st').
Proof.
  destruct (deletePost_removes "p2" (Some "alice") "alice" (story "p2" 2)
              three_posts)
    as (st' & Hrun & _ & _ & _ & _ & Hagain).
  - unfold uniqueKeys. cbn. repeat constructor; set_solver.
  - reflexivity.
  - reflexivity.
  - reflexivity.
  - exists st'. split; [exact Hrun|]. split; [|exact Hagain].
    assert (st' = (PostService.deletePost "p2" (Some "alice") three_posts).2)
      as -> by by rewrite Hrun.
    reflexivity.
Defined.

(** ** Pages of the feed *)

Lemma StronglySorted_firstn {A : Type} (R : A -> A -> Prop) (n : nat)
  (l : list A) :
  StronglySorted R l → StronglySorted R (firstn n l).
Proof.
  intros Hsorted. revert n.
  induction Hsorted as [|x l Hsorted IH Hall]; intros [|n]; cbn;
    try constructor.
  - apply IH.
  - rewrite <- (firstn_skipn n l) in Hall.
    by apply Forall_app in Hall as [Hall _].
Qed.

Lemma StronglySorted_skipn {A : Type} (R : A -> A -> Prop) (n : nat)
  (l : list A) :
  StronglySorted R l → StronglySorted R (skipn n l).
Proof.
  intros Hsorted. revert n.
  induction Hsorted as [|x l Hsorted IH Hall]; intros [|n]; cbn;
    try constructor; auto.
Qed.

Lemma filter_insert_sorted (q : Post.t -> bool) (x : Post.t)
  (l : list Post.t) :
  dated x → Forall dated l →
  StronglySorted newerFirst l →
  List.filter q (JsArray.insert FeedService.byCreatedAtDesc x l)
  = if q x
    then JsArray.insert FeedService.byCreatedAtDesc x (List.filter q l)
    else List.filter q l.
Proof.
  intros Hx Hl. induction 1 as [|y l Hsorted IH Hall]; cbn.
  - by destruct (q x).
  - apply Forall_cons in Hl as [Hy Hl]. specialize (IH Hl).
    rewrite (byCreatedAtDesc_dated x y Hx Hy).
    destruct (Z.leb_spec (Post.createdAt y - Post.createdAt x) 0) as [Hle|Hgt].
    + cbn. destruct (q x) eqn:Hqx; [|reflexivity].
      destruct (q y) eqn:Hqy; cbn.
      * rewrite (byCreatedAtDesc_dated x y Hx Hy).
        destruct (Z.leb_spec (Post.createdAt y - Post.createdAt x) 0);
          [done|lia].
      * clear IH Hsorted. induction l as [|z l IH]; cbn; [reflexivity|].
        apply Forall_cons in Hall as [Hz Hall].
        apply Forall_cons in Hl as [Hdz Hl].
        destruct (q z); cbn; [|by apply IH].
        rewrite (byCreatedAtDesc_dated x z Hx Hdz).
        unfold newerFirst in Hz.
        destruct (Z.leb_spec (Post.createdAt z - Post.createdAt x) 0);
          [done|lia].
    + cbn. rewrite IH. destruct (q x) eqn:Hqx, (q y) eqn:Hqy; cbn;
        try reflexivity.
      rewrite (byCreatedAtDesc_dated x y Hx Hy).
      destruct (Z.leb_spec (Post.createdAt y - Post.createdAt x) 0);
        [lia|done].
Qed.

Lemma filter_sort (q : Post.t -> bool) (l : list Post.t) :
  Forall dated l →
  List.filter q (JsArray.sort FeedService.byCreatedAtDesc l)
  = JsArray.sort FeedService.byCreatedAtDesc (List.filter q l).
Proof.
  induction 1 as [|x l Hx Hl IH]; cbn; [reflexivity|].
  rewrite filter_insert_sorted;
    [| exact Hx | by apply sort_dated | by apply sort_newerFirst].
  rewrite IH. by destruct (q x).
Qed.

Lemma slice_all {A : Type} (l : list A) (n : Z) :
  Z.of_nat (List.length l) <= n → JsArray.slice l 0 (0 + n) = l.
Proof.
  intros Hn. rewrite slice_nonneg by lia. cbn.
  apply firstn_all2. lia.
Qed.

Lemma wholeFeed_sorted (viewer : option string) (st : InMemoryStorage.t) :
  wholeFeed viewer st
  = JsArray.sort FeedService.byCreatedAtDesc (visibleTo viewer st).
Proof.
  unfold wholeFeed, FeedService.getFeed.
  cbn [FeedResult.posts Pagination.limit Pagination.offset].
  fold (visibleTo viewer st). apply slice_all.
  rewrite sort_length. unfold visibleTo.
  pose proof (filter_length_le
                (fun post => PostService.canViewPost post viewer st)
                (InMemoryStorage.getAllPosts st)). lia.
Qed.

(** X15. Whatever the limit and the offset, integers of either sign, a
    page of the feed holds only posts of the store that the viewer may see,
    and no more of them than [total]; with a limit and an offset that are
    not negative, no more than the limit; and when the creation dates in
    the store are valid, the page is ordered newest first. *)
Theorem getFeed_page_sound (viewer : option string) (limit offset : Z)
  (st : InMemoryStorage.t) :
  let feed := FeedService.getFeed viewer (Pagination.mk limit offset) st in
  (∀ post : Post.t,
     In post (FeedResult.posts feed) →
     In post (InMemoryStorage.getAllPosts st)
     ∧ PostService.canViewPost post viewer st = true)
  ∧ (datedPosts st → StronglySorted newerFirst (FeedResult.posts feed))
  ∧ Z.of_nat (List.length (FeedResult.posts feed)) <= FeedResult.total feed
  ∧ (0 <= limit → 0 <= offset →
     Z.of_nat (List.length (FeedResult.posts feed)) <= limit).
Proof.
  cbn zeta. split_and!.
  - intros post. apply In_getFeed.
  - intros Hdated. unfold FeedService.getFeed, JsArray.slice.
    cbn [FeedResult.posts].
    apply StronglySorted_firstn, StronglySorted_skipn, sort_newerFirst.
    by apply (visibleTo_dated viewer).
  - unfold FeedService.getFeed, JsArray.slice.
    cbn [FeedResult.posts FeedResult.total].
    rewrite length_firstn, length_skipn. lia.
  - intros Hlimit Hoffset. unfold FeedService.getFeed.
    cbn [FeedResult.posts Pagination.limit Pagination.offset].
    rewrite slice_nonneg by done. rewrite length_firstn. lia.
Qed.

Lemma getFeed_page_sound_witness :
  StronglySorted newerFirst
    (FeedResult.posts
       (FeedService.getFeed None (Pagination.mk 2 0) three_posts))
  ∧ Z.of_nat
      (List.length
         (FeedResult.posts
            (FeedService.getFeed None (Pagination.mk 2 0) three_posts)))
    <= 2.
Proof.
  destruct (getFeed_page_sound None 2 0 three_posts)
    as (_ & Hordered & _ & Hlimit).
  split; [apply Hordered; repeat constructor | apply Hlimit; lia].
Defined.

(** X16. Pages tile the feed: for an offset and limits that are not
    negative, the page of [a] posts at [offset] followed by the page of [b]
    posts at [offset + a] is the page of [a + b] posts at [offset];
    [hasMore] is true exactly when [offset + limit] is below [total], and a
    page that reports no more is followed by an empty page. *)
Theorem getFeed_pages_tile (viewer : option string) (offset a b : Z)
  (st : InMemoryStorage.t) :
  0 <= offset → 0 <= a → 0 <= b →
  let page limit offset :=
    FeedService.getFeed viewer (Pagination.mk limit offset) st in
  app (FeedResult.posts (page a offset))
      (FeedResult.posts (page b (offset + a)))
  = FeedResult.posts (page (a + b) offset)
  ∧ (FeedResult.hasMore (page a offset) = true
     ↔ offset + a < FeedResult.total (page a offset))
  ∧ (FeedResult.hasMore (page a offset) = false →
     FeedResult.posts (page b (offset + a)) = []).
Proof.
  intros Hoffset Ha Hb. cbn zeta. unfold FeedService.getFeed.
  cbn [FeedResult.posts FeedResult.hasMore FeedResult.total
       Pagination.limit Pagination.offset].
  rewrite !slice_nonneg by lia.
  set (sorted := JsArray.sort FeedService.byCreatedAtDesc _).
  split_and!.
  - rewrite !Z2Nat.inj_add by lia.
    rewrite <- (drop_drop sorted (Z.to_nat a) (Z.to_nat offset)).
    apply take_take_drop.
  - rewrite Z.ltb_lt, length_firstn, length_skipn. lia.
  - rewrite Z.ltb_ge, length_firstn, length_skipn. intros Hlast.
    rewrite skipn_all2 by lia. by rewrite firstn_nil.
Qed.

Lemma getFeed_pages_tile_witness :
  app (FeedResult.posts
         (FeedService.getFeed None (Pagination.mk 1 0) three_posts))
      (FeedResult.posts
         (FeedService.getFeed None (Pagination.mk 2 1) three_posts))
  = [story "p3" 3; story "p2" 2; story "p1" 1].
Proof.
  destruct (getFeed_pages_tile None 0 1 2 three_posts) as [Htile _];
    [lia..|].
  etransitivity; [exact Htile | reflexivity].
Defined.

(** X17. In a store whose creation dates are valid, the feed of an
    anonymous viewer is the public part of the feed of any viewer: the same
    posts in the same order, once the posts that are not public are left
    out. In any store its [total] is at most the viewer's. *)
Theorem anonymous_feed_is_public_part (viewer : option string)
  (st : InMemoryStorage.t) :
  (datedPosts st →
   wholeFeed None st = List.filter isPublic (wholeFeed viewer st))
  ∧ FeedResult.total
      (FeedService.getFeed None (Pagination.mk 0 0) st)
    <= FeedResult.total
         (FeedService.getFeed viewer (Pagination.mk 0 0) st).
Proof.
  assert (visibleTo None st = List.filter isPublic (visibleTo viewer st))
    as Hpublic.
  { assert (∀ post : Post.t,
              PostService.canViewPost post None st = isPublic post
              ∧ (isPublic post = true →
                 PostService.canViewPost post viewer st = true)) as Hcan.
    { intros post. unfold PostService.canViewPost, isPublic.
      by destruct (bool_decide (Post.visibility post = public)). }
    unfold visibleTo.
    induction (InMemoryStorage.getAllPosts st) as [|post posts IH];
      [reflexivity|].
    cbn [List.filter]. destruct (Hcan post) as [-> Hsees].
    destruct (isPublic post) eqn:Hpost.
    - rewrite (Hsees eq_refl). cbn [List.filter]. by rewrite Hpost, IH.
    - destruct (PostService.canViewPost post viewer st);
        cbn [List.filter]; rewrite ?Hpost; exact IH. }
  split.
  - intros Hdated.
    rewrite !wholeFeed_sorted, filter_sort by by apply visibleTo_dated.
    by rewrite Hpublic.
  - unfold FeedService.getFeed. cbn [FeedResult.total].
    fold (visibleTo None st) (visibleTo viewer st).
    rewrite !sort_length, Hpublic.
    pose proof (filter_length_le isPublic (visibleTo viewer st)). lia.
Qed.

Lemma anonymous_feed_is_public_part_witness :
  wholeFeed (Some "alice") (InMemoryStorage.createPost diary three_posts)
  = [diary; story "p3" 3; story "p2" 2; story "p1" 1]
  ∧ wholeFeed None (InMemoryStorage.createPost diary three_posts)
    = [story "p3" 3; story "p2" 2; story "p1" 1].
Proof.
  split; [vm_compute; reflexivity|].
  destruct (anonymous_feed_is_public_part (Some "alice")
              (InMemoryStorage.createPost diary three_posts))
    as [Hpublic _].
  rewrite Hpublic by repeat constructor. vm_compute. reflexivity.
Defined.

(** ** Passwords *)

Lemma hexNibble_not_colon (c : ascii) :
  is_some (JsBuffer.hexNibble c) = true → Ascii.eqb c ":" = false.
Proof.
  destruct (Ascii.eqb_spec c ":") as [->|]; [discriminate | reflexivity].
Qed.

Lemma split_hex (s : string) :
  isHex s = true → JsString.split ":" s = [s].
Proof.
  induction s as [|c s IH]; cbn; [reflexivity|].
  intros [Hc Hs]%andb_true_iff.
  by rewrite (hexNibble_not_colon c Hc), (IH Hs).
Qed.

Lemma split_hex_colon (s rest : string) :
  isHex s = true →
  JsString.split ":" (s +:+ ":" +:+ rest) = s :: JsString.split ":" rest.
Proof.
  induction s as [|c s IH]; intros Hs.
  - rewrite append_nil, append_cons, append_nil. reflexivity.
  - cbn in Hs. apply andb_true_iff in Hs as [Hc Hs].
    rewrite append_cons. cbn [JsString.split].
    by rewrite (hexNibble_not_colon c Hc), (IH Hs).
Qed.

Lemma fromHex_length_aux (n : nat) (s : string) :
  (String.length s <= 2 * n)%nat →
  isHex s = true →
  List.length (JsBuffer.fromHex s) = Nat.div2 (String.length s).
Proof.
  revert s. induction n as [|n IH]; intros s Hn Hs.
  - destruct s; [reflexivity | cbn in Hn; lia].
  - destruct s as [|a [|b s]]; [reflexivity..|].
    cbn in Hs. apply andb_true_iff in Hs as [Ha Hs].
    apply andb_true_iff in Hs as [Hb Hs].
    cbn [JsBuffer.fromHex].
    destruct (JsBuffer.hexNibble a); [|discriminate].
    destruct (JsBuffer.hexNibble b); [|discriminate].
    cbn [List.length String.length Nat.div2]. f_equal.
    apply IH; [cbn in Hn; lia | exact Hs].
Qed.

Lemma fromHex_length (s : string) :
  isHex s = true →
  List.length (JsBuffer.fromHex s) = Nat.div2 (String.length s).
Proof. apply (fromHex_length_aux (String.length s)). lia. Qed.

Lemma derivesKeys_truthy (pbkdf2 : string -> string -> string)
  (password salt : string) :
  derivesKeys pbkdf2 → JsString.truthy (pbkdf2 password salt) = true.
Proof.
  intros Hkeys. destruct (Hkeys password salt) as [_ Hlength].
  by destruct (pbkdf2 password salt).
Qed.

Lemma verifyPassword_run (pbkdf2 : string -> string -> string)
  (salt password attempt : string) :
  derivesKeys pbkdf2 →
  isHex salt = true → salt ≠ "" →
  AuthenticationService.verifyPassword pbkdf2 attempt
    (AuthenticationService.hashPassword pbkdf2 salt password)
  = inr (bool_decide (JsBuffer.fromHex (pbkdf2 password salt)
                      = JsBuffer.fromHex (pbkdf2 attempt salt))).
Proof.
  intros Hkeys Hsalt Hnonempty.
  unfold AuthenticationService.verifyPassword,
    AuthenticationService.hashPassword.
  destruct (Hkeys password salt) as [Hhex Hlength].
  destruct (Hkeys attempt salt) as [Hhex' Hlength'].
  rewrite (split_hex_colon _ _ Hsalt), (split_hex _ Hhex).
  rewrite (truthy_nonempty _ Hnonempty), (derivesKeys_truthy _ _ _ Hkeys).
  cbn [negb orb]. unfold JsBuffer.timingSafeEqual.
  rewrite !fromHex_length, Hlength, Hlength' by done.
  by rewrite Nat.eqb_refl.
Qed.

(** X18. A password verifies against the hash that [hashPassword] made of
    it, whatever salt was drawn; another attempt verifies exactly when it
    derives the same key bytes under that salt, and [verifyPassword] does
    not throw on such a hash. The key derivation is any function that
    yields 128 hexadecimal digits, the salt any non-empty hexadecimal
    text. *)
Theorem verifyPassword_hashPassword (pbkdf2 : string -> string -> string)
  (salt password : string) :
  derivesKeys pbkdf2 →
  isHex salt = true → salt ≠ "" →
  AuthenticationService.verifyPassword pbkdf2 password
    (AuthenticationService.hashPassword pbkdf2 salt password) = inr true
  ∧ ∀ attempt : string,
      AuthenticationService.verifyPassword pbkdf2 attempt
        (AuthenticationService.hashPassword pbkdf2 salt password)
      = inr (bool_decide (JsBuffer.fromHex (pbkdf2 password salt)
                          = JsBuffer.fromHex (pbkdf2 attempt salt))).
Proof.
  intros Hkeys Hsalt Hnonempty. split.
  - rewrite verifyPassword_run by done. by rewrite bool_decide_eq_true_2.
  - intros attempt. by apply verifyPassword_run.
Qed.

Lemma derivesKeys_sampleKdf : derivesKeys sampleKdf.
Proof.
  intros password salt. unfold sampleKdf.
  destruct (String.eqb password "secret"); split; reflexivity.
Qed.

Lemma verifyPassword_hashPassword_witness :
  AuthenticationService.verifyPassword sampleKdf "secret"
    (AuthenticationService.hashPassword sampleKdf "5a" "secret") = inr true
  ∧ AuthenticationService.verifyPassword sampleKdf "guess"
      (AuthenticationService.hashPassword sampleKdf "5a" "secret")
    = inr false.
Proof.
  destruct (verifyPassword_hashPassword sampleKdf "5a" "secret")
    as [Hright Hwrong];
    [exact derivesKeys_sampleKdf | reflexivity | discriminate |].
  split; [exact Hright|]. rewrite Hwrong. reflexivity.
Defined.

(** ** Registration, login and sessions *)

Lemma register_run (pbkdf2 : string -> string -> string) (uuid salt : string)
  (now : Date) (email username password : string) (st : InMemoryStorage.t) :
  AuthenticationService.register pbkdf2 uuid salt now email username
    password st
  = if negb (JsString.truthy email) || negb (JsString.truthy username)
       || negb (JsString.truthy password)
    then
      (inl (Error.PlainError "Email, username, and password are required"),
       st)
    else if is_some (InMemoryStorage.getUserByEmail email st)
    then (inl Error.DuplicateEmailError, st)
    else if is_some (InMemoryStorage.getUserByUsername username st)
    then (inl Error.DuplicateUsernameError, st)
    else
      let user :=
        User.mk uuid (JsString.trim (JsString.toLowerCase email))
          (JsString.trim username)
          (AuthenticationService.hashPassword pbkdf2 salt password) now in
      (inr user, InMemoryStorage.createUser user st).
Proof.
  unfold AuthenticationService.register. run.
  destruct (negb (JsString.truthy email) || negb (JsString.truthy username)
            || negb (JsString.truthy password)); [reflexivity|]. run.
  destruct (is_some (InMemoryStorage.getUserByEmail email st));
    [reflexivity|]. run.
  destruct (is_some (InMemoryStorage.getUserByUsername username st));
    [reflexivity|]. run. reflexivity.
Qed.

Lemma login_run (pbkdf2 : string -> string -> string) (uuid token : string)
  (now : Date) (email password : string) (st : InMemoryStorage.t) :
  AuthenticationService.login pbkdf2 uuid token now email password st
  = match InMemoryStorage.getUserByEmail email st with
    | None => (inl Error.InvalidCredentialsError, st)
    | Some user =>
        match AuthenticationService.verifyPassword pbkdf2 password
                (User.passwordHash user) with
        | inl e => (inl e, st)
        | inr false => (inl Error.InvalidCredentialsError, st)
        | inr true =>
            let session :=
              Session.mk uuid (User.id user) token
                (now + AuthenticationService.SESSION_DURATION_MS) in
            (inr session, InMemoryStorage.createSession session st)
        end
    end.
Proof.
  unfold AuthenticationService.login. run.
  destruct (InMemoryStorage.getUserByEmail email st) as [user|];
    [|reflexivity].
  destruct (AuthenticationService.verifyPassword pbkdf2 password
              (User.passwordHash user)) as [e|[]]; run; reflexivity.
Qed.

Lemma getUserByEmail_createUser (user : User.t) (email : string)
  (st : InMemoryStorage.t) :
  User.id user ≠ "" →
  JsString.toLowerCase email = JsString.toLowerCase (User.email user) →
  InMemoryStorage.getUserByEmail email (InMemoryStorage.createUser user st)
  = Some user.
Proof.
  intros Hid Hemail. unfold InMemoryStorage.getUserByEmail. cbn.
  rewrite Hemail, lookup_insert_eq, (truthy_nonempty _ Hid).
  apply lookup_insert_eq.
Qed.

Lemma getSessionByToken_createSession (session : Session.t)
  (st : InMemoryStorage.t) :
  Session.id session ≠ "" →
  InMemoryStorage.getSessionByToken (Session.token session)
    (InMemoryStorage.createSession session st) = Some session.
Proof.
  intros Hid. unfold InMemoryStorage.getSessionByToken. cbn.
  rewrite lookup_insert_eq, (truthy_nonempty _ Hid).
  apply lookup_insert_eq.
Qed.

Lemma validateSessionByToken_run (now : Date) (token : string)
  (st : InMemoryStorage.t) :
  AuthenticationService.validateSessionByToken now token st
  = match InMemoryStorage.getSessionByToken token st with
    | None => (inr None, st)
    | Some session =>
        if now >? Session.expiresAt session
        then
          (inr None,
           (InMemoryStorage.deleteSession (Session.id session) st).2)
        else
          (inr (InMemoryStorage.getUserById (Session.userId session) st), st)
    end.
Proof.
  unfold AuthenticationService.validateSessionByToken. run.
  destruct (InMemoryStorage.getSessionByToken token st) as [session|];
    [|reflexivity].
  destruct (now >? Session.expiresAt session); run; reflexivity.
Qed.

Lemma validateSession_run (now : Date) (sessionId : string)
  (st : InMemoryStorage.t) :
  AuthenticationService.validateSession now sessionId st
  = match InMemoryStorage.getSessionById sessionId st with
    | None => (inr None, st)
    | Some session =>
        if now >? Session.expiresAt session
        then (inr None, (InMemoryStorage.deleteSession sessionId st).2)
        else
          (inr (InMemoryStorage.getUserById (Session.userId session) st), st)
    end.
Proof.
  unfold AuthenticationService.validateSession. run.
  destruct (InMemoryStorage.getSessionById sessionId st) as [session|];
    [|reflexivity].
  destruct (now >? Session.expiresAt session); run; reflexivity.
Qed.

Lemma logout_run (sessionId : string) (st : InMemoryStorage.t) :
  AuthenticationService.logout sessionId st
  = match InMemoryStorage.getSessionById sessionId st with
    | None => (inl Error.InvalidSessionError, st)
    | Some session =>
        (inr tt, (InMemoryStorage.deleteSession sessionId st).2)
    end.
Proof.
  unfold AuthenticationService.logout, InMemoryStorage.getSessionById. run.
  unfold InMemoryStorage.deleteSession.
  destruct (InMemoryStorage.sessions st !! sessionId); reflexivity.
Qed.

Lemma deleteSession_gone (sessionId : string) (session : Session.t)
  (st : InMemoryStorage.t) :
  InMemoryStorage.getSessionById sessionId st = Some session →
  let st' := (InMemoryStorage.deleteSession sessionId st).2 in
  InMemoryStorage.getSessionById sessionId st' = None
  ∧ InMemoryStorage.getSessionByToken (Session.token session) st' = None
  ∧ (∀ other : string,
       other ≠ sessionId →
       InMemoryStorage.getSessionById other st'
       = InMemoryStorage.getSessionById other st)
  ∧ InMemoryStorage.users st' = InMemoryStorage.users st.
Proof.
  unfold InMemoryStorage.getSessionById, InMemoryStorage.getSessionByToken,
    InMemoryStorage.deleteSession.
  intros ->. cbn. split_and!.
  - apply lookup_delete_eq.
  - by rewrite lookup_delete_eq.
  - intros other Hother. by apply lookup_delete_ne.
  - reflexivity.
Qed.

(** X19. [register] with three non-empty inputs returns exactly when
    [getUserByEmail] finds no user for the email and [getUserByUsername]
    none for the username, both as typed up to case; it throws
    [DuplicateEmail] before [DuplicateUsername]. The user it stores has the
    id drawn, the email in lower case and trimmed, the username trimmed and
    the hash of the password, and can be found by id, by email and by
    username. *)
Theorem register_stores (pbkdf2 : string -> string -> string)
  (uuid salt : string) (now : Date) (email username password : string)
  (st : InMemoryStorage.t) :
  email ≠ "" → username ≠ "" → password ≠ "" →
  let result :=
    AuthenticationService.register pbkdf2 uuid salt now email username
      password st in
  let user :=
    User.mk uuid (JsString.trim (JsString.toLowerCase email))
      (JsString.trim username)
      (AuthenticationService.hashPassword pbkdf2 salt password) now in
  (is_Some (InMemoryStorage.getUserByEmail email st) →
   result = (inl Error.DuplicateEmailError, st))
  ∧ (InMemoryStorage.getUserByEmail email st = None →
     is_Some (InMemoryStorage.getUserByUsername username st) →
     result = (inl Error.DuplicateUsernameError, st))
  ∧ (InMemoryStorage.getUserByEmail email st = None →
     InMemoryStorage.getUserByUsername username st = None →
     result = (inr user, InMemoryStorage.createUser user st)
     ∧ InMemoryStorage.getUserById uuid result.2 = Some user
     ∧ (uuid ≠ "" →
        InMemoryStorage.getUserByEmail (User.email user) result.2 = Some user
        ∧ InMemoryStorage.getUserByUsername (User.username user) result.2
          = Some user)).
Proof.
  intros Hemail%truthy_nonempty Husername%truthy_nonempty
    Hpassword%truthy_nonempty. cbn zeta.
  rewrite register_run, Hemail, Husername, Hpassword. cbn [negb orb].
  split_and!.
  - by intros [found ->].
  - by intros -> [found ->].
  - intros -> ->. cbn [is_some fst snd]. split_and!.
    + reflexivity.
    + apply lookup_insert_eq.
    + intros Hid. split.
      * by apply getUserByEmail_createUser.
      * unfold InMemoryStorage.getUserByUsername. cbn.
        rewrite lookup_insert_eq, (truthy_nonempty _ Hid).
        apply lookup_insert_eq.
Qed.

Lemma register_stores_witness :
  AuthenticationService.register sampleKdf "u3" "5a" 0 "Carol@Example.com "
    "carol" "secret" two_users
  = (inr carol, with_carol)
  ∧ InMemoryStorage.getUserByEmail "CAROL@example.com" with_carol
    = Some carol.
Proof.
  destruct (register_stores sampleKdf "u3" "5a" 0 "Carol@Example.com "
              "carol" "secret" two_users)
    as (_ & _ & Hstored); [discriminate..|].
  destruct Hstored as (Hrun & _ & Hfound); [reflexivity..|].
  split; [exact Hrun|]. reflexivity.
Defined.

(** X20. Registration and login compose: after [register] has returned a
    user, [login] with the stored email, in any case, and the same password
    returns a session of that user that expires 24 hours after the call,
    and [validateSessionByToken] resolves its token to the user up to and
    including the instant of expiry; a password that derives other key
    bytes is refused with [InvalidCredentials] and nothing is written. *)
Theorem login_after_register (pbkdf2 : string -> string -> string)
  (uuid salt : string) (now : Date) (email username password : string)
  (st st1 : InMemoryStorage.t) (user : User.t)
  (sessionId token typed : string) (later : Date) :
  derivesKeys pbkdf2 →
  isHex salt = true → salt ≠ "" →
  uuid ≠ "" → sessionId ≠ "" →
  AuthenticationService.register pbkdf2 uuid salt now email username
    password st = (inr user, st1) →
  JsString.toLowerCase typed = JsString.toLowerCase (User.email user) →
  let session :=
    Session.mk sessionId uuid token
      (later + AuthenticationService.SESSION_DURATION_MS) in
  ∃ st2 : InMemoryStorage.t,
    AuthenticationService.login pbkdf2 sessionId token later typed password
      st1 = (inr session, st2)
    ∧ (∀ t : Date,
         t <= later + 86400000 →
         AuthenticationService.validateSessionByToken t token st2
         = (inr (Some user), st2))
    ∧ (∀ (attempt sessionId' token' : string) (t : Date),
         JsBuffer.fromHex (pbkdf2 attempt salt)
         ≠ JsBuffer.fromHex (pbkdf2 password salt) →
         AuthenticationService.login pbkdf2 sessionId' token' t typed attempt
           st1 = (inl Error.InvalidCredentialsError, st1)).
Proof.
  intros Hkeys Hsalt Hnonempty Huuid Hsession Hregister Htyped.
  rewrite register_run in Hregister.
  repeat match type of Hregister with
         | (if ?c then _ else _) = _ =>
             destruct c; [discriminate|]
         end.
  cbn zeta in Hregister. injection Hregister as <- <-.
  cbn [User.email] in Htyped. cbn zeta.
  set (user :=
         User.mk uuid (JsString.trim (JsString.toLowerCase email))
           (JsString.trim username)
           (AuthenticationService.hashPassword pbkdf2 salt password) now).
  set (st1 := InMemoryStorage.createUser user st).
  assert (∀ (attempt sessionId' token' : string) (t : Date),
            AuthenticationService.login pbkdf2 sessionId' token' t typed
              attempt st1
            = if bool_decide (JsBuffer.fromHex (pbkdf2 password salt)
                              = JsBuffer.fromHex (pbkdf2 attempt salt))
              then
                (inr (Session.mk sessionId' uuid token'
                        (t + AuthenticationService.SESSION_DURATION_MS)),
                 InMemoryStorage.createSession
                   (Session.mk sessionId' uuid token'
                      (t + AuthenticationService.SESSION_DURATION_MS)) st1)
              else (inl Error.InvalidCredentialsError, st1)) as Hlogin.
  { intros attempt sessionId' token' t. rewrite login_run. unfold st1.
    rewrite getUserByEmail_createUser by done.
    cbn [User.passwordHash User.id user].
    rewrite verifyPassword_run by done. reflexivity. }
  eexists. split_and!.
  - rewrite Hlogin. by rewrite bool_decide_eq_true_2.
  - intros t Ht. rewrite validateSessionByToken_run.
    rewrite (getSessionByToken_createSession
               (Session.mk sessionId uuid token _)) by done.
    cbn [Session.expiresAt Session.userId].
    unfold AuthenticationService.SESSION_DURATION_MS.
    destruct (Z.gtb_spec t (later + 24 * 60 * 60 * 1000)); [lia|].
    do 2 f_equal. apply lookup_insert_eq.
  - intros attempt sessionId' token' t Hwrong. rewrite Hlogin.
    by rewrite bool_decide_eq_false_2.
Qed.

Lemma login_after_register_witness :
  ∃ st2 : InMemoryStorage.t,
    AuthenticationService.login sampleKdf "s3" "t3" 1000 "CAROL@example.com"
      "secret" with_carol = (inr carol_session, st2)
    ∧ AuthenticationService.validateSessionByToken 86401000 "t3" st2
      = (inr (Some carol), st2)
    ∧ AuthenticationService.login sampleKdf "s4" "t4" 2000
        "CAROL@example.com" "guess" with_carol
      = (inl Error.InvalidCredentialsError, with_carol).
Proof.
  destruct (login_after_register sampleKdf "u3" "5a" 0 "Carol@Example.com "
              "carol" "secret" two_users with_carol carol "s3" "t3"
              "CAROL@example.com" 1000)
    as (st2 & Hlogin & Hvalid & Hwrong);
    [exact derivesKeys_sampleKdf | reflexivity | discriminate | discriminate
    | discriminate | reflexivity | reflexivity |].
  exists st2. split_and!.
  - exact Hlogin.
  - apply Hvalid. lia.
  - apply Hwrong. discriminate.
Defined.

(** X21. What [login] refuses: an email under which no user is found and a
    password that does not verify are refused alike, with
    [InvalidCredentials]; an error thrown by [verifyPassword] passes
    through; and a [login] that throws has written nothing. *)
Theorem login_failures (pbkdf2 : string -> string -> string)
  (uuid token : string) (now : Date) (email password : string)
  (st : InMemoryStorage.t) :
  let result :=
    AuthenticationService.login pbkdf2 uuid token now email password st in
  (InMemoryStorage.getUserByEmail email st = None →
   result = (inl Error.InvalidCredentialsError, st))
  ∧ (∀ user : User.t,
       InMemoryStorage.getUserByEmail email st = Some user →
       AuthenticationService.verifyPassword pbkdf2 password
         (User.passwordHash user) = inr false →
       result = (inl Error.InvalidCredentialsError, st))
  ∧ (∀ (user : User.t) (e : Error.t),
       InMemoryStorage.getUserByEmail email st = Some user →
       AuthenticationService.verifyPassword pbkdf2 password
         (User.passwordHash user) = inl e →
       result = (inl e, st))
  ∧ (∀ e : Error.t, result.1 = inl e → result.2 = st).
Proof.
  cbn zeta. rewrite login_run. split_and!.
  - by intros ->.
  - by intros user -> ->.
  - by intros user e -> ->.
  - intros e. repeat case_match; done.
Qed.

Lemma login_failures_witness :
  AuthenticationService.login sampleKdf "s9" "t9" 5 "nobody@example.com"
    "secret" with_carol
  = (inl Error.InvalidCredentialsError, with_carol)
  ∧ AuthenticationService.login sampleKdf "s9" "t9" 5 "carol@example.com"
      "guess" with_carol
    = (inl Error.InvalidCredentialsError, with_carol)
  ∧ AuthenticationService.login sampleKdf "s9" "t9" 5 "alice@example.com"
      "secret" with_carol
    = (inl (Error.NativeError "RangeError"), with_carol).
Proof.
  split_and!.
  - destruct (login_failures sampleKdf "s9" "t9" 5 "nobody@example.com"
                "secret" with_carol) as [Hunknown _].
    by apply Hunknown.
  - destruct (login_failures sampleKdf "s9" "t9" 5 "carol@example.com"
                "guess" with_carol) as (_ & Hwrong & _).
    by apply (Hwrong carol).
  - destruct (login_failures sampleKdf "s9" "t9" 5 "alice@example.com"
                "secret" with_carol) as (_ & _ & Hthrown & _).
    by apply (Hthrown alice).
Defined.

(** X22. [logout] of a stored session returns and ends it: the session is
    found neither by id nor by token, both validations return [null] at
    any time, a second [logout] throws [InvalidSession], and the other
    sessions and the users are untouched. [logout] of an id that names no
    session throws [InvalidSession] and writes nothing. *)
Theorem logout_ends_session (sessionId : string) (st : InMemoryStorage.t) :
  let result := AuthenticationService.logout sessionId st in
  (InMemoryStorage.getSessionById sessionId st = None →
   result = (inl Error.InvalidSessionError, st))
  ∧ (∀ session : Session.t,
       InMemoryStorage.getSessionById sessionId st = Some session →
       result.1 = inr tt
       ∧ InMemoryStorage.getSessionById sessionId result.2 = None
       ∧ InMemoryStorage.getSessionByToken (Session.token session) result.2
         = None
       ∧ (∀ now : Date,
            AuthenticationService.validateSession now sessionId result.2
            = (inr None, result.2))
       ∧ (∀ now : Date,
            AuthenticationService.validateSessionByToken now
              (Session.token session) result.2
            = (inr None, result.2))
       ∧ AuthenticationService.logout sessionId result.2
         = (inl Error.InvalidSessionError, result.2)
       ∧ (∀ other : string,
            other ≠ sessionId →
            InMemoryStorage.getSessionById other result.2
            = InMemoryStorage.getSessionById other st)
       ∧ InMemoryStorage.users result.2 = InMemoryStorage.users st).
Proof.
  cbn zeta. rewrite logout_run. split.
  - by intros ->.
  - intros session Hget. rewrite Hget. cbn [fst snd].
    destruct (deleteSession_gone _ _ _ Hget)
      as (Hid & Htoken & Hothers & Husers).
    cbn zeta in *. split_and!; try done.
    + intros now. by rewrite validateSession_run, Hid.
    + intros now. by rewrite validateSessionByToken_run, Htoken.
    + by rewrite logout_run, Hid.
Qed.

Lemma logout_ends_session_witness :
  (AuthenticationService.logout "s3" carol_logged_in).1 = inr tt
  ∧ AuthenticationService.validateSessionByToken 1001 "t3"
      (AuthenticationService.logout "s3" carol_logged_in).2
    = (inr None, (AuthenticationService.logout "s3" carol_logged_in).2).
Proof.
  destruct (logout_ends_session "s3" carol_logged_in) as [_ Hended].
  destruct (Hended carol_session eq_refl)
    as (Hrun & _ & _ & _ & Htoken & _).
  split; [exact Hrun | apply Htoken].
Defined.

(** X23. A session is good up to and including the instant at which it
    expires: until then [validateSession] returns its user and writes
    nothing; past that instant it returns [null] and deletes the session,
    which no later validation finds again, whatever the clock then reads.
    The dates are valid ones. *)
Theorem validateSession_expiry (now : Date) (sessionId : string)
  (session : Session.t) (user : User.t) (st : InMemoryStorage.t) :
  InMemoryStorage.getSessionById sessionId st = Some session →
  InMemoryStorage.getUserById (Session.userId session) st = Some user →
  JsDate.isValid now = true →
  JsDate.isValid (Session.expiresAt session) = true →
  let result := AuthenticationService.validateSession now sessionId st in
  (now <= Session.expiresAt session → result = (inr (Some user), st))
  ∧ (Session.expiresAt session < now →
     result.1 = inr None
     ∧ InMemoryStorage.getSessionById sessionId result.2 = None
     ∧ InMemoryStorage.getSessionByToken (Session.token session) result.2
       = None
     ∧ ∀ again : Date,
         AuthenticationService.validateSession again sessionId result.2
         = (inr None, result.2)).
Proof.
  intros Hget Huser _ _. cbn zeta. rewrite validateSession_run, Hget.
  destruct (Z.gtb_spec now (Session.expiresAt session)); split; try lia.
  - intros _. cbn [fst snd].
    destruct (deleteSession_gone _ _ _ Hget) as (Hid & Htoken & _).
    cbn zeta in *. split_and!; try done.
    intros again. by rewrite validateSession_run, Hid.
  - intros _. by rewrite Huser.
Qed.

Lemma validateSession_expiry_witness :
  AuthenticationService.validateSession 86401000 "s3" carol_logged_in
  = (inr (Some carol), carol_logged_in)
  ∧ (AuthenticationService.validateSession 86401001 "s3" carol_logged_in).1
    = inr None.
Proof.
  split.
  - destruct (validateSession_expiry 86401000 "s3" carol_session carol
                carol_logged_in) as [Hlive _]; [reflexivity..|].
    apply Hlive. vm_compute. discriminate.
  - destruct (validateSession_expiry 86401001 "s3" carol_session carol
                carol_logged_in) as [_ Hexpired]; [reflexivity..|].
    apply Hexpired. reflexivity.
Defined.

(** ** The HTTP layer *)

Lemma requireAuth_run (now : Date) (authorization : option string)
  (st : InMemoryStorage.t) :
  ApiRouter.requireAuth now authorization st
  = match ApiRouter.bearerToken authorization with
    | None => (inl Error.UnauthorizedError, st)
    | Some token =>
        match AuthenticationService.validateSessionByToken now token st with
        | (inr (Some user), st') => (inr (user, token), st')
        | (inr None, st') => (inl Error.UnauthorizedError, st')
        | (inl e, st') => (inl e, st')
        end
    end.
Proof.
  unfold ApiRouter.requireAuth.
  destruct (ApiRouter.bearerToken authorization) as [token|]; [|reflexivity].
  run.
  destruct (AuthenticationService.validateSessionByToken now token st)
    as [[e|[user|]] st']; reflexivity.
Qed.

Lemma optionalAuth_run (now : Date) (authorization : option string)
  (st : InMemoryStorage.t) :
  ApiRouter.optionalAuth now authorization st
  = match ApiRouter.bearerToken authorization with
    | None => (inr None, st)
    | Some token =>
        match AuthenticationService.validateSessionByToken now token st with
        | (inr (Some user), st') => (inr (Some (user, token)), st')
        | (inr None, st') => (inr None, st')
        | (inl e, st') => (inl e, st')
        end
    end.
Proof.
  unfold ApiRouter.optionalAuth.
  destruct (ApiRouter.bearerToken authorization) as [token|]; [|reflexivity].
  run.
  destruct (AuthenticationService.validateSessionByToken now token st)
    as [[e|[user|]] st']; reflexivity.
Qed.

Lemma validateSessionByToken_returns (now : Date) (token : string)
  (st : InMemoryStorage.t) :
  ∃ (user : option User.t) (st' : InMemoryStorage.t),
    AuthenticationService.validateSessionByToken now token st
    = (inr user, st').
Proof.
  rewrite validateSessionByToken_run. repeat case_match; eauto.
Qed.

(** X24. The two authentication middlewares agree: [optionalAuth] never
    throws; it attaches a user and a token exactly when [requireAuth] lets
    the request pass, and then the same ones; [requireAuth] throws nothing
    but [Unauthorized]; and both leave the same store behind. *)
Theorem requireAuth_optionalAuth (now : Date) (authorization : option string)
  (st : InMemoryStorage.t) :
  let required := ApiRouter.requireAuth now authorization st in
  let optional := ApiRouter.optionalAuth now authorization st in
  required.2 = optional.2
  ∧ (∃ attached : option (User.t * string), optional.1 = inr attached)
  ∧ (∀ attached : User.t * string,
       required.1 = inr attached ↔ optional.1 = inr (Some attached))
  ∧ (∀ e : Error.t,
       required.1 = inl e →
       e = Error.UnauthorizedError ∧ optional.1 = inr None).
Proof.
  cbn zeta. rewrite requireAuth_run, optionalAuth_run.
  destruct (ApiRouter.bearerToken authorization) as [token|].
  - destruct (validateSessionByToken_returns now token st)
      as ([user|] & st' & ->); cbn [fst snd].
    + split_and!; [done | eauto | |done].
      intros attached. split; intros [= <-]; reflexivity.
    + split_and!; [done | eauto | done |].
      intros e [= <-]. done.
  - cbn [fst snd]. split_and!; [done | eauto | done |].
    intros e [= <-]. done.
Qed.

Lemma requireAuth_optionalAuth_witness :
  ApiRouter.optionalAuth 1001 (Some "Bearer t3") carol_logged_in
  = (inr (Some (carol, "t3")), carol_logged_in)
  ∧ (ApiRouter.optionalAuth 1001 (Some "Basic t3") carol_logged_in).1
    = inr None.
Proof.
  split.
  - destruct (requireAuth_optionalAuth 1001 (Some "Bearer t3")
                carol_logged_in) as (Hstore & _ & Hsame & _).
    apply injective_projections; [by apply Hsame|].
    cbn [snd]. by rewrite <- Hstore.
  - destruct (requireAuth_optionalAuth 1001 (Some "Basic t3")
                carol_logged_in) as (_ & _ & _ & Hrefused).
    by apply (Hrefused Error.UnauthorizedError).
Defined.

(** X25. [POST /auth/logout] with the bearer token of a stored session
    answers 200 and revokes the token: afterwards [requireAuth] refuses the
    same header at any time, and a second logout with it answers 401
    [INVALID_SESSION]. The handler does not look at the expiry of the
    session. Without a bearer token it answers 401 [UNAUTHORIZED] and
    touches nothing. *)
Theorem logoutHandler_revokes (authorization : option string)
  (session : Session.t) (st : InMemoryStorage.t) :
  ApiRouter.bearerToken authorization = Some (Session.token session) →
  InMemoryStorage.getSessionByToken (Session.token session) st
  = Some session →
  InMemoryStorage.getSessionById (Session.id session) st = Some session →
  ∃ st' : InMemoryStorage.t,
    ApiRouter.asyncHandler (ApiRouter.logoutHandler authorization) st
    = (ApiRouter.Response.mk 200 [("message", "Logged out successfully")],
       st')
    ∧ (∀ now : Date,
         ApiRouter.requireAuth now authorization st'
         = (inl Error.UnauthorizedError, st'))
    ∧ ApiRouter.asyncHandler (ApiRouter.logoutHandler authorization) st'
      = (ApiRouter.Response.mk 401
           [("error", "INVALID_SESSION");
            ("message", "Invalid session token")], st')
    ∧ ApiRouter.asyncHandler (ApiRouter.logoutHandler None) st
      = (ApiRouter.Response.mk 401
           [("error", "UNAUTHORIZED");
            ("message", "Authorization token required")], st).
Proof.
  intros Hbearer Htoken Hid.
  destruct (deleteSession_gone _ _ _ Hid) as (_ & Hgone & _).
  cbn zeta in Hgone.
  exists (InMemoryStorage.deleteSession (Session.id session) st).2.
  unfold ApiRouter.asyncHandler, ApiRouter.logoutHandler.
  rewrite Hbearer. run. rewrite Htoken. run.
  rewrite logout_run, Hid. run. rewrite Hgone. run.
  split_and!; try reflexivity.
  intros now. rewrite requireAuth_run, Hbearer.
  by rewrite validateSessionByToken_run, Hgone.
Qed.

Lemma logoutHandler_revokes_witness :
  ∃ st' : InMemoryStorage.t,
    ApiRouter.asyncHandler (ApiRouter.logoutHandler (Some "Bearer t3"))
      carol_logged_in
    = (ApiRouter.Response.mk 200 [("message", "Logged out successfully")],
       st')
    ∧ ApiRouter.requireAuth 1001 (Some "Bearer t3") carol_logged_in
      = (inr (carol, "t3"), carol_logged_in)
    ∧ ApiRouter.requireAuth 1001 (Some "Bearer t3") st'
      = (inl Error.UnauthorizedError, st').
Proof.
  destruct (logoutHandler_revokes (Some "Bearer t3") carol_session
              carol_logged_in)
    as (st' & Hrun & Hrevoked & _); [reflexivity..|].
  exists st'. split_and!; [exact Hrun | reflexivity | apply Hrevoked].
Defined.

(** ** Serialization of lists of posts *)

Section Lists.
Variable nativeMessage : string -> string.

Lemma serializedAll_valid (posts : list Post.t) :
  Forall validPost posts →
  ∃ items : list Json.t,
    SerializationService.serializedAll posts = Some items
    ∧ Forall2
        (fun post item =>
           SerializationService.deserializePost (Json.stringify item)
           = Outcome.Returns (declaredFields post))
        posts items.
Proof.
  induction 1 as [|post posts Hvalid _ (items & Hitems & Hall)]; cbn.
  - exists []. split; [reflexivity | constructor].
  - destruct (parse_toISOString (Post.createdAt post))
      as (createdAt & -> & Hparse1 & Htruthy1); [apply Hvalid|].
    destruct (parse_toISOString (Post.updatedAt post))
      as (updatedAt & -> & Hparse2 & Htruthy2); [apply Hvalid|].
    rewrite Hitems. eexists. split; [reflexivity|].
    constructor; [|exact Hall]. by apply deserialize_serialized.
Qed.

Lemma deserializeItems_returns (posts : list Post.t)
  (items : list Json.t) (index : nat) :
  Forall2
    (fun post item =>
       SerializationService.deserializePost (Json.stringify item)
       = Outcome.Returns post)
    posts items →
  SerializationService.deserializeItems nativeMessage index items
  = Outcome.Returns posts.
Proof.
  intros Hall. revert index.
  induction Hall as [|post item posts items Hitem _ IH]; intros index; cbn.
  - reflexivity.
  - by rewrite Hitem, IH.
Qed.


End Lists.

(** X26. A list of valid posts survives the round trip through
    [serializePosts] and [deserializePosts]: the same number of posts comes
    back in the same order, each with the fields that the interface
    declares, and the list itself when no content carries a MIME type or a
    file size. *)
Theorem deserializePosts_serializePosts (nativeMessage : string -> string)
  (posts : list Post.t) :
  Forall validPost posts →
  ∃ json : string,
    SerializationService.serializePosts posts = inr json
    ∧ SerializationService.deserializePosts nativeMessage json
      = Outcome.Returns (map declaredFields posts)
    ∧ (Forall (fun post => declaredFields post = post) posts →
       SerializationService.deserializePosts nativeMessage json
       = Outcome.Returns posts).
Proof.
  intros Hvalid.
  destruct (serializedAll_valid posts Hvalid) as (items & Hitems & Hall).
  exists (Json.stringify (Json.Arr items)).
  assert (SerializationService.deserializePosts nativeMessage
            (Json.stringify (Json.Arr items))
          = Outcome.Returns (map declaredFields posts)) as Hback.
  { unfold SerializationService.deserializePosts. rewrite parse_stringify.
    apply deserializeItems_returns.
    clear Hitems Hvalid. induction Hall; cbn; by constructor. }
  split_and!.
  - unfold SerializationService.serializePosts. by rewrite Hitems.
  - exact Hback.
  - intros Hdeclared. rewrite Hback. f_equal.
    clear Hback Hall Hitems Hvalid.
    induction Hdeclared as [|post posts Hpost _ IH]; cbn; [reflexivity|].
    by rewrite Hpost, IH.
Qed.

Lemma deserializePosts_serializePosts_witness :
  ∃ json : string,
    SerializationService.serializePosts [note; snapshot] = inr json
    ∧ SerializationService.deserializePosts (fun _ => "") json
      = Outcome.Returns [note; declaredFields snapshot].
Proof.
  destruct (deserializePosts_serializePosts (fun _ => "") [note; snapshot])
    as (json & Hprint & Hback & _).
  - repeat constructor; (discriminate || reflexivity).
  - exists json. by split.
Defined.



(** ** What [deserializePost] returns *)






(** ** The media service *)

Lemma bytes_valid (buffer : nat) (st : MediaService.t) :
  MediaService.bytes buffer st ≠ [] →
  (buffer < List.length (MediaService.heap st))%nat.
Proof.
  unfold MediaService.bytes. intros Hbytes.
  apply lookup_lt_is_Some.
  destruct (MediaService.heap st !! buffer); [eauto | done].
Qed.

Lemma uploadMedia_run (uuid : string) (now : Date) (data : nat)
  (mimeType : string) (st : MediaService.t) :
  MediaService.isSupportedMimeType mimeType = true →
  MediaService.bytes data st ≠ [] →
  MediaService.uploadMedia uuid now data mimeType st
  = (inr uuid,
     MediaService.mk
       (app (MediaService.heap st) [MediaService.bytes data st])
       (JsMap.set uuid
          (MediaService.MediaEntry.mk uuid
             (List.length (MediaService.heap st)) mimeType
             (Z.of_nat (List.length (MediaService.bytes data st))) now)
          (MediaService.mediaStorage st))).
Proof.
  intros Hmime Hbytes. unfold MediaService.uploadMedia. rewrite Hmime.
  cbn [negb].
  destruct (MediaService.bytes data st) as [|byte rest] eqn:Hcontents;
    [done|].
  cbn [List.length Nat.eqb]. unfold MediaService.copy. cbn.
  by rewrite Hcontents.
Qed.

Lemma getMedia_found (mediaId : string) (entry : MediaService.MediaEntry.t)
  (st : MediaService.t) :
  JsMap.get mediaId (MediaService.mediaStorage st) = Some entry →
  ∃ st' : MediaService.t,
    MediaService.getMedia mediaId st
    = (Some (List.length (MediaService.heap st)), st')
    ∧ MediaService.bytes (List.length (MediaService.heap st)) st'
      = MediaService.bytes (MediaService.MediaEntry.data entry) st
    ∧ MediaService.mediaStorage st' = MediaService.mediaStorage st
    ∧ List.length (MediaService.heap st')
      = S (List.length (MediaService.heap st))
    ∧ ∀ buffer : nat,
        (buffer < List.length (MediaService.heap st))%nat →
        MediaService.bytes buffer st' = MediaService.bytes buffer st.
Proof.
  intros Hget. unfold MediaService.getMedia, MediaService.copy.
  rewrite Hget. eexists. split; [reflexivity|].
  unfold MediaService.bytes. cbn. split_and!.
  - rewrite lookup_app_r by lia. by rewrite Nat.sub_diag.
  - reflexivity.
  - rewrite length_app. cbn. lia.
  - intros buffer Hbuffer. by rewrite lookup_app_l.
Qed.

Lemma bytes_write_other (buffer other : nat) (contents : list N)
  (st : MediaService.t) :
  buffer ≠ other →
  MediaService.bytes other (MediaService.write buffer contents st)
  = MediaService.bytes other st.
Proof.
  intros Hne. unfold MediaService.bytes, MediaService.write. cbn.
  by rewrite list_lookup_insert_ne.
Qed.

Lemma length_heap_write (buffer : nat) (contents : list N)
  (st : MediaService.t) :
  List.length (MediaService.heap (MediaService.write buffer contents st))
  = List.length (MediaService.heap st).
Proof. unfold MediaService.write. cbn. apply length_insert. Qed.

(** X29. An uploaded file is read back byte for byte, and the stored
    bytes are out of the callers' reach: [getMedia] returns a buffer other
    than the one uploaded, with the bytes that the uploaded buffer had at
    the time of the upload, even after the caller has overwritten that
    buffer, and again after the caller has overwritten the buffer that an
    earlier [getMedia] returned. The MIME type is a supported one and the
    data is not empty. *)
Theorem getMedia_uploadMedia (uuid : string) (now : Date) (data : nat)
  (mimeType : string) (st : MediaService.t) :
  MediaService.isSupportedMimeType mimeType = true →
  MediaService.bytes data st ≠ [] →
  ∃ st1 : MediaService.t,
    MediaService.uploadMedia uuid now data mimeType st = (inr uuid, st1)
    ∧ MediaService.mediaExists uuid st1 = true
    ∧ ∀ contents : list N,
        ∃ (returned : nat) (st2 : MediaService.t),
          MediaService.getMedia uuid (MediaService.write data contents st1)
          = (Some returned, st2)
          ∧ returned ≠ data
          ∧ MediaService.bytes returned st2 = MediaService.bytes data st
          ∧ ∀ contents' : list N,
              ∃ (again : nat) (st3 : MediaService.t),
                MediaService.getMedia uuid
                  (MediaService.write returned contents' st2)
                = (Some again, st3)
                ∧ MediaService.bytes again st3 = MediaService.bytes data st.
Proof.
  intros Hmime Hbytes. pose proof (bytes_valid _ _ Hbytes) as Hdata.
  eexists. split; [by apply uploadMedia_run|].
  set (original := MediaService.bytes data st) in *.
  set (stored := List.length (MediaService.heap st)) in *.
  set (entry := MediaService.MediaEntry.mk uuid stored mimeType _ now).
  set (st1 := MediaService.mk _ _).
  assert (JsMap.get uuid (MediaService.mediaStorage st1) = Some entry)
    as Hentry by apply get_set_same.
  assert (MediaService.bytes stored st1 = original) as Hstored.
  { unfold MediaService.bytes, st1, stored. cbn.
    rewrite lookup_app_r by lia. by rewrite Nat.sub_diag. }
  assert (List.length (MediaService.heap st1) = S stored) as Hlength.
  { unfold st1, stored. cbn. rewrite length_app. cbn. lia. }
  split.
  { unfold MediaService.mediaExists. by rewrite Hentry. }
  intros contents.
  destruct (getMedia_found uuid entry (MediaService.write data contents st1))
    as (st2 & Hget & Hreturned & Hmedia & Hlength2 & Hkept);
    [exact Hentry|].
  rewrite length_heap_write, Hlength in Hget, Hreturned, Hlength2, Hkept.
  cbn [MediaService.MediaEntry.data entry] in Hreturned.
  rewrite bytes_write_other, Hstored in Hreturned by lia.
  exists (S stored), st2. split_and!; [exact Hget | lia | exact Hreturned |].
  intros contents'.
  destruct (getMedia_found uuid entry
              (MediaService.write (S stored) contents' st2))
    as (st3 & Hget' & Hreturned' & _).
  { cbn [MediaService.write MediaService.mediaStorage].
    by rewrite Hmedia. }
  rewrite length_heap_write, Hlength2 in Hget', Hreturned'.
  cbn [MediaService.MediaEntry.data entry] in Hreturned'.
  rewrite bytes_write_other, Hkept in Hreturned' by lia.
  rewrite bytes_write_other, Hstored in Hreturned' by lia.
  by exists (S (S stored)), st3.
Qed.

Lemma getMedia_uploadMedia_witness :
  ∃ st1 : MediaService.t,
    MediaService.uploadMedia "m1" 1 0 "image/png" one_buffer
    = (inr "m1", st1)
    ∧ ∃ (returned : nat) (st2 : MediaService.t),
        MediaService.getMedia "m1" (MediaService.write 0 [0; 0]%N st1)
        = (Some returned, st2)
        ∧ MediaService.bytes returned st2 = [137; 80; 78; 71]%N.
Proof.
  destruct (getMedia_uploadMedia "m1" 1 0 "image/png" one_buffer)
    as (st1 & Hupload & _ & Hread); [reflexivity | discriminate |].
  exists st1. split; [exact Hupload|].
  destruct (Hread [0; 0]%N) as (returned & st2 & Hget & _ & Hbytes & _).
  by exists returned, st2.
Defined.

(** X30. [deleteMedia] tells whether the id named a stored file and
    leaves none under it: afterwards [mediaExists] is false, [getMedia]
    returns [null], a second [deleteMedia] returns false, and the files
    under other ids are as before. *)
Theorem deleteMedia_removes (mediaId : string) (st : MediaService.t) :
  uniqueKeys (MediaService.mediaStorage st) →
  let result := MediaService.deleteMedia mediaId st in
  result.1 = MediaService.mediaExists mediaId st
  ∧ MediaService.mediaExists mediaId result.2 = false
  ∧ MediaService.getMedia mediaId result.2 = (None, result.2)
  ∧ (MediaService.deleteMedia mediaId result.2).1 = false
  ∧ uniqueKeys (MediaService.mediaStorage result.2)
  ∧ ∀ other : string,
      other ≠ mediaId →
      MediaService.mediaExists other result.2
      = MediaService.mediaExists other st.
Proof.
  intros Hunique. cbn zeta.
  unfold MediaService.deleteMedia, MediaService.mediaExists,
    MediaService.getMedia.
  cbn [fst snd MediaService.mediaStorage].
  rewrite get_delete_same by done. split_and!; try reflexivity.
  - by apply uniqueKeys_delete.
  - intros other Hother. by rewrite get_delete_other.
Qed.

Lemma deleteMedia_removes_witness :
  (MediaService.deleteMedia "m1"
     (MediaService.uploadMedia "m1" 1 0 "image/png" one_buffer).2).1 = true
  ∧ MediaService.mediaExists "m1"
      (MediaService.deleteMedia "m1"
         (MediaService.uploadMedia "m1" 1 0 "image/png" one_buffer).2).2
    = false.
Proof.
  destruct (deleteMedia_removes "m1"
              (MediaService.uploadMedia "m1" 1 0 "image/png" one_buffer).2)
    as (Hdeleted & Hgone & _).
  - unfold uniqueKeys. cbn. repeat constructor. set_solver.
  - split; [|exact Hgone]. rewrite Hdeleted. reflexivity.
Defined.
